(** * treadmill-aws: spot allocation planner and IPA response checker

    A shallow embedding of [treadmill_aws/spot.py] and of [check_response]
    from [treadmill_aws/ipaclient.py], with the properties of the
    specification stated over it.

    Conventions of the embedding:
    - Python [int] is [Z]; [divmod] on [int] is [Z.div]/[Z.modulo] (both floor).
    - Python [float] prices are exact rationals [Q]: rounding and NaN are
      outside the model.  Two prices are the same [dict] key when [Qeq].
      [SpotFloat] is [get_pricing] with the float division rounded.
    - Python [str] is [string], a character being one byte: text is taken
      to be ASCII.
    - a [dict] is an association list in insertion order with unique keys
      ([Dict.set] replaces in place, or appends).
    - a function that can raise returns [res A]: [Ok a] or [Raise e]. *)

From Stdlib Require Import Bool Ascii String List ZArith QArith Lia.
From Stdlib Require Import Sorting.Sorted Permutation.
Import ListNotations.

Set Warnings "-register-all".

Local Open Scope string_scope.
Local Open Scope Z_scope.

(** ** Python exceptions and the error monad *)

(** A decoded JSON value.  Numbers are the integers: the codes of the
    server are, and floats are outside the model. *)
Inductive json : Type :=
| JNull
| JBool (b : bool)
| JNum (n : Z)
| JStr (s : string)
| JList (l : list json)
| JDict (d : list (string * json)).

(** The exceptions of [ipaclient.py] carry their argument; the built-in
    ones the two modules can raise are kept by class only. *)
Inductive exn : Type :=
| IPAError (arg : json)
| AuthenticationError (arg : json)
| AuthorizationError (arg : json)
| InvocationError (arg : json)
| ExecutionError (arg : json)
| NotFoundError (arg : json)
| AlreadyExistsError (arg : json)
| GenericError (arg : json)
| KeyError
| TypeError
| AttributeError
| ValueError
| ZeroDivisionError.

Inductive res (A : Type) : Type :=
| Ok (a : A)
| Raise (e : exn).
Arguments Ok {A} a.
Arguments Raise {A} e.

Definition bind {A B : Type} (m : res A) (k : A -> res B) : res B :=
  match m with
  | Ok a => k a
  | Raise e => Raise e
  end.

Notation "x <- m ;; k" := (bind m (fun x => k))
  (at level 61, m at next level, right associativity).
Notation "' p <- m ;; k" := (bind m (fun p => k))
  (at level 61, p pattern, m at next level, right associativity).

Definition is_ok {A : Type} (m : res A) : bool :=
  match m with Ok _ => true | Raise _ => false end.

(** ** Strings *)

(** Python [s in t] on two [str]: [s] occurs in [t] as a substring. *)
Fixpoint str_in (s t : string) : bool :=
  String.prefix s t ||
  match t with
  | EmptyString => false
  | String _ t' => str_in s t'
  end.

(** Python [s.split('.')]: the pieces between the dots, never empty. *)
Fixpoint split_dot (s : string) : list string :=
  match s with
  | EmptyString => [EmptyString]
  | String c s' =>
      if Ascii.eqb c "."%char then EmptyString :: split_dot s'
      else match split_dot s' with
           | [] => [String c EmptyString]
           | piece :: pieces => String c piece :: pieces
           end
  end.

(** [l.pop()] of a list that is never empty here: its last element. *)
Definition pop (l : list string) : string := last l EmptyString.

(** ** Insertion-ordered dictionaries *)

Module Dict.
Section WithKey.
Context {K V : Type}.
Variable eqb : K -> K -> bool.

Fixpoint get (k : K) (d : list (K * V)) : option V :=
  match d with
  | [] => None
  | (k', v) :: d' => if eqb k k' then Some v else get k d'
  end.

Definition mem (k : K) (d : list (K * V)) : bool :=
  match get k d with Some _ => true | None => false end.

(** [d[k] = v]: an existing key keeps its place, a new one goes last. *)
Fixpoint set (k : K) (v : V) (d : list (K * V)) : list (K * V) :=
  match d with
  | [] => [(k, v)]
  | (k', v') :: d' =>
      if eqb k k' then (k', v) :: d' else (k', v') :: set k v d'
  end.

Definition keys (d : list (K * V)) : list K := map fst d.

(** [dict.fromkeys(ks, v)] *)
Definition fromkeys (ks : list K) (v : V) : list (K * V) :=
  fold_left (fun d k => set k v d) ks [].
End WithKey.
End Dict.

(** ** [spot.py] *)

Module Spot.

(** [_CORES] *)
Definition _CORES : list (string * Z) :=
  [ ("medium", 2); ("large", 2); ("xlarge", 4); ("2xlarge", 8);
    ("4xlarge", 16); ("10xlarge", 40); ("12xlarge", 48); ("16xlarge", 64);
    ("24xlarge", 96) ].

(** [cores_of]: [_CORES[instance_type.split('.').pop()]] *)
Definition cores_of (instance_type : string) : res Z :=
  match Dict.get String.eqb (pop (split_dot instance_type)) _CORES with
  | Some c => Ok c
  | None => Raise KeyError
  end.

(** One element of ['SpotPriceHistory'], with ['SpotPrice'] already read
    as a number. *)
Record observation : Type := {
  InstanceType : string;
  SpotPrice : Q
}.

(** [GLOBAL.ec2.describe_spot_price_history], as a function of the
    requested types and the zone. *)
Definition ec2_api : Type := list string -> string -> list observation.

(** [get_latest_price]: the history, or [None] when it is empty. *)
Definition get_latest_price (ec2 : ec2_api) (types : list string)
    (az : string) : option (list observation) :=
  match ec2 types az with
  | [] => None
  | price_list => Some price_list
  end.

(** The value stored per instance type: [None] is the empty dict [{}] that
    [dict.fromkeys] puts there. *)
Record quote : Type := {
  price : Q;
  core_price : Q;
  cores : Z
}.

Definition price_row : Type := list (string * option quote).
Definition pricing : Type := list (string * price_row).

(** The inner loop of [get_pricing] over one zone's results. *)
Fixpoint record_results (results : list observation) (row : price_row)
    : res price_row :=
  match results with
  | [] => Ok row
  | result :: rest =>
      let instance_type := InstanceType result in
      let price := SpotPrice result in
      c <- cores_of instance_type ;;
      if c =? 0 then Raise ZeroDivisionError
      else
        let core_price := (price / inject_Z c)%Q in
        record_results rest
          (Dict.set String.eqb instance_type
             (Some {| price := price; core_price := core_price; cores := c |})
             row)
  end.

(** The outer loop of [get_pricing]; iterating over the [None] that
    [get_latest_price] returns for an empty history is a [TypeError]. *)
Fixpoint fetch_zones (ec2 : ec2_api) (instance_types azs : list string)
    (price_list : pricing) : res pricing :=
  match azs with
  | [] => Ok price_list
  | az :: rest =>
      let row := Dict.fromkeys String.eqb instance_types None in
      match get_latest_price ec2 instance_types az with
      | None => Raise TypeError
      | Some results =>
          row <- record_results results row ;;
          fetch_zones ec2 instance_types rest
            (Dict.set String.eqb az row price_list)
      end
  end.

Definition get_pricing (ec2 : ec2_api) (instance_types azs : list string)
    : res pricing :=
  fetch_zones ec2 instance_types azs (Dict.fromkeys String.eqb azs []).

(** Keys of the table [sort_by_price] builds: a core price, or Python's
    [None] for a pair without one. *)
Definition price_key : Type := option Q.

Definition price_key_eqb (a b : price_key) : bool :=
  match a, b with
  | None, None => true
  | Some p, Some q => Qeq_bool p q
  | _, _ => false
  end.

Definition choice : Type := (string * string)%type.
Definition choices_table : Type := list (price_key * list choice).

(** [pricing[az][instance_type].get('core_price')] *)
Definition get_core_price (q : option quote) : price_key :=
  option_map core_price q.

Fixpoint sort_row (az : string) (row : price_row) (choices : choices_table)
    : choices_table :=
  match row with
  | [] => choices
  | (instance_type, q) :: rest =>
      let price := get_core_price q in
      sort_row az rest
        (match Dict.get price_key_eqb price choices with
         | None => Dict.set price_key_eqb price [(az, instance_type)] choices
         | Some l =>
             Dict.set price_key_eqb price (l ++ [(az, instance_type)])%list choices
         end)
  end.

Fixpoint sort_zones (p : pricing) (choices : choices_table) : choices_table :=
  match p with
  | [] => choices
  | (az, row) :: rest => sort_zones rest (sort_row az row choices)
  end.

Definition sort_by_price (p : pricing) : choices_table := sort_zones p [].

(** Python [a < b] on the keys: ordering [None] against anything is a
    [TypeError]. *)
Definition key_lt (a b : price_key) : res bool :=
  match a, b with
  | Some p, Some q => Ok (negb (Qle_bool q p))
  | _, _ => Raise TypeError
  end.

(** [sorted], as a stable insertion sort that only uses [<]. *)
Fixpoint insert_key (x : price_key) (l : list price_key)
    : res (list price_key) :=
  match l with
  | [] => Ok [x]
  | y :: l' =>
      b <- key_lt y x ;;
      if b then (r <- insert_key x l' ;; Ok (y :: r)) else Ok (x :: y :: l')
  end.

Fixpoint sorted (l : list price_key) : res (list price_key) :=
  match l with
  | [] => Ok []
  | x :: l' => s <- sorted l' ;; insert_key x s
  end.

(** [price_list[price]] for a key taken from the table itself. *)
Definition group_of (price_list : choices_table) (k : price_key)
    : list choice :=
  match Dict.get price_key_eqb k price_list with
  | Some l => l
  | None => []
  end.

(** The ranking: the groups in ascending key order, concatenated. *)
Definition ranking (price_list : choices_table) : res (list choice) :=
  ks <- sorted (Dict.keys price_list) ;;
  Ok (concat (map (group_of price_list) ks)).

(** [[cores_of(itype) for itype in instance_types]] *)
Fixpoint cores_list (instance_types : list string) : res (list Z) :=
  match instance_types with
  | [] => Ok []
  | itype :: rest =>
      c <- cores_of itype ;;
      cs <- cores_list rest ;;
      Ok (c :: cs)
  end.

(** [min] of a list: [ValueError] on the empty one. *)
Definition py_min (l : list Z) : res Z :=
  match l with
  | [] => Raise ValueError
  | x :: l' => Ok (fold_left Z.min l' x)
  end.

Definition py_divmod (a b : Z) : res (Z * Z) :=
  if b =? 0 then Raise ZeroDivisionError else Ok (a / b, a mod b).

(** The three numbers [get_cheap_cores] derives from the request before
    it walks the choices. *)
Record shares : Type := {
  smallest : Z;
  cores_per_az : Z;
  spare_cores0 : Z
}.

Definition plan_shares (cores : Z) (instance_types : list string)
    (min_azs : Z) : res shares :=
  cs <- cores_list instance_types ;;
  smallest <- py_min cs ;;
  '(cores_per_az, spare_cores) <- py_divmod cores (smallest * min_azs) ;;
  let cores_per_az := cores_per_az * smallest in
  Ok {| smallest := smallest;
        cores_per_az := cores_per_az;
        spare_cores0 := spare_cores |}.

(** The dict [result].  Its key ["{}|{}".format(az, instance_type)] is kept
    as the pair it is formatted from; every dict operation goes through
    the formatted string. *)
Definition plan : Type := list (choice * Z).

Definition choice_key (c : choice) : string := fst c ++ "|" ++ snd c.

Definition same_key (a b : choice) : bool :=
  String.eqb (choice_key a) (choice_key b).

(** The dict as Python returns it. *)
Definition plan_dict (p : plan) : list (string * Z) :=
  map (fun e => (choice_key (fst e), snd e)) p.

(** [[choice for choice in result.keys() if az in choice]] is not empty. *)
Definition az_in_keys (az : string) (result : plan) : bool :=
  existsb (fun k => str_in az (choice_key k)) (Dict.keys result).

(** [result[choice] += 1]; the key is there, the walk has just stored it. *)
Definition incr (ch : choice) (result : plan) : plan :=
  match Dict.get same_key ch result with
  | Some n => Dict.set same_key ch (n + 1) result
  | None => result
  end.

(** The [while] loop; [fuel] bounds its iterations.  The walk gives it
    [left_cores] of them, one for every core of the pool, which is enough
    as a unit has at least one core. *)
Fixpoint take_units (fuel : nat) (c : Z) (ch : choice) (left_cores : Z)
    (result : plan) : Z * plan :=
  match fuel with
  | O => (left_cores, result)
  | S fuel' =>
      if c <=? left_cores
      then take_units fuel' c ch (left_cores - c) (incr ch result)
      else (left_cores, result)
  end.

Record walk_state : Type := {
  result : plan;
  left_cores : Z;
  spare_cores : Z
}.

(** The [for] loop of [get_cheap_cores]. *)
Fixpoint walk (min_azs cores_per_az : Z) (choices : list choice)
    (st : walk_state) : res walk_state :=
  match choices with
  | [] => Ok st
  | (az, instance_type) :: rest =>
      if az_in_keys az (result st) then walk min_azs cores_per_az rest st
      else if Z.of_nat (length (result st)) =? min_azs then Ok st
      else
        let ch := (az, instance_type) in
        let result :=
          if Dict.mem same_key ch (result st) then result st
          else Dict.set same_key ch 0 (result st) in
        let left_cores := left_cores st + cores_per_az in
        c <- cores_of instance_type ;;
        let '(left_cores, result) :=
          take_units (Z.to_nat left_cores) c ch left_cores result in
        let spare_cores := spare_cores st + left_cores in
        if negb (spare_cores =? 0) && (c <=? spare_cores)
        then walk min_azs cores_per_az rest
               {| result := incr ch result;
                  left_cores := left_cores;
                  spare_cores := spare_cores - c |}
        else walk min_azs cores_per_az rest
               {| result := result;
                  left_cores := left_cores;
                  spare_cores := spare_cores |}
  end.

Definition get_cheap_cores (ec2 : ec2_api) (cores : Z)
    (instance_types azs : list string) (min_azs : Z) : res plan :=
  pricing <- get_pricing ec2 instance_types azs ;;
  let price_list := sort_by_price pricing in
  choices <- ranking price_list ;;
  sh <- plan_shares cores instance_types min_azs ;;
  st <- walk min_azs (cores_per_az sh) choices
          {| result := []; left_cores := 0; spare_cores := spare_cores0 sh |} ;;
  Ok (result st).

(** *** Sample price histories *)

Definition obs (t : string) (p : Q) : observation :=
  {| InstanceType := t; SpotPrice := p |}.

(** Every zone quotes every requested type at 1/10. *)
Definition flat_ec2 : ec2_api :=
  fun types _ => map (fun t => obs t (1 # 10)) types.

(** What three such zones get for 100 cores of the four-core type. *)
Definition hundred_cores_plan : plan :=
  [ (("us-east-1a", "m5.xlarge"), 9);
    (("us-east-1b", "m5.xlarge"), 8);
    (("us-east-1c", "m5.xlarge"), 8) ].

(** "us-east-1a" has no observation for "m5.xlarge"; the other zones
    quote both types. *)
Definition partial_ec2 : ec2_api :=
  fun _ az =>
    if String.eqb az "us-east-1a" then [obs "m5.large" (1 # 10)]
    else [obs "m5.large" (1 # 10); obs "m5.xlarge" (1 # 5)].

(** One zone quotes a size that [_CORES] does not list. *)
Definition metal_ec2 : ec2_api :=
  fun _ az =>
    if String.eqb az "us-east-1b" then [obs "m5.metal" (4 # 1)]
    else [obs "m5.xlarge" (1 # 10)].

(** Two zones, the name of one a prefix of the other's; the longer name
    is the cheaper zone. *)
Definition prefix_ec2 : ec2_api :=
  fun _ az =>
    if String.eqb az "us-east-1a" then [obs "m5.large" (1 # 20)]
    else [obs "m5.large" (1 # 10)].

(** *** Vocabulary of the properties *)

(** Cores of one unit of a type; 0 stands for a size missing from
    [_CORES], which no stored choice has. *)
Definition unit_cores (instance_type : string) : Z :=
  match cores_of instance_type with
  | Ok c => c
  | Raise _ => 0
  end.

Definition zone_of (e : choice * Z) : string := fst (fst e).
Definition type_of (e : choice * Z) : string := snd (fst e).
Definition units_of (e : choice * Z) : Z := snd e.

(** Cores the plan allocates: units times cores per unit, summed. *)
Definition plan_cores (p : plan) : Z :=
  fold_right (fun e acc => units_of e * unit_cores (type_of e) + acc) 0 p.

(** One unit of each entry's type, summed. *)
Definition one_unit_each (p : plan) : Z :=
  fold_right (fun e acc => unit_cores (type_of e) + acc) 0 p.

(** A row of the table is what the inner loop makes of the zone's
    history, started from the placeholders. *)
Definition row_of (ec2 : ec2_api) (T : list string) (az : string)
    (row : price_row) : Prop :=
  ec2 T az <> [] /\
  record_results (ec2 T az) (Dict.fromkeys String.eqb T None) = Ok row.

(** The pairs of a table whose core price is the key [k], in the order
    [sort_by_price] meets them: zone by zone, type by type. *)
Definition pairs_at (k : price_key) (p : pricing) : list choice :=
  flat_map
    (fun zr =>
       map (fun tq => (fst zr, fst tq))
         (filter (fun tq => price_key_eqb k (get_core_price (snd tq)))
            (snd zr)))
    p.

(** The order [sorted] puts the keys in; [None] is ordered against
    nothing. *)
Definition key_le (a b : price_key) : Prop :=
  match a, b with
  | Some x, Some y => (x <= y)%Q
  | _, _ => False
  end.

(** The pair has an entry, priced or not, in the table. *)
Definition in_table (p : pricing) (x : choice) : Prop :=
  exists row q, In (fst x, row) p /\ In (snd x, q) row.

(** The quote the table holds for a pair, and its core price (0 when the
    pair has none). *)
Definition quote_at (p : pricing) (x : choice) : option quote :=
  match Dict.get String.eqb (fst x) p with
  | Some row =>
      match Dict.get String.eqb (snd x) row with
      | Some q => q
      | None => None
      end
  | None => None
  end.

Definition core_price_at (p : pricing) (x : choice) : Q :=
  match quote_at p x with
  | Some q => core_price q
  | None => 0
  end.

Definition no_dearer (p : pricing) (x y : choice) : Prop :=
  (core_price_at p x <= core_price_at p y)%Q.

(** Keys are unique in the table and in each of its rows. *)
Definition table_wf (p : pricing) : Prop :=
  NoDup (Dict.keys p) /\
  forall az row, In (az, row) p -> NoDup (Dict.keys row).

(** No zone name of the list occurs inside the key of a pair of another
    zone. *)
Definition clash_free (l : list choice) : Prop :=
  forall x y, In x l -> In y l -> fst x <> fst y ->
              str_in (fst x) (choice_key y) = false.

(** What the walk keeps true of the zones, with [done] the pairs it has
    gone past: the entries come from [done], one per zone; every zone met
    has its entry; and an entry comes before ([le]) every pair of its own
    zone. *)
Definition sel_inv (le : choice -> choice -> Prop) (done : list choice)
    (st : walk_state) : Prop :=
  (forall e, In e (result st) -> In (fst e) done) /\
  NoDup (map zone_of (result st)) /\
  (forall x, In x done -> In (fst x) (map zone_of (result st))) /\
  (forall e y, In e (result st) -> In y done -> fst y = zone_of e ->
               le (fst e) y).

(** Every requested type has an observation in every zone. *)
Definition fully_priced (ec2 : ec2_api) (T azs : list string) : bool :=
  forallb
    (fun az =>
       forallb
         (fun t => existsb (fun o => String.eqb (InstanceType o) t) (ec2 T az))
         T)
    azs.

(** Every type requested or observed has a size that [_CORES] lists. *)
Definition sizes_known (ec2 : ec2_api) (T azs : list string) : bool :=
  forallb (fun t => is_ok (cores_of t)) T &&
  forallb
    (fun az => forallb (fun o => is_ok (cores_of (InstanceType o))) (ec2 T az))
    azs.

(** The types a zone's row can hold: requested or observed. *)
Definition row_types (ec2 : ec2_api) (T : list string) (az : string)
    : list string :=
  T ++ map InstanceType (ec2 T az).

(** No zone name occurs inside a key the plan can hold for another zone. *)
Definition no_clash (ec2 : ec2_api) (T azs : list string) : bool :=
  forallb
    (fun az =>
       forallb
         (fun az' =>
            String.eqb az az' ||
            forallb (fun t => negb (str_in az (choice_key (az', t))))
              (row_types ec2 T az'))
         azs)
    azs.

(** The number of distinct zones asked for. *)
Definition zone_count (azs : list string) : Z :=
  Z.of_nat (length (nodup string_dec azs)).

(** One unit of the type chosen last; 0 for the empty plan. *)
Definition last_unit (p : plan) : Z :=
  match rev p with
  | [] => 0
  | e :: _ => unit_cores (type_of e)
  end.

(** What the walk keeps true of the pool and of the cores handed out, with
    [k] zones chosen so far: the pool never goes negative and holds less
    than one unit of the last type; the whole units account for [k] shares
    less the pool, and the extra units for at most one unit per zone. *)
Definition budget_inv (m cpz : Z) (st : walk_state) : Prop :=
  let k := Z.of_nat (length (result st)) in
  k <= m /\
  0 <= left_cores st /\
  (result st <> [] -> left_cores st < last_unit (result st)) /\
  k * cpz - left_cores st <= plan_cores (result st) /\
  plan_cores (result st) <= k * cpz - left_cores st + one_unit_each (result st).

(** What one iteration of the walk that stores a choice does to the
    state: [n] whole units come out of the pool [left_cores], and [b], 0 or
    1, is the unit granted out of [spare_cores]. *)
Inductive zone_step (cores_per_az : Z) (ch : choice) (st st' : walk_state)
    : Prop :=
| ZoneStep (c n b : Z) :
    cores_of (snd ch) = Ok c ->
    0 <= n ->
    b = 0 \/ b = 1 ->
    left_cores st + cores_per_az = left_cores st' + n * c ->
    left_cores st' < c ->
    (0 < n -> 0 <= left_cores st') ->
    result st' = (result st ++ [(ch, n + b)])%list ->
    spare_cores st' = spare_cores st + left_cores st' - b * c ->
    (b = 1 -> c <= spare_cores st + left_cores st') ->
    (b = 0 -> spare_cores st + left_cores st' = 0 \/
              spare_cores st + left_cores st' < c) ->
    zone_step cores_per_az ch st st'.

(** A history with two observations of one type, the later one dearer. *)
Definition repeat_ec2 : ec2_api :=
  fun _ _ => [obs "m5.large" (1 # 10); obs "m5.xlarge" (1 # 5);
              obs "m5.large" (3 # 10)].

(** "us-east-1b" has no history at all. *)
Definition gap_ec2 : ec2_api :=
  fun types az =>
    if String.eqb az "us-east-1b" then []
    else map (fun t => obs t (1 # 10)) types.

(** The tables [get_pricing] makes of two of the histories above. *)
Definition flat_table : pricing :=
  Eval vm_compute in
    match get_pricing flat_ec2 ["m5.large"; "m5.xlarge"] ["us-east-1a"] with
    | Ok p => p
    | Raise _ => []
    end.

Definition partial_table : pricing :=
  Eval vm_compute in
    match get_pricing partial_ec2 ["m5.large"; "m5.xlarge"]
            ["us-east-1a"; "us-east-1b"] with
    | Ok p => p
    | Raise _ => []
    end.

(** *** [sort_by_az] *)

(** A zone's list in [sort_by_az]: [(instance_type, price)] tuples. *)
Definition az_choices : Type := list (string * price_key).

(** [l.sort(key=lambda k: k[1])]: stable, and by [<] on the keys alone. *)
Fixpoint insert_by_price (x : string * price_key) (l : az_choices)
    : res az_choices :=
  match l with
  | [] => Ok [x]
  | y :: l' =>
      b <- key_lt (snd y) (snd x) ;;
      if b then (r <- insert_by_price x l' ;; Ok (y :: r))
      else Ok (x :: y :: l')
  end.

Fixpoint sort_by_key (l : az_choices) : res az_choices :=
  match l with
  | [] => Ok []
  | x :: l' => s <- sort_by_key l' ;; insert_by_price x s
  end.

(** The inner loop of [sort_by_az]: one tuple appended per type. *)
Fixpoint append_row (row : price_row) (l : az_choices) : az_choices :=
  match row with
  | [] => l
  | (instance_type, q) :: rest =>
      let price := get_core_price q in
      append_row rest (l ++ [(instance_type, price)])%list
  end.

Fixpoint sort_az_zones (p : pricing) (choices : list (string * az_choices))
    : res (list (string * az_choices)) :=
  match p with
  | [] => Ok choices
  | (az, row) :: rest =>
      let choices :=
        if Dict.mem String.eqb az choices then choices
        else Dict.set String.eqb az [] choices in
      let l :=
        match Dict.get String.eqb az choices with
        | Some l => l
        | None => []
        end in
      l <- sort_by_key (append_row row l) ;;
      sort_az_zones rest (Dict.set String.eqb az l choices)
  end.

Definition sort_by_az (p : pricing) : res (list (string * az_choices)) :=
  sort_az_zones p [].

(** *** Further vocabulary *)

(** The last observation of a type in a history. *)
Fixpoint last_obs (t : string) (results : list observation)
    : option observation :=
  match results with
  | [] => None
  | o :: rest =>
      match last_obs t rest with
      | Some o' => Some o'
      | None => if String.eqb t (InstanceType o) then Some o else None
      end
  end.

(** The quote [get_pricing] builds from an observation of a type of [c]
    cores. *)
Definition quote_from (o : observation) (c : Z) : quote :=
  {| price := SpotPrice o;
     core_price := (SpotPrice o / inject_Z c)%Q;
     cores := c |}.

(** The tuples [sort_by_az] makes of a row, in row order. *)
Definition row_tuples (row : price_row) : az_choices :=
  map (fun tq => (fst tq, get_core_price (snd tq))) row.

(** The order [sort_by_az] leaves a zone's tuples in. *)
Definition tuple_le (a b : string * price_key) : Prop :=
  key_le (snd a) (snd b).

(** Every type requested or observed has [c] cores. *)
Definition has_cores (c : Z) (t : string) : bool :=
  match cores_of t with
  | Ok c' => c' =? c
  | Raise _ => false
  end.

Definition uniform_cores (ec2 : ec2_api) (T azs : list string) (c : Z)
    : bool :=
  forallb (has_cores c) T &&
  forallb
    (fun az => forallb (fun o => has_cores c (InstanceType o)) (ec2 T az))
    azs.

(** What the walk keeps true when every unit has [c] cores, with [k]
    zones chosen, a share of [cpz] cores and [rem] cores to spare at the
    start. *)
Definition uniform_inv (c cpz rem : Z) (st : walk_state) : Prop :=
  let k := Z.of_nat (length (result st)) in
  left_cores st = 0 /\
  0 <= spare_cores st /\
  plan_cores (result st) + spare_cores st = k * cpz + rem /\
  (spare_cores st < c \/ spare_cores st = rem - k * c) /\
  exists q, plan_cores (result st) = q * c.

(** No two keys of the list are the same [dict] key. *)
Definition keys_apart (l : list price_key) : Prop :=
  NoDup l /\
  forall a b, In a l -> In b l -> price_key_eqb a b = true -> a = b.

End Spot.

(** ** [spot.py]: the float division of [get_pricing]

    [price / cores_of(instance_type)] divides a [float] by an [int]: the
    result is the double nearest to the exact quotient, a tie going to the
    even mantissa.  Here [get_pricing] is written with that division, for
    a rounding [rnd] of the quotient; [nearest_double] is the rounding of
    IEEE 754 binary64.  [SpotPrice] is, as in [Spot], the double that
    [float(result.get('SpotPrice'))] returns.  [Spot] keeps the quotient
    as it is. *)

Module SpotFloat.
Import Spot.

(** [n / d] rounded to the nearest integer, a tie to the even one, for
    [d > 0]. *)
Definition round_half_even (n d : Z) : Z :=
  let q := n / d in
  match 2 * (n mod d) ?= d with
  | Lt => q
  | Eq => if Z.even q then q else q + 1
  | Gt => q + 1
  end.

(** [2 ^ k <= a / d], for [k] of either sign. *)
Definition pow2_le (k a d : Z) : bool :=
  if 0 <=? k then d * 2 ^ k <=? a else d <=? a * 2 ^ (- k).

(** The binary exponent [k] of [a / d > 0]: [2 ^ k <= a / d < 2 ^ (k + 1)]. *)
Definition exponent (a d : Z) : Z :=
  let k := Z.log2 a - Z.log2 d in
  if pow2_le k a d then k else k - 1.

(** The double nearest to [x]: 53 bits of mantissa, fewer below
    [2 ^ -1022].  A quotient of a double by a core count is never beyond
    the largest double, so infinities do not arise. *)
Definition nearest_double (x : Q) : Q :=
  let n := Qnum x in
  let d := Z.pos (Qden x) in
  if n =? 0 then 0%Q
  else
    let a := Z.abs n in
    let e := Z.max (exponent a d - 52) (- 1074) in
    let m := if 0 <=? e then round_half_even a (d * 2 ^ e)
             else round_half_even (a * 2 ^ (- e)) d in
    let v := Z.sgn n * m in
    if 0 <=? e then inject_Z (v * 2 ^ e) else v # Z.to_pos (2 ^ (- e)).

Section Rounding.
Variable rnd : Q -> Q.

(** [price / cores] on a float and an int. *)
Definition float_div (price : Q) (c : Z) : Q := rnd (price / inject_Z c).

(** The inner loop of [get_pricing] over one zone's results. *)
Fixpoint record_results (results : list observation) (row : price_row)
    : res price_row :=
  match results with
  | [] => Ok row
  | result :: rest =>
      let instance_type := InstanceType result in
      let price := SpotPrice result in
      c <- cores_of instance_type ;;
      if c =? 0 then Raise ZeroDivisionError
      else
        let core_price := float_div price c in
        record_results rest
          (Dict.set String.eqb instance_type
             (Some {| price := price; core_price := core_price; cores := c |})
             row)
  end.

(** The outer loop of [get_pricing]. *)
Fixpoint fetch_zones (ec2 : ec2_api) (instance_types azs : list string)
    (price_list : pricing) : res pricing :=
  match azs with
  | [] => Ok price_list
  | az :: rest =>
      let row := Dict.fromkeys String.eqb instance_types None in
      match get_latest_price ec2 instance_types az with
      | None => Raise TypeError
      | Some results =>
          row <- record_results results row ;;
          fetch_zones ec2 instance_types rest
            (Dict.set String.eqb az row price_list)
      end
  end.

Definition get_pricing (ec2 : ec2_api) (instance_types azs : list string)
    : res pricing :=
  fetch_zones ec2 instance_types azs (Dict.fromkeys String.eqb azs []).

(** A quote, a row and a table of [Spot] with the core prices rounded. *)
Definition round_quote (q : quote) : quote :=
  {| price := price q;
     core_price := float_div (price q) (cores q);
     cores := cores q |}.

Definition round_row (row : price_row) : price_row :=
  map (fun tq => (fst tq, option_map round_quote (snd tq))) row.

Definition round_table (p : pricing) : pricing :=
  map (fun zr => (fst zr, round_row (snd zr))) p.

End Rounding.

(** The double [float('0.1')], and a history that quotes it for every
    requested type in every zone. *)
Definition tenth : Q := 3602879701896397 # 36028797018963968.

Definition tenth_ec2 : ec2_api :=
  fun types _ => map (fun t => obs t tenth) types.

End SpotFloat.

(** ** [ipaclient.py]: [check_response] *)

Module IPAClient.

(** A [requests] response: its [text], and what [json()] gives, [None]
    when the body is not JSON and [json()] raises [ValueError]. *)
Record response : Type := {
  text : string;
  body : option json
}.

(** Python truth value of a decoded JSON value. *)
Definition truthy (v : json) : bool :=
  match v with
  | JNull => false
  | JBool b => b
  | JNum n => negb (n =? 0)
  | JStr s => negb (String.eqb s EmptyString)
  | JList l => match l with [] => false | _ => true end
  | JDict d => match d with [] => false | _ => true end
  end.

(** [v[key]] for a string key: only a dict can be indexed by one. *)
Definition getitem (v : json) (key : string) : res json :=
  match v with
  | JDict d =>
      match Dict.get String.eqb key d with
      | Some x => Ok x
      | None => Raise KeyError
      end
  | _ => Raise TypeError
  end.

(** [v.get(key, default)]: only a dict has the method. *)
Definition get (v : json) (key : string) (default : json) : res json :=
  match v with
  | JDict d =>
      match Dict.get String.eqb key d with
      | Some x => Ok x
      | None => Ok default
      end
  | _ => Raise AttributeError
  end.

(** [lo <= code <= hi] with [int] bounds: a [bool] counts as 0 or 1,
    anything that is not a number cannot be ordered against an [int]. *)
Definition between (lo : Z) (code : json) (hi : Z) : res bool :=
  match code with
  | JNum n => Ok ((lo <=? n) && (n <=? hi))
  | JBool b => let n := if b then 1 else 0 in Ok ((lo <=? n) && (n <=? hi))
  | _ => Raise TypeError
  end.

(** [code == k] *)
Definition equals (code : json) (k : Z) : bool :=
  match code with
  | JNum n => n =? k
  | JBool b => (if b then 1 else 0) =? k
  | _ => false
  end.

Definition kerberos_marker : string :=
  "Unable to verify your Kerberos credentials".

(** The classification by code, from [err = response_obj['error']] on. *)
Definition raise_for (err : json) : res unit :=
  code <- getitem err "code" ;;
  b <- between 1000 code 1999 ;;
  if b then (m <- getitem err "message" ;; Raise (AuthenticationError m)) else
  b <- between 2000 code 2999 ;;
  if b then (m <- getitem err "message" ;; Raise (AuthorizationError m)) else
  b <- between 3000 code 3999 ;;
  if b then (m <- getitem err "message" ;; Raise (InvocationError m)) else
  if equals code 4001
  then (m <- getitem err "message" ;; Raise (NotFoundError m)) else
  if equals code 4002
  then (m <- getitem err "message" ;; Raise (AlreadyExistsError m)) else
  b <- between 4000 code 4999 ;;
  if b then (m <- getitem err "message" ;; Raise (ExecutionError m)) else
  b <- between 5000 code 5999 ;;
  if b then (m <- getitem err "message" ;; Raise (GenericError m)) else
  Raise (IPAError (JStr "Unknown error.")).

(** The [truncated] check on [response_obj['result']]. *)
Definition check_truncated (response_obj : json) : res unit :=
  r <- getitem response_obj "result" ;;
  if truthy r then
    t <- get r "truncated" (JBool false) ;;
    if truthy t then Raise (IPAError (JStr "IPA results truncated."))
    else Ok tt
  else Ok tt.

Definition check_response (r : response) : res unit :=
  if str_in kerberos_marker (text r)
  then Raise (AuthenticationError (JStr "Invalid Kerberos Credentials"))
  else
    match body r with
    | None => Raise ValueError
    | Some response_obj =>
        _ <- check_truncated response_obj ;;
        err <- getitem response_obj "error" ;;
        if negb (truthy err) then Ok tt
        else raise_for err
    end.

(** The exception classes of the module and their single-parent tree. *)
Inductive ipa_class : Type :=
| CIPAError | CAuthentication | CAuthorization | CInvocation
| CExecution | CNotFound | CAlreadyExists | CGeneric.

Definition class_of (e : exn) : option ipa_class :=
  match e with
  | IPAError _ => Some CIPAError
  | AuthenticationError _ => Some CAuthentication
  | AuthorizationError _ => Some CAuthorization
  | InvocationError _ => Some CInvocation
  | ExecutionError _ => Some CExecution
  | NotFoundError _ => Some CNotFound
  | AlreadyExistsError _ => Some CAlreadyExists
  | GenericError _ => Some CGeneric
  | _ => None
  end.

Definition parent (c : ipa_class) : option ipa_class :=
  match c with
  | CIPAError => None
  | CNotFound | CAlreadyExists => Some CExecution
  | _ => Some CIPAError
  end.

Definition class_eqb (a b : ipa_class) : bool :=
  match a, b with
  | CIPAError, CIPAError | CAuthentication, CAuthentication
  | CAuthorization, CAuthorization | CInvocation, CInvocation
  | CExecution, CExecution | CNotFound, CNotFound
  | CAlreadyExists, CAlreadyExists | CGeneric, CGeneric => true
  | _, _ => false
  end.

(** [isinstance(e, c)]: [c] is the class of [e] or an ancestor of it (the
    tree has depth two). *)
Definition isinstance (e : exn) (c : ipa_class) : bool :=
  match class_of e with
  | None => false
  | Some k =>
      class_eqb k c ||
      match parent k with
      | None => false
      | Some k' =>
          class_eqb k' c ||
          match parent k' with
          | None => false
          | Some k'' => class_eqb k'' c
          end
      end
  end.

(** A response that reports an error: the marker is absent, the body is a
    JSON object whose [result] is empty and whose [error] object holds
    [code] and [message]. *)
Definition error_response (code : Z) (m : json) : response :=
  {| text := "{...}";
     body := Some (JDict [("result", JNull);
                          ("error", JDict [("code", JNum code);
                                           ("message", m)]);
                          ("id", JNum 0)]) |}.

(** A search reply cut short by the server, with no error reported. *)
Definition truncated_response : response :=
  {| text := "{...}";
     body := Some (JDict [("result", JDict [("count", JNum 100);
                                            ("result", JList []);
                                            ("truncated", JBool true)]);
                          ("error", JNull);
                          ("id", JNum 0)]) |}.

(** [r] gets as far as the code test: no marker in the text, a JSON body,
    nothing truncated, and a true [error] whose [code] is the integer
    [code]. *)
Definition reports (r : response) (err : json) (code : Z) : Prop :=
  str_in kerberos_marker (text r) = false /\
  exists response_obj,
    body r = Some response_obj /\
    check_truncated response_obj = Ok tt /\
    getitem response_obj "error" = Ok err /\
    truthy err = true /\
    getitem err "code" = Ok (JNum code).

(** [r] gets as far as the [error] field and finds a true one. *)
Definition has_error (r : response) (err : json) : Prop :=
  str_in kerberos_marker (text r) = false /\
  exists response_obj,
    body r = Some response_obj /\
    check_truncated response_obj = Ok tt /\
    getitem response_obj "error" = Ok err /\
    truthy err = true.

(** *** The client *)

Definition _API_VERSION : string := "2.28".

(** [requests.post] with the address, headers and certificates of the
    client: the reply of the server to a payload. *)
Definition transport : Type := json -> response.

(** [IPAClient._post] *)
Definition _post (post : transport) (payload : json) : res response :=
  let response := post payload in
  _ <- check_response response ;;
  Ok response.

(** [response.json()] *)
Definition json_of (r : response) : res json :=
  match body r with
  | Some v => Ok v
  | None => Raise ValueError
  end.

(** The characters of a string, each a string of its own. *)
Fixpoint chars (s : string) : list json :=
  match s with
  | EmptyString => []
  | String c s' => JStr (String c EmptyString) :: chars s'
  end.

(** [for x in v]: the elements of a list, the keys of a dict, the
    characters of a string; nothing else can be iterated. *)
Definition iter (v : json) : res (list json) :=
  match v with
  | JList l => Ok l
  | JDict d => Ok (map (fun kv => JStr (fst kv)) d)
  | JStr s => Ok (chars s)
  | _ => Raise TypeError
  end.

(** [d.update(kwargs)] *)
Definition update (d kwargs : list (string * json)) : list (string * json) :=
  fold_left (fun d kv => Dict.set String.eqb (fst kv) (snd kv) d) kwargs d.

(** [[result for hosts in ... for result in hosts['fqdn']]] *)
Fixpoint flat_fqdn (hosts : list json) : res (list json) :=
  match hosts with
  | [] => Ok []
  | host :: rest =>
      fqdn <- getitem host "fqdn" ;;
      results <- iter fqdn ;;
      more <- flat_fqdn rest ;;
      Ok (results ++ more)%list
  end.

(** [IPAClient.get_hosts]; [pattern] is [JNull] for [None]. *)
Definition get_hosts_payload (pattern : json) (kwargs : list (string * json))
    : json :=
  let query :=
    update [("version", JStr _API_VERSION); ("sizelimit", JNum 0)] kwargs in
  JDict [("method", JStr "host_find");
         ("params", JList [JList [pattern]; JDict query]);
         ("id", JNum 0)].

Definition get_hosts (post : transport) (pattern : json)
    (kwargs : list (string * json)) : res (list json) :=
  r <- _post post (get_hosts_payload pattern kwargs) ;;
  resp <- json_of r ;;
  outer <- getitem resp "result" ;;
  hosts <- getitem outer "result" ;;
  hosts <- iter hosts ;;
  flat_fqdn hosts.

(** *** [filter_raw_records] *)

(** Indexing with [[0]] can raise [IndexError], which [exn] does not
    list. *)
Inductive error : Type :=
| Builtin (e : exn)
| IndexError.

Inductive outcome (A : Type) : Type :=
| Return (a : A)
| Throw (e : error).
Arguments Return {A} a.
Arguments Throw {A} e.

Definition and_then {A B : Type} (m : outcome A) (k : A -> outcome B)
    : outcome B :=
  match m with
  | Return a => k a
  | Throw e => Throw e
  end.

Definition lift {A : Type} (m : res A) : outcome A :=
  match m with
  | Ok a => Return a
  | Raise e => Throw (Builtin e)
  end.

Notation "x <~ m ;; k" := (and_then m (fun x => k))
  (at level 61, m at next level, right associativity).

(** [v[0]]: the first element of a list, the first character of a string;
    a JSON object has no key [0]. *)
Definition first (v : json) : outcome json :=
  match v with
  | JList (x :: _) => Return x
  | JList [] => Throw IndexError
  | JStr (String c _) => Return (JStr (String c EmptyString))
  | JStr EmptyString => Throw IndexError
  | JDict _ => Throw (Builtin KeyError)
  | _ => Throw (Builtin TypeError)
  end.

(** [x == s] for a string [s]. *)
Definition is_str (s : string) (x : json) : bool :=
  match x with
  | JStr t => String.eqb s t
  | _ => false
  end.

(** [s in v] for a string [s]: a substring of a string, an element of a
    list, a key of a dict. *)
Definition contained (s : string) (v : json) : outcome bool :=
  match v with
  | JStr t => Return (str_in s t)
  | JList l => Return (existsb (is_str s) l)
  | JDict d => Return (Dict.mem String.eqb s d)
  | _ => Throw (Builtin TypeError)
  end.

(** [record_type in fmt_rec.keys()] *)
Definition has_key (key : string) (v : json) : outcome bool :=
  match v with
  | JDict d => Return (Dict.mem String.eqb key d)
  | _ => Throw (Builtin AttributeError)
  end.

(** The condition of the comprehension. *)
Definition selected (cell_name record_type : string) (fmt_rec : json)
    : outcome bool :=
  names <~ lift (getitem fmt_rec "idnsname") ;;
  name <~ first names ;;
  b <~ contained cell_name name ;;
  if b then has_key record_type fmt_rec else Return false.

(** The comprehension: the records the loop then goes through. *)
Fixpoint select (cell_name record_type : string) (records : list json)
    : outcome (list json) :=
  match records with
  | [] => Return []
  | fmt_rec :: rest =>
      b <~ selected cell_name record_type fmt_rec ;;
      more <~ select cell_name record_type rest ;;
      Return (if b then fmt_rec :: more else more)
  end.

(** The dict appended for one entry. *)
Definition dns_record (record_type : string) (record entry : json)
    : outcome json :=
  dn <~ lift (getitem record "dn") ;;
  names <~ lift (getitem record "idnsname") ;;
  name <~ first names ;;
  Return (JDict [("type", JStr record_type); ("dn", dn);
                 ("idnsname", name); ("record", entry)]).

Fixpoint dns_records_of (record_type : string) (record : json)
    (entries : list json) : outcome (list json) :=
  match entries with
  | [] => Return []
  | entry :: rest =>
      d <~ dns_record record_type record entry ;;
      more <~ dns_records_of record_type record rest ;;
      Return (d :: more)
  end.

(** The body of the loop for one record: what it appends. *)
Definition appended (record_type : string) (record : json)
    : outcome (list json) :=
  v <~ lift (getitem record record_type) ;;
  match v with
  | JList entries => dns_records_of record_type record entries
  | _ => dns_records_of record_type record [v]
  end.

Fixpoint collect (record_type : string) (records : list json)
    (dns_records : list json) : outcome (list json) :=
  match records with
  | [] => Return dns_records
  | record :: rest =>
      new <~ appended record_type record ;;
      collect record_type rest (dns_records ++ new)%list
  end.

Definition filter_raw_records (cell_name : string) (raw_records : json)
    (record_type : string) : outcome (list json) :=
  outer <~ lift (getitem raw_records "result") ;;
  inner <~ lift (getitem outer "result") ;;
  records <~ lift (iter inner) ;;
  records <~ select cell_name record_type records ;;
  collect record_type records [].

(** A record of a dump as the directory exports it: an object whose
    [idnsname] is a list headed by a string and which has a [dn]. *)
Record export : Type := {
  ex_name : string;
  ex_names : list json;
  ex_dn : json;
  ex_fields : list (string * json)
}.

Definition export_fields (x : export) : list (string * json) :=
  ("idnsname", JList (JStr (ex_name x) :: ex_names x))
    :: ("dn", ex_dn x) :: ex_fields x.

Definition export_record (x : export) : json := JDict (export_fields x).

(** The dict [filter_raw_records] makes of one entry of such a record. *)
Definition entry_of (record_type : string) (x : export) (entry : json)
    : json :=
  JDict [("type", JStr record_type); ("dn", ex_dn x);
         ("idnsname", JStr (ex_name x)); ("record", entry)].

(** What [filter_raw_records] should make of one such record. *)
Definition expected_of (cell_name record_type : string) (x : export)
    : list json :=
  if str_in cell_name (ex_name x) then
    match Dict.get String.eqb record_type (export_fields x) with
    | Some (JList entries) => map (entry_of record_type x) entries
    | Some v => [entry_of record_type x v]
    | None => []
    end
  else [].

(** A dump: [{'result': {'result': records, ...}, ...}]. *)
Definition is_dump (raw_records : json) (records : list json) : Prop :=
  exists outer,
    getitem raw_records "result" = Ok outer /\
    getitem outer "result" = Ok (JList records).

(** Sample replies and dumps. *)
Definition hosts_reply : response :=
  {| text := "{...}";
     body := Some (JDict [("result",
                     JDict [("count", JNum 2);
                            ("result",
                             JList [JDict [("fqdn", JList [JStr "a.x.com"])];
                                    JDict [("fqdn", JList [JStr "b.x.com";
                                                           JStr "b"])]]);
                            ("truncated", JBool false)]);
                          ("error", JNull);
                          ("id", JNum 0)]) |}.

Definition sample_exports : list export :=
  [ {| ex_name := "_ssh._tcp.cell1"; ex_names := [];
       ex_dn := JStr "idnsname=_ssh._tcp.cell1,cn=dns";
       ex_fields := [("srvrecord", JList [JStr "0 0 22 h1."; JStr "0 0 22 h2."])] |};
    {| ex_name := "cell1"; ex_names := [];
       ex_dn := JStr "idnsname=cell1,cn=dns";
       ex_fields := [("txtrecord", JStr "v=1")] |};
    {| ex_name := "_ssh._tcp.cell2"; ex_names := [];
       ex_dn := JStr "idnsname=_ssh._tcp.cell2,cn=dns";
       ex_fields := [("srvrecord", JStr "0 0 22 h3.")] |} ].

Definition sample_dump : json :=
  JDict [("result", JDict [("count", JNum 3);
                           ("result", JList (map export_record sample_exports))]);
         ("error", JNull)].

End IPAClient.

(** * Properties *)

(** ** Strings *)

Lemma prefix_app (s b : string) : String.prefix s (s ++ b) = true.
Proof.
  induction s as [|c s IH]; simpl.
  - destruct b; reflexivity.
  - destruct (ascii_dec c c) as [_|n]; [exact IH | now elim n].
Qed.

Lemma prefix_split (s t : string) :
  String.prefix s t = true -> exists b, t = s ++ b.
Proof.
  revert t; induction s as [|c s IH]; intros t H.
  - exists t; reflexivity.
  - destruct t as [|c' t]; simpl in H; [discriminate|].
    destruct (ascii_dec c c') as [->|_]; [|discriminate].
    destruct (IH _ H) as [b ->]. exists b; reflexivity.
Qed.

(** [str_in] is the substring test. *)
Lemma str_in_spec (s t : string) :
  str_in s t = true <-> exists a b, t = a ++ s ++ b.
Proof.
  split.
  - induction t as [|c t IH]; cbn [str_in]; intros H.
    + rewrite orb_false_r in H. destruct (prefix_split _ _ H) as [b ->].
      exists EmptyString, b; reflexivity.
    + apply orb_true_iff in H as [H|H].
      * destruct (prefix_split _ _ H) as [b ->].
        exists EmptyString, b; reflexivity.
      * destruct (IH H) as (a & b & ->). exists (String c a), b; reflexivity.
  - intros (a & b & ->). induction a as [|c a IH].
    + change (EmptyString ++ s ++ b) with (s ++ b).
      destruct (s ++ b) eqn:E; cbn [str_in]; rewrite <- E, prefix_app;
        reflexivity.
    + change (String c a ++ s ++ b) with (String c (a ++ s ++ b)).
      cbn [str_in]. rewrite IH. apply orb_true_r.
Qed.

(** ** Dictionaries whose key test is equality *)

Section DictFacts.
Context {K V : Type}.
Variable eqb : K -> K -> bool.
Hypothesis eqb_eq : forall a b, eqb a b = true <-> a = b.

Lemma eqb_same (a : K) : eqb a a = true.
Proof. now apply eqb_eq. Qed.

Lemma get_set (k k' : K) (v : V) (d : list (K * V)) :
  Dict.get eqb k' (Dict.set eqb k v d)
  = if eqb k' k then Some v else Dict.get eqb k' d.
Proof.
  induction d as [|[k1 v1] d IH]; cbn [Dict.set Dict.get]; [reflexivity|].
  destruct (eqb k k1) eqn:E1; cbn [Dict.get].
  - apply eqb_eq in E1; subst k1. now destruct (eqb k' k).
  - rewrite IH. destruct (eqb k' k1) eqn:E2; [|reflexivity].
    apply eqb_eq in E2; subst k1.
    destruct (eqb k' k) eqn:E3; [|reflexivity].
    apply eqb_eq in E3; subst k'. rewrite eqb_same in E1. discriminate.
Qed.

Lemma get_some_in (k : K) (v : V) (d : list (K * V)) :
  Dict.get eqb k d = Some v -> In (k, v) d.
Proof.
  induction d as [|[k1 v1] d IH]; cbn [Dict.get]; [discriminate|].
  destruct (eqb k k1) eqn:E.
  - apply eqb_eq in E; subst. intros H; inversion H; now left.
  - intros H; right; auto.
Qed.

Lemma get_none_iff (k : K) (d : list (K * V)) :
  Dict.get eqb k d = None <-> ~ In k (Dict.keys d).
Proof.
  unfold Dict.keys.
  induction d as [|[k1 v1] d IH]; cbn [Dict.get map In fst]; [tauto|].
  destruct (eqb k k1) eqn:E.
  - apply eqb_eq in E. split; [discriminate | intros H; exfalso; auto].
  - rewrite IH. split; [|tauto]. intros H [->|H']; [|tauto].
    rewrite eqb_same in E. discriminate.
Qed.

Lemma in_get (k : K) (v : V) (d : list (K * V)) :
  NoDup (Dict.keys d) -> In (k, v) d -> Dict.get eqb k d = Some v.
Proof.
  unfold Dict.keys.
  induction d as [|[k1 v1] d IH]; cbn [Dict.get map In fst]; [easy|].
  intros Hnd [H|H].
  - inversion H; subst. now rewrite eqb_same.
  - inversion Hnd; subst. destruct (eqb k k1) eqn:E; [|auto].
    apply eqb_eq in E; subst k1. exfalso. apply H2.
    apply in_map_iff. now exists (k, v).
Qed.

Lemma in_keys (k : K) (v : V) (d : list (K * V)) :
  In (k, v) d -> In k (Dict.keys d).
Proof. intros H. apply in_map_iff. now exists (k, v). Qed.

Lemma keys_in (k : K) (d : list (K * V)) :
  In k (Dict.keys d) -> exists v, In (k, v) d.
Proof. intros H. apply in_map_iff in H as ([k' v] & <- & H). now exists v. Qed.

Lemma keys_set (k : K) (v : V) (d : list (K * V)) :
  Dict.keys (Dict.set eqb k v d)
  = if Dict.mem eqb k d then Dict.keys d else (Dict.keys d ++ [k])%list.
Proof.
  unfold Dict.mem, Dict.keys.
  induction d as [|[k1 v1] d IH]; cbn [Dict.set Dict.get map fst app];
    [reflexivity|].
  destruct (eqb k k1) eqn:E; cbn [map fst]; [reflexivity|].
  rewrite IH. now destruct (Dict.get eqb k d).
Qed.

Lemma in_keys_set (k k' : K) (v : V) (d : list (K * V)) :
  In k' (Dict.keys (Dict.set eqb k v d)) <-> k' = k \/ In k' (Dict.keys d).
Proof.
  rewrite keys_set. unfold Dict.mem.
  destruct (Dict.get eqb k d) as [v0|] eqn:E.
  - split; [tauto|]. intros [->|H]; [|exact H].
    eapply in_keys, get_some_in; eassumption.
  - rewrite in_app_iff. cbn [In]. split; [intros [H|[H|[]]]; auto | ].
    intros [H|H]; auto.
Qed.

Lemma nodup_set (k : K) (v : V) (d : list (K * V)) :
  NoDup (Dict.keys d) -> NoDup (Dict.keys (Dict.set eqb k v d)).
Proof.
  intros H. rewrite keys_set. unfold Dict.mem.
  destruct (Dict.get eqb k d) eqn:E; [exact H|].
  apply get_none_iff in E. apply NoDup_app; [exact H | | ].
  - repeat constructor. intros [].
  - intros x Hx [<-|[]]. now apply E.
Qed.

Lemma in_set (k k' : K) (v v' : V) (d : list (K * V)) :
  NoDup (Dict.keys d) ->
  In (k', v') (Dict.set eqb k v d) <->
  (k' = k /\ v' = v) \/ (k' <> k /\ In (k', v') d).
Proof.
  intros Hnd. split.
  - intros H. apply (in_get _ _ _ (nodup_set k v d Hnd)) in H.
    rewrite get_set in H. destruct (eqb k' k) eqn:E.
    + apply eqb_eq in E. inversion H; auto.
    + right. split; [|now apply get_some_in].
      intros ->. rewrite eqb_same in E. discriminate.
  - intros [[-> ->]|[Hne H]]; apply get_some_in; rewrite get_set.
    + now rewrite eqb_same.
    + destruct (eqb k' k) eqn:E; [apply eqb_eq in E; contradiction|].
      now apply in_get.
Qed.

Lemma fold_set_spec (ks : list K) (v : V) (d : list (K * V)) :
  NoDup (Dict.keys d) ->
  let d' := fold_left (fun d k => Dict.set eqb k v d) ks d in
  NoDup (Dict.keys d') /\
  (forall k, In k (Dict.keys d') <-> In k ks \/ In k (Dict.keys d)) /\
  (forall k v', In (k, v') d' ->
                (In k ks /\ v' = v) \/ (~ In k ks /\ In (k, v') d)).
Proof.
  revert d; induction ks as [|k0 ks IH]; intros d Hnd; cbn [fold_left].
  - split; [exact Hnd|]. split; [intros k; cbn; tauto|].
    intros k v' H; right; split; auto.
  - destruct (IH (Dict.set eqb k0 v d) (nodup_set k0 v d Hnd))
      as (H1 & H2 & H3).
    split; [exact H1|]. split.
    + intros k. rewrite H2, in_keys_set. cbn [In]. intuition.
    + intros k v' H. destruct (H3 _ _ H) as [[Hin ->]|[Hnin Hin]].
      * left; split; [now right | reflexivity].
      * apply (in_set _ _ _ _ _ Hnd) in Hin as [[-> ->]|[Hne Hin]].
        -- left; split; [now left | reflexivity].
        -- right; split; [|exact Hin]. intros [E|E]; [now subst | tauto].
Qed.

Lemma fromkeys_spec (ks : list K) (v : V) :
  NoDup (Dict.keys (Dict.fromkeys eqb ks v)) /\
  (forall k, In k (Dict.keys (Dict.fromkeys eqb ks v)) <-> In k ks) /\
  (forall k v', In (k, v') (Dict.fromkeys eqb ks v) -> In k ks /\ v' = v).
Proof.
  destruct (fold_set_spec ks v [] (NoDup_nil _)) as (H1 & H2 & H3).
  split; [exact H1|]. split.
  - intros k. rewrite (H2 k). cbn. tauto.
  - intros k v' H. destruct (H3 _ _ H) as [?|[_ []]]. assumption.
Qed.

End DictFacts.

(** ** Dictionaries whose key test is an equivalence *)

Section DictEquiv.
Context {K V : Type}.
Variable eqb : K -> K -> bool.
Hypothesis eqb_sym : forall a b, eqb a b = eqb b a.
Hypothesis eqb_trans :
  forall a b c, eqb a b = true -> eqb b c = true -> eqb a c = true.

Lemma eqb_compat (a b c : K) : eqb a b = true -> eqb a c = eqb b c.
Proof.
  intros H. destruct (eqb b c) eqn:E.
  - eapply eqb_trans; eassumption.
  - destruct (eqb a c) eqn:E'; [|reflexivity].
    rewrite eqb_sym in H. rewrite <- E. symmetry. eapply eqb_trans; eassumption.
Qed.

Lemma get_equiv (k k' : K) (d : list (K * V)) :
  eqb k k' = true -> Dict.get eqb k d = Dict.get eqb k' d.
Proof.
  intros H. induction d as [|[k1 v1] d IH]; cbn [Dict.get]; [reflexivity|].
  now rewrite (eqb_compat _ _ k1 H), IH.
Qed.

Lemma get_set_equiv (k k' : K) (v : V) (d : list (K * V)) :
  Dict.get eqb k' (Dict.set eqb k v d)
  = if eqb k' k then Some v else Dict.get eqb k' d.
Proof.
  induction d as [|[k1 v1] d IH]; cbn [Dict.set Dict.get]; [reflexivity|].
  destruct (eqb k k1) eqn:E1; cbn [Dict.get].
  - rewrite (eqb_sym k' k), (eqb_compat _ _ k' E1), (eqb_sym k1 k').
    now destruct (eqb k' k1).
  - rewrite IH. destruct (eqb k' k1) eqn:E2; [|reflexivity].
    rewrite (eqb_compat _ _ k E2), (eqb_sym k1 k), E1. reflexivity.
Qed.

Lemma get_none_equiv (k : K) (d : list (K * V)) :
  Dict.get eqb k d = None <->
  forall k', In k' (Dict.keys d) -> eqb k k' = false.
Proof.
  unfold Dict.keys.
  induction d as [|[k1 v1] d IH]; cbn [Dict.get map In fst].
  - split; [intros _ k' [] | reflexivity].
  - destruct (eqb k k1) eqn:E.
    + split; [discriminate|]. intros H. rewrite (H k1) in E; [discriminate|].
      now left.
    + rewrite IH. split.
      * intros H k' [<-|Hk']; auto.
      * intros H k' Hk'. apply H. now right.
Qed.

End DictEquiv.

(** Changing the values of a [dict] by a function leaves its keys and
    their places alone. *)
Section DictMap.
Context {K V W : Type}.
Variable eqb : K -> K -> bool.
Variable f : V -> W.

Lemma get_map_values (k : K) (d : list (K * V)) :
  Dict.get eqb k (map (fun kv => (fst kv, f (snd kv))) d)
  = option_map f (Dict.get eqb k d).
Proof.
  induction d as [|[k1 v1] d IH]; cbn [map Dict.get fst snd]; [reflexivity|].
  destruct (eqb k k1); [reflexivity | exact IH].
Qed.

Lemma set_map_values (k : K) (v : V) (d : list (K * V)) :
  Dict.set eqb k (f v) (map (fun kv => (fst kv, f (snd kv))) d)
  = map (fun kv => (fst kv, f (snd kv))) (Dict.set eqb k v d).
Proof.
  induction d as [|[k1 v1] d IH]; cbn [map Dict.set fst snd]; [reflexivity|].
  destruct (eqb k k1); cbn [map fst snd]; [reflexivity | now rewrite IH].
Qed.

Lemma fromkeys_map_values (ks : list K) (v : V) :
  Dict.fromkeys eqb ks (f v)
  = map (fun kv => (fst kv, f (snd kv))) (Dict.fromkeys eqb ks v).
Proof.
  unfold Dict.fromkeys.
  change (@nil (K * W)) with (map (fun kv : K * V => (fst kv, f (snd kv))) []).
  generalize (@nil (K * V)) as d.
  induction ks as [|k ks IH]; intros d; cbn [fold_left]; [reflexivity|].
  now rewrite set_map_values, IH.
Qed.

Lemma in_map_values (k : K) (w : W) (d : list (K * V)) :
  In (k, w) (map (fun kv => (fst kv, f (snd kv))) d) ->
  exists v, In (k, v) d /\ w = f v.
Proof.
  intros H. apply in_map_iff in H as ([k1 v1] & E & H).
  cbn [fst snd] in E. inversion E; subst. now exists v1.
Qed.

End DictMap.

(** ** The response checker *)

Module IPAProps.
Import IPAClient.

(** C7: a response whose text contains the credential-failure marker
    raises [AuthenticationError] whatever [json()] would give, also when
    the body is not JSON at all. *)
Theorem marker_raises_authentication (a b : string) (parsed : option json) :
  check_response {| text := a ++ kerberos_marker ++ b; body := parsed |}
  = Raise (AuthenticationError (JStr "Invalid Kerberos Credentials")).
Proof.
  unfold check_response. cbn [text].
  replace (str_in kerberos_marker (a ++ kerberos_marker ++ b)) with true.
  - reflexivity.
  - symmetry. apply str_in_spec. now exists a, b.
Qed.

Lemma between_num (lo hi n : Z) :
  between lo (JNum n) hi = Ok ((lo <=? n) && (n <=? hi)).
Proof. reflexivity. Qed.

(** Decides the comparisons of the goal one after the other, dropping the
    cases the hypotheses exclude. *)
Ltac decide_bands :=
  repeat match goal with
         | |- context [?a <=? ?b] => destruct (Z.leb_spec a b); try lia
         | |- context [?a =? ?b] => destruct (Z.eqb_spec a b); try lia
         end;
  cbn [andb]; try reflexivity.

Lemma check_response_reports (r : response) (err : json) (code : Z) :
  reports r err code -> check_response r = raise_for err.
Proof.
  intros (Hm & obj & Hb & Ht & He & Hy & _).
  unfold check_response. rewrite Hm, Hb, Ht. cbn [bind].
  rewrite He. cbn [bind]. rewrite Hy. reflexivity.
Qed.

(** C5: a reported integer code raises the error of its band, 4001 and
    4002 before the 4000-4999 band, and the base error with the text
    "Unknown error." outside 1000-5999. *)
Theorem code_bands (r : response) (err m : json) (code : Z) :
  reports r err code ->
  getitem err "message" = Ok m ->
  (1000 <= code <= 1999 -> check_response r = Raise (AuthenticationError m)) /\
  (2000 <= code <= 2999 -> check_response r = Raise (AuthorizationError m)) /\
  (3000 <= code <= 3999 -> check_response r = Raise (InvocationError m)) /\
  (code = 4001 -> check_response r = Raise (NotFoundError m)) /\
  (code = 4002 -> check_response r = Raise (AlreadyExistsError m)) /\
  (4000 <= code <= 4999 -> code <> 4001 -> code <> 4002 ->
   check_response r = Raise (ExecutionError m)) /\
  (5000 <= code <= 5999 -> check_response r = Raise (GenericError m)) /\
  (code < 1000 \/ 5999 < code ->
   check_response r = Raise (IPAError (JStr "Unknown error."))).
Proof.
  intros Hr Hmsg. rewrite (check_response_reports _ _ _ Hr).
  destruct Hr as (_ & obj & _ & _ & _ & _ & Hc).
  unfold raise_for. rewrite Hc. cbn [bind]. rewrite !between_num.
  cbn [bind equals]. rewrite Hmsg. cbn [bind].
  repeat split; intros; decide_bands.
Qed.

Lemma code_bands_witness :
  reports (error_response 4001 (JStr "host not found"))
    (JDict [("code", JNum 4001); ("message", JStr "host not found")]) 4001 /\
  check_response (error_response 4001 (JStr "host not found"))
  = Raise (NotFoundError (JStr "host not found")).
Proof.
  assert (H : reports (error_response 4001 (JStr "host not found"))
    (JDict [("code", JNum 4001); ("message", JStr "host not found")]) 4001).
  { split; [reflexivity|]. eexists. repeat split; reflexivity. }
  split; [exact H|].
  apply (code_bands _ _ (JStr "host not found") 4001 H eq_refl).
  reflexivity.
Defined.

(** C8, as the code has it: a true [truncated] entry in a true [result]
    raises the base [IPAError] with the text "IPA results truncated.",
    before the [error] field is looked at; that exception is not a
    [GenericError]. *)
Theorem truncated_raises_base_error (r : response) (response_obj res t : json) :
  str_in kerberos_marker (text r) = false ->
  body r = Some response_obj ->
  getitem response_obj "result" = Ok res ->
  truthy res = true ->
  get res "truncated" (JBool false) = Ok t ->
  truthy t = true ->
  check_response r = Raise (IPAError (JStr "IPA results truncated.")) /\
  isinstance (IPAError (JStr "IPA results truncated.")) CGeneric = false.
Proof.
  intros Hm Hb Hres Hy Ht Hty. split; [|reflexivity].
  unfold check_response, check_truncated. rewrite Hm, Hb, Hres. cbn [bind].
  rewrite Hy, Ht. cbn [bind]. rewrite Hty. reflexivity.
Qed.

Lemma truncated_raises_base_error_witness :
  check_response truncated_response
  = Raise (IPAError (JStr "IPA results truncated.")) /\
  isinstance (IPAError (JStr "IPA results truncated.")) CGeneric = false.
Proof.
  apply (truncated_raises_base_error truncated_response
           (JDict [("result", JDict [("count", JNum 100);
                                     ("result", JList []);
                                     ("truncated", JBool true)]);
                   ("error", JNull); ("id", JNum 0)])
           (JDict [("count", JNum 100); ("result", JList []);
                   ("truncated", JBool true)])
           (JBool true)); reflexivity.
Defined.

(** C8 as stated fails: the truncated reply without an error raises an
    exception that no [except GenericError] would catch. *)
Lemma truncated_not_generic :
  ~ exists e, check_response truncated_response = Raise e /\
              isinstance e CGeneric = true.
Proof.
  intros (e & He & Hg). vm_compute in He. inversion He; subst e.
  vm_compute in Hg. discriminate.
Qed.

End IPAProps.

(** ** The allocation planner *)

Module SpotProps.
Import Spot.

(** *** The core-count table *)

Lemma table_positive (size : string) (c : Z) :
  Dict.get String.eqb size _CORES = Some c -> 0 < c.
Proof.
  unfold _CORES. cbn [Dict.get].
  repeat match goal with
         | |- context [String.eqb size ?k] => destruct (String.eqb size k)
         end;
  intros H; inversion H; lia.
Qed.

Lemma cores_of_pos (t : string) (c : Z) : cores_of t = Ok c -> 0 < c.
Proof.
  unfold cores_of.
  destruct (Dict.get String.eqb (pop (split_dot t)) _CORES) eqn:E;
    intros H; inversion H; subst.
  eapply table_positive; eassumption.
Qed.

Lemma unit_cores_ok (t : string) (c : Z) : cores_of t = Ok c -> unit_cores t = c.
Proof. unfold unit_cores. now intros ->. Qed.

(** *** The shares *)

Lemma cores_list_spec (T : list string) (cs : list Z) :
  cores_list T = Ok cs -> Forall2 (fun t c => cores_of t = Ok c) T cs.
Proof.
  revert cs; induction T as [|t T IH]; cbn [cores_list]; intros cs H.
  - inversion H; constructor.
  - destruct (cores_of t) as [c|] eqn:Ec; cbn [bind] in H; [|discriminate].
    destruct (cores_list T) as [cs'|]; cbn [bind] in H; [|discriminate].
    inversion H; subst. constructor; auto.
Qed.

Lemma cores_list_total (T : list string) :
  (forall t, In t T -> is_ok (cores_of t) = true) ->
  exists cs, cores_list T = Ok cs.
Proof.
  induction T as [|t T IH]; intros H; cbn [cores_list].
  - now exists [].
  - assert (Ht := H t (or_introl eq_refl)).
    destruct (cores_of t) as [c|]; [|discriminate]. cbn [bind].
    destruct IH as [cs ->]; [intros; apply H; now right|].
    now exists (c :: cs).
Qed.

Lemma fold_min_le (l : list Z) (x : Z) :
  fold_left Z.min l x <= x /\ Forall (fun y => fold_left Z.min l x <= y) l.
Proof.
  revert x; induction l as [|y l IH]; intros x; cbn [fold_left].
  - split; [lia | constructor].
  - destruct (IH (Z.min x y)) as [H1 H2]. split; [lia|].
    constructor; [lia | exact H2].
Qed.

Lemma fold_min_in (l : list Z) (x : Z) : In (fold_left Z.min l x) (x :: l).
Proof.
  revert x; induction l as [|y l IH]; intros x; cbn [fold_left].
  - now left.
  - destruct (IH (Z.min x y)) as [H|H].
    + destruct (Z.min_spec x y) as [[_ E]|[_ E]].
      * left. rewrite <- H. lia.
      * right; left. rewrite <- H. lia.
    + right; right; exact H.
Qed.

Lemma Forall2_in_r {A B : Type} (R : A -> B -> Prop) (l : list A)
    (l' : list B) (b : B) :
  Forall2 R l l' -> In b l' -> exists a, In a l /\ R a b.
Proof.
  induction 1 as [|a b' l l' Hab _ IH]; intros Hin; [easy|].
  destruct Hin as [->|Hin].
  - exists a; split; [now left | exact Hab].
  - destruct (IH Hin) as (a' & ? & ?). exists a'; split; [now right | easy].
Qed.

Lemma Forall2_in_l {A B : Type} (R : A -> B -> Prop) (l : list A)
    (l' : list B) (a : A) :
  Forall2 R l l' -> In a l -> exists b, In b l' /\ R a b.
Proof.
  induction 1 as [|a' b l l' Hab _ IH]; intros Hin; [easy|].
  destruct Hin as [->|Hin].
  - exists b; split; [now left | exact Hab].
  - destruct (IH Hin) as (b' & ? & ?). exists b'; split; [now right | easy].
Qed.

(** What [plan_shares] returns, whenever it returns. *)
Lemma plan_shares_spec (cores : Z) (T : list string) (m : Z) (sh : shares) :
  plan_shares cores T m = Ok sh ->
  (exists t, In t T /\ cores_of t = Ok (smallest sh)) /\
  (forall t, In t T -> exists c, cores_of t = Ok c /\ smallest sh <= c) /\
  smallest sh * m <> 0 /\
  cores_per_az sh = cores / (smallest sh * m) * smallest sh /\
  spare_cores0 sh = cores mod (smallest sh * m).
Proof.
  unfold plan_shares. intros H.
  destruct (cores_list T) as [cs|] eqn:Ecs; cbn [bind] in H; [|discriminate].
  apply cores_list_spec in Ecs.
  destruct cs as [|x cs]; cbn [py_min bind] in H; [discriminate|].
  unfold py_divmod in H.
  destruct (Z.eqb_spec (fold_left Z.min cs x * m) 0) as [|Hnz];
    cbn [bind] in H; [discriminate|].
  inversion H; subst sh; clear H. cbn [smallest cores_per_az spare_cores0].
  destruct (fold_min_le cs x) as [Hx Hall].
  repeat split; auto.
  - destruct (Forall2_in_r _ _ _ _ Ecs (fold_min_in cs x)) as (t & ? & ?).
    now exists t.
  - intros t Ht. destruct (Forall2_in_l _ _ _ _ Ecs Ht) as (c & Hc & ?).
    exists c; split; [easy|]. destruct Hc as [<-|Hc]; [exact Hx|].
    rewrite Forall_forall in Hall. now apply Hall.
Qed.

Lemma plan_shares_total (cores : Z) (T : list string) (m : Z) :
  T <> [] -> (forall t, In t T -> is_ok (cores_of t) = true) -> m <> 0 ->
  exists sh, plan_shares cores T m = Ok sh.
Proof.
  intros Hne Hok Hm. unfold plan_shares.
  destruct (cores_list_total T Hok) as [cs Ecs]. rewrite Ecs. cbn [bind].
  pose proof (cores_list_spec _ _ Ecs) as HF.
  destruct cs as [|x cs].
  - inversion HF; subst; contradiction.
  - cbn [py_min bind]. unfold py_divmod.
    destruct (Forall2_in_r _ _ _ _ HF (fold_min_in cs x)) as (t & _ & Ht).
    apply cores_of_pos in Ht.
    destruct (Z.eqb_spec (fold_left Z.min cs x * m) 0) as [E|_]; [nia|].
    cbn [bind]. eexists; reflexivity.
Qed.

(** C4: for a non-empty list of candidate types of known size and a
    non-zero zone target, [get_cheap_cores] derives [smallest], the least
    core count over all the candidate types, splits the request with
    [divmod(cores, smallest * min_azs)] and takes [base * smallest] as the
    per-zone share. *)
Theorem shares_are_divmod (cores : Z) (T : list string) (m : Z) :
  T <> [] -> (forall t, In t T -> is_ok (cores_of t) = true) -> m <> 0 ->
  exists sh base remainder,
    plan_shares cores T m = Ok sh /\
    (exists t, In t T /\ cores_of t = Ok (smallest sh)) /\
    (forall t, In t T -> exists c, cores_of t = Ok c /\ smallest sh <= c) /\
    base = cores / (smallest sh * m) /\
    remainder = cores mod (smallest sh * m) /\
    cores = base * (smallest sh * m) + remainder /\
    cores_per_az sh = base * smallest sh /\
    spare_cores0 sh = remainder.
Proof.
  intros Hne Hok Hm.
  destruct (plan_shares_total cores T m Hne Hok Hm) as [sh Hsh].
  destruct (plan_shares_spec _ _ _ _ Hsh) as (H1 & H2 & H3 & H4 & H5).
  exists sh, (cores / (smallest sh * m)), (cores mod (smallest sh * m)).
  repeat split; auto.
  rewrite Z.mul_comm. apply Z.div_mod. exact H3.
Qed.

Lemma shares_are_divmod_witness :
  exists sh base remainder,
    plan_shares 100 ["m5.large"; "m5.xlarge"] 3 = Ok sh /\
    (exists t, In t ["m5.large"; "m5.xlarge"] /\ cores_of t = Ok (smallest sh)) /\
    (forall t, In t ["m5.large"; "m5.xlarge"] ->
               exists c, cores_of t = Ok c /\ smallest sh <= c) /\
    base = 100 / (smallest sh * 3) /\
    remainder = 100 mod (smallest sh * 3) /\
    100 = base * (smallest sh * 3) + remainder /\
    cores_per_az sh = base * smallest sh /\
    spare_cores0 sh = remainder.
Proof.
  apply (shares_are_divmod 100 ["m5.large"; "m5.xlarge"] 3).
  - discriminate.
  - intros t [<-|[<-|[]]]; reflexivity.
  - lia.
Defined.

(** *** The zone test *)

Lemma az_in_keys_spec (az : string) (result : plan) :
  az_in_keys az result = true <->
  exists k n a b, In (k, n) result /\ choice_key k = a ++ az ++ b.
Proof.
  unfold az_in_keys, Dict.keys. rewrite existsb_exists. split.
  - intros (k & Hk & Hs). apply in_map_iff in Hk as ([k' n] & <- & Hin).
    apply str_in_spec in Hs as (a & b & E). now exists k', n, a, b.
  - intros (k & n & a & b & Hin & E). exists k. split.
    + apply in_map_iff. now exists (k, n).
    + apply str_in_spec. now exists a, b.
Qed.

(** C10: a zone counts as chosen when its name occurs anywhere inside a
    key of the plan.  With the zones "us-east-1" and "us-east-1a" both
    priced and two zones asked for, the plan holds the cheaper
    "us-east-1a" alone: "us-east-1" has a quote and no entry, and is
    skipped all the same. *)
Theorem zone_test_is_substring :
  (forall az result,
     az_in_keys az result = true <->
     exists k n a b, In (k, n) result /\ choice_key k = a ++ az ++ b) /\
  exists (azs : list string) (min_azs : Z) (p : pricing) (row : price_row)
         (q : quote) (chosen : plan),
    azs = ["us-east-1"; "us-east-1a"] /\ min_azs = 2 /\
    get_pricing prefix_ec2 ["m5.large"] azs = Ok p /\
    In ("us-east-1", row) p /\ In ("m5.large", Some q) row /\
    get_cheap_cores prefix_ec2 8 ["m5.large"] azs min_azs = Ok chosen /\
    plan_dict chosen = [("us-east-1a|m5.large", 2)] /\
    ~ In "us-east-1" (map zone_of chosen) /\
    az_in_keys "us-east-1" chosen = true /\
    Z.of_nat (length chosen) < Z.min min_azs (Z.of_nat (length azs)).
Proof.
  split; [exact az_in_keys_spec|].
  eexists _, _, _, _, _, _.
  split; [reflexivity|]. split; [reflexivity|].
  split; [vm_compute; reflexivity|].
  split; [left; reflexivity|].
  split; [left; reflexivity|].
  split; [vm_compute; reflexivity|].
  split; [reflexivity|].
  split; [|split; [reflexivity | reflexivity]].
  cbn. intros [H|[]]. discriminate.
Qed.

(** *** One iteration of the walk *)

Lemma key_contains_zone (az it : string) : str_in az (choice_key (az, it)) = true.
Proof. apply str_in_spec. exists EmptyString, ("|" ++ it). reflexivity. Qed.

Local Open Scope list_scope.

Lemma same_key_refl (ch : choice) : same_key ch ch = true.
Proof. apply String.eqb_refl. Qed.

Lemma fresh_key (az it : string) (r : plan) :
  az_in_keys az r = false -> Dict.get same_key (az, it) r = None.
Proof.
  unfold az_in_keys, Dict.keys.
  induction r as [|[k n] r IH]; cbn [map existsb Dict.get fst]; [easy|].
  intros H. apply orb_false_iff in H as [Hk Hr].
  destruct (same_key (az, it) k) eqn:E; [|auto].
  apply String.eqb_eq in E. rewrite <- E, key_contains_zone in Hk.
  discriminate.
Qed.

Lemma set_fresh {V : Type} (ch : choice) (v : V) (r : list (choice * V)) :
  Dict.get same_key ch r = None -> Dict.set same_key ch v r = (r ++ [(ch, v)])%list.
Proof.
  induction r as [|[k n] r IH]; cbn [Dict.get Dict.set app]; [easy|].
  destruct (same_key ch k); [discriminate|]. intros H. now rewrite IH.
Qed.

Lemma get_last (ch : choice) (n : Z) (r : plan) :
  Dict.get same_key ch r = None ->
  Dict.get same_key ch (r ++ [(ch, n)]) = Some n.
Proof.
  induction r as [|[k n'] r IH]; cbn [Dict.get app].
  - now rewrite same_key_refl.
  - destruct (same_key ch k); [discriminate | exact IH].
Qed.

Lemma set_last (ch : choice) (n v : Z) (r : plan) :
  Dict.get same_key ch r = None ->
  Dict.set same_key ch v (r ++ [(ch, n)]) = (r ++ [(ch, v)])%list.
Proof.
  induction r as [|[k n'] r IH]; cbn [Dict.get Dict.set app].
  - now rewrite same_key_refl.
  - destruct (same_key ch k); [discriminate|]. intros H. now rewrite IH.
Qed.

Lemma incr_last (ch : choice) (n : Z) (r : plan) :
  Dict.get same_key ch r = None ->
  incr ch (r ++ [(ch, n)]) = (r ++ [(ch, n + 1)])%list.
Proof.
  intros H. unfold incr. rewrite (get_last _ _ _ H). now apply set_last.
Qed.

(** The [while] loop leaves less than one unit in the pool, given fuel
    for every unit the pool can pay. *)
Lemma take_units_spec (c : Z) (ch : choice) (r : plan) :
  0 < c -> Dict.get same_key ch r = None ->
  forall (fuel : nat) (l0 n0 : Z),
    l0 <= Z.of_nat fuel ->
    exists n l',
      take_units fuel c ch l0 (r ++ [(ch, n0)]) = (l', (r ++ [(ch, n0 + n)])%list) /\
      0 <= n /\ l0 = l' + n * c /\ l' < c /\ (0 < n -> 0 <= l').
Proof.
  intros Hc Hfresh. induction fuel as [|fuel IH]; intros l0 n0 Hl.
  - exists 0, l0. cbn [take_units]. rewrite Z.add_0_r.
    repeat split; lia.
  - cbn [take_units]. destruct (Z.leb_spec c l0) as [Hle|Hlt].
    + rewrite (incr_last _ _ _ Hfresh).
      destruct (IH (l0 - c) (n0 + 1)) as (n & l' & E & Hn & Hsum & Hl' & Hpos);
        [lia|].
      exists (n + 1), l'. rewrite E.
      replace (n0 + 1 + n) with (n0 + (n + 1)) by lia.
      repeat split; lia.
    + exists 0, l0. rewrite Z.add_0_r. repeat split; lia.
Qed.

Lemma walk_skip (m cpz : Z) (az it : string) (rest : list choice)
    (st : walk_state) :
  az_in_keys az (result st) = true ->
  walk m cpz ((az, it) :: rest) st = walk m cpz rest st.
Proof. intros H. cbn [walk]. now rewrite H. Qed.

Lemma walk_break (m cpz : Z) (az it : string) (rest : list choice)
    (st : walk_state) :
  az_in_keys az (result st) = false ->
  Z.of_nat (length (result st)) = m ->
  walk m cpz ((az, it) :: rest) st = Ok st.
Proof.
  intros H E. cbn [walk]. rewrite H.
  now destruct (Z.eqb_spec (Z.of_nat (length (result st))) m).
Qed.

Lemma walk_unknown (m cpz : Z) (az it : string) (rest : list choice)
    (st : walk_state) (e : exn) :
  az_in_keys az (result st) = false ->
  Z.of_nat (length (result st)) <> m ->
  cores_of it = Raise e ->
  walk m cpz ((az, it) :: rest) st = Raise e.
Proof.
  intros H E Hc. cbn [walk]. rewrite H.
  destruct (Z.eqb_spec (Z.of_nat (length (result st))) m); [easy|].
  now rewrite Hc.
Qed.

Lemma walk_store (m cpz : Z) (az it : string) (st : walk_state) (c : Z) :
  az_in_keys az (result st) = false ->
  Z.of_nat (length (result st)) <> m ->
  cores_of it = Ok c ->
  exists st1,
    zone_step cpz (az, it) st st1 /\
    forall rest, walk m cpz ((az, it) :: rest) st = walk m cpz rest st1.
Proof.
  intros H E Hc.
  pose proof (cores_of_pos _ _ Hc) as Hpos.
  pose proof (fresh_key az it _ H) as Hfresh.
  destruct (take_units_spec c (az, it) (result st) Hpos Hfresh
              (Z.to_nat (left_cores st + cpz)) (left_cores st + cpz) 0)
    as (n & l' & Et & Hn & Hsum & Hl' & Hnpos); [lia|].
  rewrite Z.add_0_l in Et.
  destruct (negb (spare_cores st + l' =? 0) && (c <=? spare_cores st + l'))
    eqn:Eb.
  - exists {| result := (result st ++ [((az, it), n + 1)])%list;
              left_cores := l';
              spare_cores := spare_cores st + l' - c |}.
    split.
    + apply andb_true_iff in Eb as [_ Eb]. apply Z.leb_le in Eb.
      apply (ZoneStep _ _ _ _ c n 1); cbn [result left_cores spare_cores snd];
        auto; try lia.
    + intros rest. cbn [walk]. rewrite H.
      destruct (Z.eqb_spec (Z.of_nat (length (result st))) m); [easy|].
      unfold Dict.mem. rewrite Hfresh, Hc. cbn [bind].
      rewrite (set_fresh _ _ _ Hfresh), Et, Eb.
      now rewrite (incr_last _ _ _ Hfresh).
  - exists {| result := (result st ++ [((az, it), n)])%list;
              left_cores := l';
              spare_cores := spare_cores st + l' |}.
    split.
    + assert (Hb : spare_cores st + l' = 0 \/ spare_cores st + l' < c).
      { apply andb_false_iff in Eb as [Eb|Eb].
        - left. apply negb_false_iff, Z.eqb_eq in Eb. exact Eb.
        - right. apply Z.leb_gt in Eb. exact Eb. }
      apply (ZoneStep _ _ _ _ c n 0); cbn [result left_cores spare_cores snd];
        auto; try lia.
      now rewrite Z.add_0_r.
    + intros rest. cbn [walk]. rewrite H.
      destruct (Z.eqb_spec (Z.of_nat (length (result st))) m); [easy|].
      unfold Dict.mem. rewrite Hfresh, Hc. cbn [bind].
      now rewrite (set_fresh _ _ _ Hfresh), Et, Eb.
Qed.

(** A property kept by every storing iteration holds when the walk ends. *)
Lemma walk_invariant (P : walk_state -> Prop) (m cpz : Z)
    (choices : list choice) :
  (forall st ch st1,
     In ch choices ->
     P st -> az_in_keys (fst ch) (result st) = false ->
     Z.of_nat (length (result st)) <> m ->
     zone_step cpz ch st st1 -> P st1) ->
  forall st st', P st -> walk m cpz choices st = Ok st' -> P st'.
Proof.
  intros Hstep.
  assert (H : forall l, incl l choices ->
                forall st st', P st -> walk m cpz l st = Ok st' -> P st').
  { induction l as [|[az it] rest IH]; intros Hl st st' HP Hw.
    - cbn [walk] in Hw. now inversion Hw; subst.
    - assert (Hrest : incl rest choices).
      { intros x Hx. apply Hl. now right. }
      destruct (az_in_keys az (result st)) eqn:Hz.
      + rewrite (walk_skip _ _ _ _ _ _ Hz) in Hw. eauto.
      + destruct (Z.eq_dec (Z.of_nat (length (result st))) m) as [E|E].
        * rewrite (walk_break _ _ _ _ _ _ Hz E) in Hw.
          now inversion Hw; subst.
        * destruct (cores_of it) as [c|e] eqn:Hc.
          -- destruct (walk_store m cpz az it st c Hz E Hc)
               as (st1 & Hs & Hnext).
             rewrite Hnext in Hw. eapply (IH Hrest); [|exact Hw].
             apply (Hstep st (az, it) st1); auto. apply Hl. now left.
          -- rewrite (walk_unknown _ _ _ _ _ _ e Hz E Hc) in Hw.
             discriminate. }
  apply H. apply incl_refl.
Qed.

(** *** Cores handed out *)

Lemma plan_cores_app (r : plan) (e : choice * Z) :
  plan_cores (r ++ [e]) = plan_cores r + units_of e * unit_cores (type_of e).
Proof.
  induction r as [|x r IH]; cbn [plan_cores fold_right app].
  - lia.
  - fold (plan_cores (r ++ [e])). fold (plan_cores r). rewrite IH. lia.
Qed.

Lemma one_unit_each_app (r : plan) (e : choice * Z) :
  one_unit_each (r ++ [e]) = one_unit_each r + unit_cores (type_of e).
Proof.
  induction r as [|x r IH]; cbn [one_unit_each fold_right app].
  - lia.
  - fold (one_unit_each (r ++ [e])). fold (one_unit_each r). rewrite IH. lia.
Qed.

Lemma last_unit_app (r : plan) (e : choice * Z) :
  last_unit (r ++ [e]) = unit_cores (type_of e).
Proof. unfold last_unit. now rewrite rev_unit. Qed.

Lemma budget_step (m cpz : Z) (st st1 : walk_state) (ch : choice) :
  0 <= cpz ->
  budget_inv m cpz st ->
  Z.of_nat (length (result st)) <> m ->
  zone_step cpz ch st st1 ->
  budget_inv m cpz st1.
Proof.
  intros Hcpz (Hk & Hl & _ & Hlo & Hhi) Hne
         [c n b Hc Hn Hb Hsum Hlt Hpos Hres _ _ _].
  pose proof (cores_of_pos _ _ Hc) as Hcpos.
  unfold budget_inv. rewrite Hres, length_app, plan_cores_app,
    one_unit_each_app, last_unit_app.
  unfold units_of, type_of. cbn [length fst snd].
  rewrite (unit_cores_ok _ _ Hc), Nat2Z.inj_add. cbn [Z.of_nat Pos.of_succ_nat].
  assert (Hl1 : 0 <= left_cores st1).
  { destruct (Z.eq_dec n 0) as [->|]; [lia | apply Hpos; lia]. }
  destruct Hb as [->| ->]; repeat split; lia.
Qed.

Lemma walk_budget (m cpz : Z) (choices : list choice) (st st' : walk_state) :
  0 <= cpz -> budget_inv m cpz st -> walk m cpz choices st = Ok st' ->
  budget_inv m cpz st'.
Proof.
  intros Hcpz. apply walk_invariant. intros s ch s1 _ HP _ Hne Hs.
  eapply budget_step; eauto.
Qed.

Lemma walk_known_sizes (m cpz : Z) (l : list choice) (st st' : walk_state) :
  (forall e, In e (result st) -> exists c, cores_of (type_of e) = Ok c) ->
  walk m cpz l st = Ok st' ->
  forall e, In e (result st') -> exists c, cores_of (type_of e) = Ok c.
Proof.
  apply (walk_invariant
           (fun s => forall e, In e (result s) ->
                               exists c, cores_of (type_of e) = Ok c)).
  intros s ch s1 _ HP _ _ [c n b Hc _ _ _ _ _ Hres _ _ _] e He.
  rewrite Hres in He. apply in_app_iff in He as [He|[<-|[]]]; [auto|].
  now exists c.
Qed.

Lemma get_cheap_cores_inv (ec2 : ec2_api) (R : Z) (T azs : list string)
    (m : Z) (chosen : plan) :
  get_cheap_cores ec2 R T azs m = Ok chosen ->
  exists p choices sh st,
    get_pricing ec2 T azs = Ok p /\
    ranking (sort_by_price p) = Ok choices /\
    plan_shares R T m = Ok sh /\
    walk m (cores_per_az sh) choices
      {| result := []; left_cores := 0; spare_cores := spare_cores0 sh |}
    = Ok st /\
    chosen = result st.
Proof.
  unfold get_cheap_cores. intros H.
  destruct (get_pricing ec2 T azs) as [p|]; cbn [bind] in H; [|discriminate].
  destruct (ranking (sort_by_price p)) as [choices|] eqn:Er; cbn [bind] in H;
    [|discriminate].
  destruct (plan_shares R T m) as [sh|]; cbn [bind] in H; [|discriminate].
  destruct (walk _ _ _ _) as [st|] eqn:Ew; cbn [bind] in H; [|discriminate].
  inversion H; subst. now exists p, choices, sh, st.
Qed.

(** C1, as the code has it: for a request of [R >= 0] cores over
    [m > 0] zones, every entry of a returned plan is of a listed size, and
    the cores of the plan exceed [R] by at most one unit per entry; they
    can fall short of [R], and when the plan has [m] entries they do so by
    less than [smallest * m] plus one unit of the type chosen last. *)
Theorem plan_cores_bounds (ec2 : ec2_api) (R : Z) (T azs : list string)
    (m : Z) (chosen : plan) :
  get_cheap_cores ec2 R T azs m = Ok chosen ->
  0 <= R -> 0 < m ->
  (forall e, In e chosen -> 0 < unit_cores (type_of e)) /\
  plan_cores chosen <= R + one_unit_each chosen /\
  exists sh,
    plan_shares R T m = Ok sh /\
    (Z.of_nat (length chosen) = m ->
     R - plan_cores chosen < smallest sh * m + last_unit chosen).
Proof.
  intros H HR Hm.
  destruct (get_cheap_cores_inv _ _ _ _ _ _ H)
    as (p & choices & sh & st & _ & _ & Hsh & Hw & ->).
  destruct (plan_shares_spec _ _ _ _ Hsh) as ((t & _ & Ht) & _ & Hnz & Hcpz & Hsp).
  apply cores_of_pos in Ht.
  assert (Hd : 0 < smallest sh * m) by nia.
  pose proof (Z.div_pos R _ HR Hd) as Hbase.
  pose proof (Z.div_mod R _ Hnz) as Hdm.
  pose proof (Z.mod_pos_bound R _ Hd) as Hrem.
  assert (H0 : 0 <= cores_per_az sh) by nia.
  assert (Hinv : budget_inv m (cores_per_az sh) st).
  { eapply walk_budget; [exact H0| |exact Hw].
    unfold budget_inv; cbn. repeat split; try lia. congruence. }
  destruct Hinv as (Hk & Hl & Hlast & Hlo & Hhi).
  assert (Hshare : m * cores_per_az sh <= R) by nia.
  split; [|split].
  - intros e He.
    destruct (walk_known_sizes m (cores_per_az sh) choices
                {| result := []; left_cores := 0;
                   spare_cores := spare_cores0 sh |} st
                (fun e (F : In e []) => match F with end) Hw e He)
      as [c Hc].
    rewrite (unit_cores_ok _ _ Hc). eapply cores_of_pos; eassumption.
  - assert (Z.of_nat (length (result st)) * cores_per_az sh
            <= m * cores_per_az sh) by nia.
    lia.
  - exists sh. split; [exact Hsh|]. intros Hfull.
    assert (Hne : result st <> []).
    { intros E. rewrite E in Hfull. cbn in Hfull. lia. }
    specialize (Hlast Hne). rewrite Hfull in Hlo. nia.
Qed.

Lemma plan_cores_bounds_witness :
  (forall e, In e hundred_cores_plan -> 0 < unit_cores (type_of e)) /\
  plan_cores hundred_cores_plan <= 100 + one_unit_each hundred_cores_plan /\
  exists sh,
    plan_shares 100 ["m5.xlarge"] 3 = Ok sh /\
    (Z.of_nat (length hundred_cores_plan) = 3 ->
     100 - plan_cores hundred_cores_plan
     < smallest sh * 3 + last_unit hundred_cores_plan).
Proof.
  apply (plan_cores_bounds flat_ec2 100 ["m5.xlarge"]
           ["us-east-1a"; "us-east-1b"; "us-east-1c"] 3).
  - vm_compute. reflexivity.
  - lia.
  - lia.
Defined.

(** C1 as stated fails: two cores asked of three zones that all quote the
    four-core type give a plan of three entries with no unit at all. *)
Lemma plan_can_undershoot :
  exists chosen,
    get_cheap_cores flat_ec2 2 ["m5.xlarge"] ["us-east-1a"; "us-east-1b"; "us-east-1c"] 3 = Ok chosen /\
    0 < 2 /\ plan_cores chosen < 2.
Proof.
  eexists. split; [vm_compute; reflexivity|]. split; [lia|]. vm_compute.
  reflexivity.
Qed.

(** *** The price table *)

Lemma cores_of_error (t : string) (e : exn) : cores_of t = Raise e -> e = KeyError.
Proof.
  unfold cores_of. destruct (Dict.get _ _ _); intros H; now inversion H.
Qed.

(** What the inner loop of [get_pricing] leaves in a row. *)
Lemma record_results_spec (results : list observation) (row0 row : price_row) :
  record_results results row0 = Ok row ->
  NoDup (Dict.keys row0) ->
  NoDup (Dict.keys row) /\
  (forall t, In t (Dict.keys row) <->
             In t (Dict.keys row0) \/
             exists o, In o results /\ InstanceType o = t) /\
  (forall t v, In (t, v) row ->
     ((forall o, In o results -> InstanceType o <> t) /\ In (t, v) row0) \/
     exists o c, In o results /\ InstanceType o = t /\ cores_of t = Ok c /\
       v = Some {| price := SpotPrice o;
                   core_price := (SpotPrice o / inject_Z c)%Q;
                   cores := c |}) /\
  (forall o, In o results -> is_ok (cores_of (InstanceType o)) = true).
Proof.
  revert row0; induction results as [|o rest IH]; intros row0 H Hnd;
    cbn [record_results] in H.
  - inversion H; subst. split; [exact Hnd|]. split.
    + intros t. split; [auto | intros [?|(o & [] & _)]; auto].
    + split; [|intros o []]. intros t v Hin. left. split; [intros o []|exact Hin].
  - destruct (cores_of (InstanceType o)) as [c|] eqn:Ec; cbn [bind] in H;
      [|discriminate].
    destruct (c =? 0); [discriminate|].
    destruct (IH _ H (nodup_set String.eqb String.eqb_eq _ _ _ Hnd))
      as (H1 & H2 & H3 & H4).
    split; [exact H1|]. split; [|split].
    + intros t. rewrite H2, (in_keys_set String.eqb String.eqb_eq).
      split.
      * intros [[->|Hin]|(o' & Ho' & E)]; auto.
        -- right. exists o. split; [now left | reflexivity].
        -- right. exists o'. split; [now right | exact E].
      * intros [Hin|(o' & [->|Ho'] & E)]; auto.
        right. exists o'. now split.
    + intros t v Hin. destruct (H3 _ _ Hin) as [[Hno Hin1]|(o' & c' & Ho' & E)].
      * apply (in_set String.eqb String.eqb_eq _ _ _ _ _ Hnd) in Hin1
          as [[-> ->]|[Hne Hin0]].
        -- right. exists o, c. split; [now left|]. now repeat split.
        -- left. split; [|exact Hin0]. intros o' [<-|Ho']; [now auto | now apply Hno].
      * right. exists o', c'. split; [now right | exact E].
    + intros o' [<-|Ho']; [now rewrite Ec | now apply H4].
Qed.

Lemma record_results_total (results : list observation) (row0 : price_row) :
  (forall o, In o results -> is_ok (cores_of (InstanceType o)) = true) ->
  exists row, record_results results row0 = Ok row.
Proof.
  revert row0; induction results as [|o rest IH]; intros row0 Hok;
    cbn [record_results].
  - now exists row0.
  - assert (Ho := Hok o (or_introl eq_refl)).
    destruct (cores_of (InstanceType o)) as [c|] eqn:Ec; [|discriminate].
    cbn [bind]. apply cores_of_pos in Ec.
    destruct (Z.eqb_spec c 0); [lia|].
    apply IH. intros o' Ho'. apply Hok. now right.
Qed.

Lemma record_results_error (results : list observation) (row0 : price_row)
    (e : exn) :
  record_results results row0 = Raise e -> e = KeyError.
Proof.
  revert row0; induction results as [|o rest IH]; intros row0;
    cbn [record_results]; [discriminate|].
  destruct (cores_of (InstanceType o)) as [c|e'] eqn:Ec; cbn [bind].
  - apply cores_of_pos in Ec. destruct (Z.eqb_spec c 0); [lia|]. apply IH.
  - intros H; inversion H; subst. eapply cores_of_error; eassumption.
Qed.

Lemma record_results_known (results : list observation) (row0 row : price_row) :
  record_results results row0 = Ok row ->
  forall o, In o results -> is_ok (cores_of (InstanceType o)) = true.
Proof.
  revert row0; induction results as [|o1 rest IH]; intros row0 E o Ho;
    [easy|].
  cbn [record_results] in E.
  destruct (cores_of (InstanceType o1)) eqn:Ec; cbn [bind] in E;
    [|discriminate].
  destruct (_ =? 0); [discriminate|].
  destruct Ho as [<-|Ho]; [now rewrite Ec | eauto].
Qed.

Lemma record_results_unknown (results : list observation) (row0 : price_row)
    (o : observation) :
  In o results -> is_ok (cores_of (InstanceType o)) = false ->
  record_results results row0 = Raise KeyError.
Proof.
  intros Hin Hbad.
  destruct (record_results results row0) as [row|e] eqn:E.
  - rewrite (record_results_known _ _ _ E o Hin) in Hbad. discriminate.
  - now rewrite (record_results_error _ _ _ E).
Qed.

Lemma get_latest_price_spec (ec2 : ec2_api) (T : list string) (az : string) :
  (ec2 T az = [] /\ get_latest_price ec2 T az = None) \/
  (ec2 T az <> [] /\ get_latest_price ec2 T az = Some (ec2 T az)).
Proof.
  unfold get_latest_price. destruct (ec2 T az); [left | right]; easy.
Qed.

Lemma fetch_zones_spec (ec2 : ec2_api) (T azs : list string) (p0 p : pricing) :
  fetch_zones ec2 T azs p0 = Ok p ->
  NoDup (Dict.keys p0) ->
  (forall az, In az azs -> In az (Dict.keys p0)) ->
  Dict.keys p = Dict.keys p0 /\
  forall az row, In (az, row) p ->
    (In az azs /\ row_of ec2 T az row) \/ (~ In az azs /\ In (az, row) p0).
Proof.
  revert p0; induction azs as [|az azs IH]; intros p0 H Hnd Hin;
    cbn [fetch_zones] in H.
  - inversion H; subst. split; [reflexivity|]. intros az row Hr. right; auto.
  - destruct (get_latest_price_spec ec2 T az) as [[_ E]|[Hne E]];
      rewrite E in H; [discriminate|].
    destruct (record_results _ _) as [row1|] eqn:Er; cbn [bind] in H;
      [|discriminate].
    assert (Hk : Dict.keys (Dict.set String.eqb az row1 p0) = Dict.keys p0).
    { rewrite keys_set by apply String.eqb_eq. unfold Dict.mem.
      destruct (Dict.get String.eqb az p0) eqn:Eg; [reflexivity|].
      apply (get_none_iff String.eqb String.eqb_eq) in Eg.
      exfalso. apply Eg, Hin. now left. }
    destruct (IH _ H) as [Hkeys Hrows].
    + apply nodup_set; [apply String.eqb_eq | exact Hnd].
    + intros az' Haz'. rewrite Hk. apply Hin. now right.
    + split; [congruence|]. intros az' row Hr.
      destruct (Hrows _ _ Hr) as [[Hz Hrow]|[Hz Hrow]].
      * left. split; [now right | exact Hrow].
      * apply (in_set String.eqb String.eqb_eq _ _ _ _ _ Hnd) in Hrow
          as [[-> ->]|[Hne' Hrow]].
        -- left. split; [now left | now split].
        -- right. split; [|exact Hrow]. intros [?|?]; [now subst | auto].
Qed.

(** What [get_pricing] returns: one row per distinct zone, each made from
    that zone's history. *)
Lemma get_pricing_spec (ec2 : ec2_api) (T azs : list string) (p : pricing) :
  get_pricing ec2 T azs = Ok p ->
  NoDup (Dict.keys p) /\
  (forall az, In az (Dict.keys p) <-> In az azs) /\
  (forall az row, In (az, row) p -> In az azs /\ row_of ec2 T az row).
Proof.
  unfold get_pricing. intros H.
  destruct (fromkeys_spec String.eqb String.eqb_eq azs ([] : price_row))
    as (Hnd & Hk & Hv).
  destruct (fetch_zones_spec _ _ _ _ _ H Hnd) as [Hkeys Hrows].
  - intros az. apply Hk.
  - rewrite Hkeys. split; [exact Hnd|]. split; [exact Hk|].
    intros az row Hr. destruct (Hrows _ _ Hr) as [?|[Hno Hin]]; [assumption|].
    exfalso. apply Hno, Hk. eapply in_keys; eassumption.
Qed.

Lemma fetch_zones_total (ec2 : ec2_api) (T azs : list string) (p0 : pricing) :
  (forall az, In az azs -> ec2 T az <> []) ->
  (forall az o, In az azs -> In o (ec2 T az) ->
                is_ok (cores_of (InstanceType o)) = true) ->
  exists p, fetch_zones ec2 T azs p0 = Ok p.
Proof.
  revert p0; induction azs as [|az azs IH]; intros p0 Hne Hok;
    cbn [fetch_zones].
  - now exists p0.
  - destruct (get_latest_price_spec ec2 T az) as [[E _]|[_ E]].
    + exfalso. apply (Hne az); [now left | exact E].
    + rewrite E.
      destruct (record_results_total (ec2 T az)
                  (Dict.fromkeys String.eqb T None)) as [row ->].
      * intros o Ho. apply (Hok az); [now left | exact Ho].
      * cbn [bind]. apply IH.
        -- intros az' H'. apply Hne. now right.
        -- intros az' o H' Ho. apply (Hok az'); [now right | exact Ho].
Qed.

Lemma fetch_zones_error (ec2 : ec2_api) (T azs : list string) (p0 : pricing)
    (e : exn) :
  fetch_zones ec2 T azs p0 = Raise e ->
  e = KeyError \/ (e = TypeError /\ exists az, In az azs /\ ec2 T az = []).
Proof.
  revert p0; induction azs as [|az azs IH]; intros p0; cbn [fetch_zones];
    [discriminate|].
  destruct (get_latest_price_spec ec2 T az) as [[E0 E]|[_ E]]; rewrite E.
  - intros H; inversion H; subst. right. split; [reflexivity|].
    exists az. split; [now left | exact E0].
  - destruct (record_results _ _) as [row|e'] eqn:Er; cbn [bind].
    + intros H. destruct (IH _ H) as [?|[? (az' & ? & ?)]]; [now left|].
      right. split; [assumption|]. exists az'. split; [now right | assumption].
    + intros H; inversion H; subst. left.
      eapply record_results_error; eassumption.
Qed.

Lemma fetch_zones_unknown (ec2 : ec2_api) (T azs : list string) (p0 : pricing)
    (az : string) (o : observation) :
  In az azs -> In o (ec2 T az) ->
  is_ok (cores_of (InstanceType o)) = false ->
  exists e, fetch_zones ec2 T azs p0 = Raise e.
Proof.
  revert p0; induction azs as [|az1 azs IH]; intros p0 Hin Ho Hbad; [easy|].
  cbn [fetch_zones].
  destruct (get_latest_price_spec ec2 T az1) as [[_ E]|[_ E]]; rewrite E.
  - now exists TypeError.
  - destruct (record_results _ _) as [row|e'] eqn:Er; cbn [bind].
    + destruct Hin as [->|Hin].
      * rewrite (record_results_known _ _ _ Er o Ho) in Hbad. discriminate.
      * now apply IH.
    + now exists e'.
Qed.

Lemma quote_in_row (ec2 : ec2_api) (T : list string) (az t : string)
    (row : price_row) (q : quote) :
  row_of ec2 T az row -> In (t, Some q) row ->
  exists o c,
    In o (ec2 T az) /\ InstanceType o = t /\ cores_of t = Ok c /\
    q = {| price := SpotPrice o;
           core_price := (SpotPrice o / inject_Z c)%Q;
           cores := c |}.
Proof.
  intros [_ Hr] Hin.
  destruct (fromkeys_spec String.eqb String.eqb_eq T (None : option quote))
    as (Hnd & _ & Hv).
  destruct (record_results_spec _ _ _ Hr Hnd) as (_ & _ & H3 & _).
  destruct (H3 _ _ Hin) as [[_ H0]|(o & c & Ho & Et & Ec & Eq)].
  - apply Hv in H0 as [_ H0]. discriminate.
  - inversion Eq; subst q. now exists o, c.
Qed.

(** *** The table of choices *)

Lemma pk_refl (a : price_key) : price_key_eqb a a = true.
Proof. destruct a as [q|]; [apply Qeq_bool_iff; reflexivity | reflexivity]. Qed.

Lemma pk_sym (a b : price_key) : price_key_eqb a b = price_key_eqb b a.
Proof.
  destruct a as [x|], b as [y|]; cbn; try reflexivity.
  destruct (Qeq_bool x y) eqn:E, (Qeq_bool y x) eqn:E'; try reflexivity.
  - apply Qeq_bool_iff in E. symmetry in E. apply Qeq_bool_iff in E. congruence.
  - apply Qeq_bool_iff in E'. symmetry in E'. apply Qeq_bool_iff in E'.
    congruence.
Qed.

Lemma pk_trans (a b c : price_key) :
  price_key_eqb a b = true -> price_key_eqb b c = true ->
  price_key_eqb a c = true.
Proof.
  destruct a as [x|], b as [y|], c as [z|]; cbn; try easy.
  rewrite !Qeq_bool_iff. intros H1 H2. now rewrite H1.
Qed.

Lemma group_set (tbl : choices_table) (k k' : price_key) (l : list choice) :
  group_of (Dict.set price_key_eqb k l tbl) k'
  = if price_key_eqb k' k then l else group_of tbl k'.
Proof.
  unfold group_of. rewrite (get_set_equiv _ pk_sym pk_trans).
  now destruct (price_key_eqb k' k).
Qed.

Lemma group_sort_row (az : string) (row : price_row) (tbl : choices_table)
    (k : price_key) :
  group_of (sort_row az row tbl) k
  = group_of tbl k ++
    map (fun tq => (az, fst tq))
      (filter (fun tq => price_key_eqb k (get_core_price (snd tq))) row).
Proof.
  revert tbl; induction row as [|[t q] row IH]; intros tbl;
    cbn [sort_row filter map fst snd].
  - now rewrite app_nil_r.
  - rewrite IH. clear IH.
    assert (E : group_of
                  (match Dict.get price_key_eqb (get_core_price q) tbl with
                   | Some l =>
                       Dict.set price_key_eqb (get_core_price q)
                         (l ++ [(az, t)]) tbl
                   | None =>
                       Dict.set price_key_eqb (get_core_price q)
                         [(az, t)] tbl
                   end) k
                = if price_key_eqb k (get_core_price q)
                  then group_of tbl k ++ [(az, t)] else group_of tbl k).
    { destruct (price_key_eqb k (get_core_price q)) eqn:Ek.
      - unfold group_of at 2.
        rewrite (get_equiv _ pk_sym pk_trans _ _ tbl Ek).
        destruct (Dict.get price_key_eqb (get_core_price q) tbl);
          now rewrite group_set, Ek.
      - destruct (Dict.get price_key_eqb (get_core_price q) tbl);
          now rewrite group_set, Ek. }
    rewrite E. destruct (price_key_eqb k (get_core_price q));
      cbn [map fst]; [now rewrite <- app_assoc | reflexivity].
Qed.

Lemma group_sort_zones (p : pricing) (tbl : choices_table) (k : price_key) :
  group_of (sort_zones p tbl) k = group_of tbl k ++ pairs_at k p.
Proof.
  revert tbl; induction p as [|[az row] p IH]; intros tbl;
    cbn [sort_zones pairs_at flat_map fst snd].
  - now rewrite app_nil_r.
  - rewrite IH, group_sort_row, <- app_assoc. reflexivity.
Qed.

(** The group [sort_by_price] files under a key: the pairs of that core
    price, in table order. *)
Lemma group_sort_by_price (p : pricing) (k : price_key) :
  group_of (sort_by_price p) k = pairs_at k p.
Proof. unfold sort_by_price. now rewrite group_sort_zones. Qed.

Lemma in_pairs_at (k : price_key) (p : pricing) (az t : string) :
  In (az, t) (pairs_at k p) <->
  exists row q, In (az, row) p /\ In (t, q) row /\
                price_key_eqb k (get_core_price q) = true.
Proof.
  unfold pairs_at. rewrite in_flat_map. split.
  - intros ([az' row] & Hin & H). cbn [fst snd] in H.
    apply in_map_iff in H as ([t' q] & E & H). cbn [fst] in E.
    inversion E; subst. apply filter_In in H as [H1 H2].
    now exists row, q.
  - intros (row & q & H1 & H2 & H3). exists (az, row). split; [exact H1|].
    cbn [fst snd]. apply in_map_iff. exists (t, q). split; [reflexivity|].
    apply filter_In. now split.
Qed.

Lemma placeholder_kept (ec2 : ec2_api) (T : list string) (az t : string)
    (row : price_row) :
  row_of ec2 T az row -> In t T ->
  (forall o, In o (ec2 T az) -> InstanceType o <> t) ->
  NoDup (Dict.keys row) /\ In (t, None) row.
Proof.
  intros [_ Hr] Ht Hno.
  destruct (fromkeys_spec String.eqb String.eqb_eq T (None : option quote))
    as (Hnd & Hk & Hv).
  destruct (record_results_spec _ _ _ Hr Hnd) as (H1 & H2 & H3 & _).
  split; [exact H1|].
  assert (Hin : In t (Dict.keys row)) by (apply H2; left; now apply Hk).
  apply keys_in in Hin as [v Hin].
  destruct (H3 _ _ Hin) as [[_ H0]|(o & c & Ho & Et & _)].
  - apply Hv in H0 as [_ ->]. exact Hin.
  - exfalso. now apply (Hno o).
Qed.

(** A requested pair without an observation keeps its empty placeholder
    in the price table, and [sort_by_price] files it in the table of
    choices under the key [None]; it is filed under no numeric price, zero
    or other. *)
Theorem unpriced_pair_filed_under_none (ec2 : ec2_api) (T azs : list string)
    (p : pricing) (az t : string) :
  get_pricing ec2 T azs = Ok p ->
  In az azs -> In t T ->
  (forall o, In o (ec2 T az) -> InstanceType o <> t) ->
  (exists row, Dict.get String.eqb az p = Some row /\
               Dict.get String.eqb t row = Some None) /\
  In (az, t) (group_of (sort_by_price p) None) /\
  forall x : Q, ~ In (az, t) (group_of (sort_by_price p) (Some x)).
Proof.
  intros Hp Haz Ht Hno.
  destruct (get_pricing_spec _ _ _ _ Hp) as (Hnd & Hk & Hrows).
  assert (Hin : In az (Dict.keys p)) by now apply Hk.
  apply keys_in in Hin as [row Hrow].
  destruct (Hrows _ _ Hrow) as [_ Hr].
  destruct (placeholder_kept _ _ _ _ _ Hr Ht Hno) as [Hndr Hnone].
  split; [|split].
  - exists row. split; apply in_get; auto using String.eqb_eq.
  - rewrite group_sort_by_price. apply in_pairs_at. now exists row, None.
  - intros x. rewrite group_sort_by_price, in_pairs_at.
    intros (row' & q & Hrow' & Hq & Hkq).
    apply (in_get String.eqb String.eqb_eq _ _ _ Hnd) in Hrow, Hrow'.
    assert (row' = row) by congruence. subst row'.
    apply (in_get String.eqb String.eqb_eq _ _ _ Hndr) in Hq, Hnone.
    assert (q = None) by congruence. subst q. discriminate.
Qed.

Lemma unpriced_pair_filed_under_none_witness :
  exists p,
    get_pricing partial_ec2 ["m5.large"; "m5.xlarge"]
      ["us-east-1a"; "us-east-1b"] = Ok p /\
    (exists row, Dict.get String.eqb "us-east-1a" p = Some row /\
                 Dict.get String.eqb "m5.xlarge" row = Some None) /\
    In ("us-east-1a", "m5.xlarge") (group_of (sort_by_price p) None) /\
    forall x : Q,
      ~ In ("us-east-1a", "m5.xlarge") (group_of (sort_by_price p) (Some x)).
Proof.
  eexists. split; [vm_compute; reflexivity|].
  apply (unpriced_pair_filed_under_none partial_ec2
           ["m5.large"; "m5.xlarge"] ["us-east-1a"; "us-east-1b"]).
  - vm_compute. reflexivity.
  - left. reflexivity.
  - right. left. reflexivity.
  - intros o [<-|[]]. discriminate.
Defined.

(** C3, at the failing input: zone "us-east-1a" has an observation for
    "m5.large" and none for "m5.xlarge".  The pair is not left out: it
    stays in the price table with the empty placeholder and
    [sort_by_price] files it under the key [None], beside the numeric keys
    of the priced pairs.  Sorting those keys raises [TypeError], so no
    ranking is walked and every request, whatever [cores] and [min_azs],
    raises [TypeError] instead of planning over the priced pairs. *)
Theorem unpriced_pair_breaks_planning :
  exists p,
    get_pricing partial_ec2 ["m5.large"; "m5.xlarge"]
      ["us-east-1a"; "us-east-1b"] = Ok p /\
    (exists row, Dict.get String.eqb "us-east-1a" p = Some row /\
                 Dict.get String.eqb "m5.xlarge" row = Some None) /\
    In (None, [("us-east-1a", "m5.xlarge")]) (sort_by_price p) /\
    ranking (sort_by_price p) = Raise TypeError /\
    forall cores min_azs,
      get_cheap_cores partial_ec2 cores ["m5.large"; "m5.xlarge"]
        ["us-east-1a"; "us-east-1b"] min_azs = Raise TypeError.
Proof.
  eexists. split; [vm_compute; reflexivity|].
  split; [eexists; split; vm_compute; reflexivity|].
  split; [vm_compute; auto|].
  split; [vm_compute; reflexivity|].
  intros cores min_azs. reflexivity.
Qed.

(** *** Sorting the keys *)

Lemma key_lt_spec (y x : price_key) (b : bool) :
  key_lt y x = Ok b ->
  exists c a, y = Some c /\ x = Some a /\
              (if b then (c < a)%Q else (a <= c)%Q).
Proof.
  destruct y as [c|], x as [a|]; cbn [key_lt]; try discriminate.
  intros H; inversion H; subst b. exists c, a. repeat split.
  destruct (Qle_bool a c) eqn:E; cbn [negb].
  - now apply Qle_bool_iff.
  - apply Qnot_le_lt. intros Hle. apply Qle_bool_iff in Hle. congruence.
Qed.

Lemma insert_key_perm (x : price_key) (l r : list price_key) :
  insert_key x l = Ok r -> Permutation (x :: l) r.
Proof.
  revert r; induction l as [|y l IH]; intros r; cbn [insert_key].
  - intros H; inversion H; subst. reflexivity.
  - destruct (key_lt y x) as [b|]; cbn [bind]; [|discriminate].
    destruct b.
    + destruct (insert_key x l) as [r'|]; cbn [bind]; [|discriminate].
      intros H; inversion H; subst.
      rewrite perm_swap. constructor. now apply IH.
    + intros H; inversion H; subst. reflexivity.
Qed.

Lemma key_le_trans (a b c : price_key) : key_le a b -> key_le b c -> key_le a c.
Proof.
  destruct a, b, c; cbn [key_le]; try easy. apply Qle_trans.
Qed.

Lemma insert_key_sorted (x : price_key) (l r : list price_key) :
  StronglySorted key_le l -> insert_key x l = Ok r -> StronglySorted key_le r.
Proof.
  revert r; induction l as [|y l IH]; intros r Hs; cbn [insert_key].
  - intros H; inversion H; subst. repeat constructor.
  - destruct (key_lt y x) as [b|] eqn:Eb; cbn [bind]; [|discriminate].
    apply key_lt_spec in Eb as (c & a & -> & -> & Hb).
    inversion Hs as [|? ? Hs' Hall]; subst.
    destruct b.
    + destruct (insert_key (Some a) l) as [r'|] eqn:Er; cbn [bind];
        [|discriminate].
      intros H; inversion H; subst. constructor; [now apply IH|].
      rewrite <- (insert_key_perm _ _ _ Er). constructor; [|exact Hall].
      cbn [key_le]. now apply Qlt_le_weak.
    + intros H; inversion H; subst. constructor; [exact Hs|].
      constructor; [exact Hb|].
      eapply Forall_impl; [|exact Hall]. intros z Hz.
      eapply key_le_trans; [|exact Hz]. exact Hb.
Qed.

(** [sorted] returns its argument in ascending order. *)
Lemma sorted_spec (l s : list price_key) :
  sorted l = Ok s -> Permutation l s /\ StronglySorted key_le s.
Proof.
  revert s; induction l as [|x l IH]; intros s; cbn [sorted].
  - intros H; inversion H; subst. split; constructor.
  - destruct (sorted l) as [s'|]; cbn [bind]; [|discriminate].
    intros H. destruct (IH s' eq_refl) as [Hp Hs]. split.
    + rewrite <- (insert_key_perm _ _ _ H). now constructor.
    + eapply insert_key_sorted; eassumption.
Qed.

Lemma insert_key_total (a : Q) (l : list price_key) :
  Forall (fun k => k <> None) l -> exists r, insert_key (Some a) l = Ok r.
Proof.
  induction 1 as [|y l Hy _ IH]; cbn [insert_key]; [now eexists|].
  destruct y as [c|]; [|contradiction]. cbn [key_lt bind].
  destruct (negb (Qle_bool a c)); [|now eexists].
  destruct IH as [r ->]. cbn [bind]. now eexists.
Qed.

(** Keys that are all numbers can be sorted. *)
Lemma sorted_total (l : list price_key) :
  Forall (fun k => k <> None) l -> exists s, sorted l = Ok s.
Proof.
  induction 1 as [|x l Hx Hl IH]; cbn [sorted]; [now eexists|].
  destruct IH as [s Es]. rewrite Es. cbn [bind].
  destruct x as [a|]; [|contradiction]. apply insert_key_total.
  destruct (sorted_spec _ _ Es) as [Hp _].
  rewrite <- Hp. exact Hl.
Qed.

(** *** The ranking *)

Lemma get_pricing_wf (ec2 : ec2_api) (T azs : list string) (p : pricing) :
  get_pricing ec2 T azs = Ok p -> table_wf p.
Proof.
  intros Hp. destruct (get_pricing_spec _ _ _ _ Hp) as (Hnd & _ & Hrows).
  split; [exact Hnd|]. intros az row Hrow.
  destruct (Hrows _ _ Hrow) as [_ [_ Hr]].
  destruct (fromkeys_spec String.eqb String.eqb_eq T (None : option quote))
    as (Hnd0 & _ & _).
  now destruct (record_results_spec _ _ _ Hr Hnd0) as (H1 & _).
Qed.

Lemma quote_at_in (p : pricing) (az t : string) (row : price_row)
    (q : option quote) :
  table_wf p -> In (az, row) p -> In (t, q) row -> quote_at p (az, t) = q.
Proof.
  intros [Hnd Hrows] Hrow Hq. unfold quote_at. cbn [fst snd].
  rewrite (in_get String.eqb String.eqb_eq _ _ _ Hnd Hrow).
  now rewrite (in_get String.eqb String.eqb_eq _ _ _ (Hrows _ _ Hrow) Hq).
Qed.

Lemma keys_sort_row (az : string) (row : price_row) (tbl : choices_table)
    (k : price_key) :
  In k (Dict.keys (sort_row az row tbl)) ->
  In k (Dict.keys tbl) \/ exists t q, In (t, q) row /\ k = get_core_price q.
Proof.
  revert tbl; induction row as [|[t q] row IH]; intros tbl; cbn [sort_row];
    [auto|].
  intros H. apply IH in H as [H|(t' & q' & Hin & E)].
  - assert (H' : In k (Dict.keys tbl) \/ k = get_core_price q).
    { destruct (Dict.get price_key_eqb (get_core_price q) tbl);
        rewrite keys_set in H;
        destruct (Dict.mem price_key_eqb (get_core_price q) tbl); auto;
        apply in_app_iff in H as [H|[H|[]]]; auto. }
    destruct H' as [H'|H']; [now left|].
    right. exists t, q. split; [now left | exact H'].
  - right. exists t', q'. split; [now right | exact E].
Qed.

Lemma keys_sort_zones (p : pricing) (tbl : choices_table) (k : price_key) :
  In k (Dict.keys (sort_zones p tbl)) ->
  In k (Dict.keys tbl) \/
  exists az row t q, In (az, row) p /\ In (t, q) row /\ k = get_core_price q.
Proof.
  revert tbl; induction p as [|[az row] p IH]; intros tbl; cbn [sort_zones];
    [auto|].
  intros H. apply IH in H as [H|(az' & row' & t & q & H1 & H2 & E)].
  - apply keys_sort_row in H as [H|(t & q & Hin & E)]; [now left|].
    right. exists az, row, t, q. split; [now left | now split].
  - right. exists az', row', t, q. split; [now right | now split].
Qed.

Lemma ranking_unfold (tbl : choices_table) (l : list choice) :
  ranking tbl = Ok l ->
  exists ks, sorted (Dict.keys tbl) = Ok ks /\
             l = concat (map (group_of tbl) ks).
Proof.
  unfold ranking. destruct (sorted (Dict.keys tbl)) as [ks|]; cbn [bind];
    [|discriminate].
  intros H; inversion H; subst. now exists ks.
Qed.

(** The ranking holds exactly the pairs of the table. *)
Lemma ranking_in (p : pricing) (l : list choice) (x : choice) :
  ranking (sort_by_price p) = Ok l -> (In x l <-> in_table p x).
Proof.
  intros H. apply ranking_unfold in H as (ks & Hks & ->).
  destruct (sorted_spec _ _ Hks) as [Hperm _]. destruct x as [az t].
  rewrite in_concat. split.
  - intros (g & Hg & Hx). apply in_map_iff in Hg as (k & <- & _).
    rewrite group_sort_by_price in Hx.
    apply in_pairs_at in Hx as (row & q & H1 & H2 & _). now exists row, q.
  - intros (row & q & H1 & H2). cbn [fst snd] in H1, H2.
    assert (Hx : In (az, t)
                   (group_of (sort_by_price p) (get_core_price q))).
    { rewrite group_sort_by_price. apply in_pairs_at.
      exists row, q. repeat split; auto. apply pk_refl. }
    destruct (Dict.get price_key_eqb (get_core_price q) (sort_by_price p))
      as [g|] eqn:Eg.
    + assert (Hk : exists k', In k' (Dict.keys (sort_by_price p)) /\
                   price_key_eqb (get_core_price q) k' = true).
      { clear Hx Hperm Hks. revert Eg. generalize (sort_by_price p).
        induction c as [|[k1 g1] c IH]; cbn [Dict.get]; [discriminate|].
        destruct (price_key_eqb (get_core_price q) k1) eqn:E.
        - intros _. exists k1. split; [now left | exact E].
        - intros Hg. destruct (IH Hg) as (k' & ? & ?).
          exists k'. split; [now right | assumption]. }
      destruct Hk as (k' & Hk' & Ek').
      exists (group_of (sort_by_price p) k'). split.
      * apply in_map_iff. exists k'. split; [reflexivity|].
        now rewrite <- Hperm.
      * unfold group_of in *.
        now rewrite <- (get_equiv _ pk_sym pk_trans _ _ _ Ek').
    + unfold group_of in Hx. rewrite Eg in Hx. destruct Hx.
Qed.

Lemma app_sorted {A : Type} (le : A -> A -> Prop) (l1 l2 : list A) :
  StronglySorted le l1 -> StronglySorted le l2 ->
  (forall x y, In x l1 -> In y l2 -> le x y) ->
  StronglySorted le (l1 ++ l2).
Proof.
  induction 1 as [|x l1 Hs IH Hall]; intros H2 Hc; cbn [app]; [exact H2|].
  constructor.
  - apply IH; [exact H2|]. intros a b Ha Hb. apply Hc; [now right | exact Hb].
  - apply Forall_app. split; [exact Hall|].
    apply Forall_forall. intros y Hy. apply Hc; [now left | exact Hy].
Qed.

Lemma all_le_sorted {A : Type} (le : A -> A -> Prop) (l : list A) :
  (forall x y, In x l -> In y l -> le x y) -> StronglySorted le l.
Proof.
  induction l as [|x l IH]; intros H; constructor.
  - apply IH. intros a b Ha Hb. apply H; now right.
  - apply Forall_forall. intros y Hy. apply H; [now left | now right].
Qed.

Lemma concat_sorted {A B : Type} (R : B -> B -> Prop) (le : A -> A -> Prop)
    (g : B -> list A) (ks : list B) :
  StronglySorted R ks ->
  (forall k x y, In k ks -> In x (g k) -> In y (g k) -> le x y) ->
  (forall k k' x y, In k ks -> In k' ks -> R k k' ->
                    In x (g k) -> In y (g k') -> le x y) ->
  StronglySorted le (concat (map g ks)).
Proof.
  induction 1 as [|k ks Hs IH Hall]; intros Hin Hout; cbn [map concat];
    [constructor|].
  apply app_sorted.
  - apply all_le_sorted. intros x y. apply Hin. now left.
  - apply IH.
    + intros k0 x y Hk. apply Hin. now right.
    + intros k0 k' x y Hk Hk'. apply Hout; now right.
  - intros x y Hx Hy. apply in_concat in Hy as (g' & Hg' & Hy).
    apply in_map_iff in Hg' as (k' & <- & Hk').
    rewrite Forall_forall in Hall.
    apply (Hout k k'); auto; [now left | now right].
Qed.

Lemma group_price (p : pricing) (k : price_key) (x : choice) :
  table_wf p -> In x (group_of (sort_by_price p) k) ->
  price_key_eqb k (get_core_price (quote_at p x)) = true.
Proof.
  intros Hwf. rewrite group_sort_by_price. destruct x as [az t].
  intros H. apply in_pairs_at in H as (row & q & H1 & H2 & H3).
  now rewrite (quote_at_in _ _ _ _ _ Hwf H1 H2).
Qed.

Lemma same_group_no_dearer (p : pricing) (k k' : price_key) (x y : choice) :
  k = k' \/ key_le k k' ->
  price_key_eqb k (get_core_price (quote_at p x)) = true ->
  price_key_eqb k' (get_core_price (quote_at p y)) = true ->
  no_dearer p x y.
Proof.
  unfold no_dearer, core_price_at.
  destruct (quote_at p x) as [qx|], (quote_at p y) as [qy|];
    destruct k as [a|], k' as [b|]; cbn [get_core_price option_map
      price_key_eqb key_le]; try discriminate;
    try (intros [E|[]]; discriminate E);
    try (intros _ _ _; apply Qle_refl).
  intros Hk Hx Hy. apply Qeq_bool_iff in Hx, Hy. rewrite <- Hx, <- Hy.
  destruct Hk as [E|Hle]; [inversion E; apply Qle_refl | exact Hle].
Qed.

(** The ranking goes from the cheapest core price up. *)
Lemma ranking_sorted (p : pricing) (l : list choice) :
  table_wf p -> ranking (sort_by_price p) = Ok l ->
  StronglySorted (no_dearer p) l.
Proof.
  intros Hwf H. apply ranking_unfold in H as (ks & Hks & ->).
  destruct (sorted_spec _ _ Hks) as [_ Hs].
  apply (concat_sorted key_le); [exact Hs| |].
  - intros k x y _ Hx Hy.
    apply (same_group_no_dearer p k k); [now left | |];
      now apply group_price.
  - intros k k' x y _ _ Hle Hx Hy.
    apply (same_group_no_dearer p k k'); [now right | |];
      now apply group_price.
Qed.

(** *** Which zones the walk chooses *)

Lemma az_in_keys_chosen (az : string) (r : plan) :
  In az (map zone_of r) -> az_in_keys az r = true.
Proof.
  intros H. apply in_map_iff in H as ([[az' t] n] & E & Hin).
  cbn in E. subst az'. apply az_in_keys_spec.
  exists (az, t), n, EmptyString, ("|" ++ t)%string. split; [exact Hin|].
  reflexivity.
Qed.

Lemma az_in_keys_clash_free (le : choice -> choice -> Prop)
    (done l : list choice) (st : walk_state) (x : choice) :
  clash_free (done ++ x :: l) -> sel_inv le done st ->
  az_in_keys (fst x) (result st) = true ->
  In (fst x) (map zone_of (result st)).
Proof.
  intros Hcf (Hi & _) H. apply az_in_keys_spec in H as (k & n & a & b & Hin & E).
  assert (Hs : str_in (fst x) (choice_key k) = true).
  { apply str_in_spec. now exists a, b. }
  destruct (string_dec (fst x) (fst k)) as [Ez|Ez].
  - rewrite Ez. apply in_map_iff. now exists (k, n).
  - rewrite (Hcf x k) in Hs; [discriminate| | |exact Ez].
    + apply in_app_iff. right. now left.
    + apply in_app_iff. left. apply (Hi _ Hin).
Qed.

Lemma sel_inv_skip (le : choice -> choice -> Prop) (done l : list choice)
    (st : walk_state) (x : choice) :
  clash_free (done ++ x :: l) ->
  (forall a b, In a done -> In b (x :: l) -> le a b) ->
  sel_inv le done st ->
  az_in_keys (fst x) (result st) = true ->
  sel_inv le (done ++ [x]) st.
Proof.
  intros Hcf Hle Hinv Hz.
  pose proof (az_in_keys_clash_free _ _ _ _ _ Hcf Hinv Hz) as Hx.
  destruct Hinv as (H1 & H2 & H3 & H4).
  split; [|split; [exact H2|split]].
  - intros e He. apply in_app_iff. left. now apply H1.
  - intros y Hy. apply in_app_iff in Hy as [Hy|[<-|[]]]; auto.
  - intros e y He Hy Ey. apply in_app_iff in Hy as [Hy|[<-|[]]]; auto.
    apply Hle; [now apply H1 | now left].
Qed.

Lemma sel_inv_store (le : choice -> choice -> Prop) (cpz : Z)
    (done l : list choice) (st st1 : walk_state) (x : choice) :
  (forall a, le a a) ->
  (forall a b, In a done -> In b (x :: l) -> le a b) ->
  sel_inv le done st ->
  az_in_keys (fst x) (result st) = false ->
  zone_step cpz x st st1 ->
  sel_inv le (done ++ [x]) st1.
Proof.
  intros Hrefl Hle (H1 & H2 & H3 & H4) Hz [c n b _ _ _ _ _ _ Hres _ _ _].
  assert (Hnew : ~ In (fst x) (map zone_of (result st))).
  { intros Hin. apply az_in_keys_chosen in Hin. congruence. }
  unfold sel_inv. rewrite Hres. split; [|split; [|split]].
  - intros e He. apply in_app_iff in He as [He|[<-|[]]]; apply in_app_iff.
    + left. now apply H1.
    + right. now left.
  - rewrite map_app. cbn [map]. apply NoDup_app; [exact H2 | | ].
    + repeat constructor. intros [].
    + intros z Hz' [<-|[]]. now apply Hnew.
  - intros y Hy. rewrite map_app, in_app_iff.
    apply in_app_iff in Hy as [Hy|[<-|[]]]; [left; now apply H3|].
    right. now left.
  - intros e y He Hy Ey.
    apply in_app_iff in He as [He|[<-|[]]];
      apply in_app_iff in Hy as [Hy|[<-|[]]].
    + now apply H4.
    + apply Hle; [now apply H1 | now left].
    + exfalso. apply Hnew. unfold zone_of in Ey. cbn [fst] in Ey.
      rewrite <- Ey. now apply H3.
    + apply Hrefl.
Qed.

(** Where the walk stops: it has gone past [done'], and either nothing is
    left or the plan has [m] entries. *)
Lemma walk_selection (le : choice -> choice -> Prop) (m cpz : Z) :
  (forall a, le a a) ->
  forall l done st st',
    clash_free (done ++ l) ->
    (forall a b, In a done -> In b l -> le a b) ->
    StronglySorted le l ->
    sel_inv le done st ->
    walk m cpz l st = Ok st' ->
    exists done' rest,
      done ++ l = done' ++ rest /\
      sel_inv le done' st' /\
      (rest = [] \/ Z.of_nat (length (result st')) = m) /\
      (forall a b, In a done' -> In b rest -> le a b).
Proof.
  intros Hrefl. induction l as [|[az it] l IH]; intros done st st' Hcf Hle Hs Hinv Hw.
  - cbn [walk] in Hw. inversion Hw; subst. exists done, []. auto.
  - assert (Hle' : forall a b, In a (done ++ [(az, it)]) -> In b l -> le a b).
    { intros a b' Ha Hb. apply in_app_iff in Ha as [Ha|[<-|[]]].
      - apply Hle; [exact Ha | now right].
      - inversion Hs as [|? ? _ Hall]; subst.
        rewrite Forall_forall in Hall. now apply Hall. }
    assert (Hs' : StronglySorted le l) by now inversion Hs.
    assert (Hcf' : clash_free ((done ++ [(az, it)]) ++ l)).
    { now rewrite <- app_assoc. }
    assert (Happ : done ++ (az, it) :: l = (done ++ [(az, it)]) ++ l).
    { now rewrite <- app_assoc. }
    destruct (az_in_keys az (result st)) eqn:Hz.
    + rewrite (walk_skip _ _ _ _ _ _ Hz) in Hw.
      pose proof (sel_inv_skip le done l st (az, it) Hcf Hle Hinv Hz) as Hinv'.
      destruct (IH _ _ _ Hcf' Hle' Hs' Hinv' Hw) as (done' & rest & E & H).
      exists done', rest. split; [exact (eq_trans Happ E) | exact H].
    + destruct (Z.eq_dec (Z.of_nat (length (result st))) m) as [E|E].
      * rewrite (walk_break _ _ _ _ _ _ Hz E) in Hw. inversion Hw; subst.
        exists done, ((az, it) :: l). auto.
      * destruct (cores_of it) as [c|e] eqn:Hc.
        -- destruct (walk_store m cpz az it st c Hz E Hc) as (st1 & Hst & Hnext).
           rewrite Hnext in Hw.
           pose proof (sel_inv_store le cpz done l st st1 (az, it)
                         Hrefl Hle Hinv Hz Hst) as Hinv'.
           destruct (IH _ _ _ Hcf' Hle' Hs' Hinv' Hw) as (done' & rest & E' & H).
           exists done', rest. split; [exact (eq_trans Happ E') | exact H].
        -- rewrite (walk_unknown _ _ _ _ _ _ e Hz E Hc) in Hw. discriminate.
Qed.

Lemma walk_total (m cpz : Z) (l : list choice) (st : walk_state) :
  (forall x, In x l -> is_ok (cores_of (snd x)) = true) ->
  exists st', walk m cpz l st = Ok st'.
Proof.
  revert st; induction l as [|[az it] l IH]; intros st Hok.
  - now exists st.
  - assert (Hok' : forall x, In x l -> is_ok (cores_of (snd x)) = true).
    { intros x Hx. apply Hok. now right. }
    destruct (az_in_keys az (result st)) eqn:Hz.
    + rewrite (walk_skip _ _ _ _ _ _ Hz). now apply IH.
    + destruct (Z.eq_dec (Z.of_nat (length (result st))) m) as [E|E].
      * rewrite (walk_break _ _ _ _ _ _ Hz E). now exists st.
      * assert (Hc := Hok (az, it) (or_introl eq_refl)). cbn [snd] in Hc.
        destruct (cores_of it) as [c|] eqn:Ec; [|discriminate].
        destruct (walk_store m cpz az it st c Hz E Ec) as (st1 & _ & Hnext).
        rewrite Hnext. now apply IH.
Qed.

Lemma walk_length_le (m cpz : Z) (l : list choice) (st st' : walk_state) :
  Z.of_nat (length (result st)) <= m -> walk m cpz l st = Ok st' ->
  Z.of_nat (length (result st')) <= m.
Proof.
  apply (walk_invariant (fun s => Z.of_nat (length (result s)) <= m)).
  intros s ch s1 _ HP _ Hne [c n b _ _ _ _ _ _ Hres _ _ _].
  rewrite Hres, length_app, Nat2Z.inj_add. cbn. lia.
Qed.

(** *** Well-formed requests *)

Lemma fully_priced_spec (ec2 : ec2_api) (T azs : list string) :
  fully_priced ec2 T azs = true ->
  forall az t, In az azs -> In t T ->
    exists o, In o (ec2 T az) /\ InstanceType o = t.
Proof.
  unfold fully_priced. intros H az t Haz Ht.
  rewrite forallb_forall in H. specialize (H az Haz).
  rewrite forallb_forall in H. specialize (H t Ht).
  apply existsb_exists in H as (o & Ho & E). apply String.eqb_eq in E.
  now exists o.
Qed.

Lemma sizes_known_spec (ec2 : ec2_api) (T azs : list string) :
  sizes_known ec2 T azs = true ->
  (forall t, In t T -> is_ok (cores_of t) = true) /\
  (forall az o, In az azs -> In o (ec2 T az) ->
                is_ok (cores_of (InstanceType o)) = true).
Proof.
  unfold sizes_known. intros H. apply andb_true_iff in H as [H1 H2].
  rewrite forallb_forall in H1, H2. split; [exact H1|].
  intros az o Haz Ho. specialize (H2 az Haz). rewrite forallb_forall in H2.
  now apply H2.
Qed.

Lemma no_clash_spec (ec2 : ec2_api) (T azs : list string) :
  no_clash ec2 T azs = true ->
  forall az az' t, In az azs -> In az' azs -> az <> az' ->
    In t (row_types ec2 T az') -> str_in az (choice_key (az', t)) = false.
Proof.
  unfold no_clash. intros H az az' t Haz Haz' Hne Ht.
  rewrite forallb_forall in H. specialize (H az Haz).
  rewrite forallb_forall in H. specialize (H az' Haz').
  apply orb_true_iff in H as [H|H].
  - apply String.eqb_eq in H. contradiction.
  - rewrite forallb_forall in H. specialize (H t Ht).
    now apply negb_true_iff in H.
Qed.

Lemma in_table_spec (ec2 : ec2_api) (T azs : list string) (p : pricing)
    (x : choice) :
  get_pricing ec2 T azs = Ok p -> in_table p x ->
  In (fst x) azs /\ In (snd x) (row_types ec2 T (fst x)).
Proof.
  intros Hp (row & q & Hrow & Hq).
  destruct (get_pricing_spec _ _ _ _ Hp) as (_ & _ & Hrows).
  destruct (Hrows _ _ Hrow) as [Haz [_ Hr]]. split; [exact Haz|].
  destruct (fromkeys_spec String.eqb String.eqb_eq T (None : option quote))
    as (Hnd & Hk & _).
  destruct (record_results_spec _ _ _ Hr Hnd) as (_ & H2 & _).
  apply in_keys in Hq. apply H2 in Hq as [Hq|(o & Ho & E)];
    unfold row_types; apply in_app_iff.
  - left. now apply Hk.
  - right. apply in_map_iff. now exists o.
Qed.

Lemma zone_in_table (ec2 : ec2_api) (T azs : list string) (p : pricing)
    (az : string) :
  get_pricing ec2 T azs = Ok p -> In az azs ->
  exists t, in_table p (az, t).
Proof.
  intros Hp Haz.
  destruct (get_pricing_spec _ _ _ _ Hp) as (_ & Hk & Hrows).
  apply Hk, keys_in in Haz as [row Hrow].
  destruct (Hrows _ _ Hrow) as [_ [Hne Hr]].
  destruct (fromkeys_spec String.eqb String.eqb_eq T (None : option quote))
    as (Hnd & _ & _).
  destruct (record_results_spec _ _ _ Hr Hnd) as (_ & H2 & _).
  destruct (ec2 T az) as [|o obs] eqn:E; [contradiction|].
  assert (Hin : In (InstanceType o) (Dict.keys row)).
  { apply H2. right. exists o. split; [now left | reflexivity]. }
  apply keys_in in Hin as [q Hq].
  exists (InstanceType o), row, q. now split.
Qed.

Lemma sizes_in_table (ec2 : ec2_api) (T azs : list string) (p : pricing)
    (x : choice) :
  sizes_known ec2 T azs = true ->
  get_pricing ec2 T azs = Ok p -> in_table p x ->
  is_ok (cores_of (snd x)) = true.
Proof.
  intros Hs Hp Hx. destruct (sizes_known_spec _ _ _ Hs) as [H1 H2].
  destruct (in_table_spec _ _ _ _ _ Hp Hx) as [Haz Ht].
  unfold row_types in Ht. apply in_app_iff in Ht as [Ht|Ht]; [now apply H1|].
  apply in_map_iff in Ht as (o & <- & Ho). now apply (H2 (fst x)).
Qed.

Lemma clash_free_table (ec2 : ec2_api) (T azs : list string) (p : pricing)
    (l : list choice) :
  no_clash ec2 T azs = true ->
  get_pricing ec2 T azs = Ok p ->
  (forall x, In x l -> in_table p x) ->
  clash_free l.
Proof.
  intros Hn Hp Hl [az t] [az' t'] Hx Hy Hne. cbn [fst] in *.
  destruct (in_table_spec _ _ _ _ _ Hp (Hl _ Hx)) as [Haz _].
  destruct (in_table_spec _ _ _ _ _ Hp (Hl _ Hy)) as [Haz' Ht'].
  now apply (no_clash_spec _ _ _ Hn).
Qed.

Lemma priced_rows (ec2 : ec2_api) (T azs : list string) (p : pricing)
    (az t : string) (row : price_row) (q : option quote) :
  fully_priced ec2 T azs = true ->
  get_pricing ec2 T azs = Ok p ->
  In (az, row) p -> In (t, q) row -> q <> None.
Proof.
  intros Hf Hp Hrow Hq.
  destruct (get_pricing_spec _ _ _ _ Hp) as (_ & _ & Hrows).
  destruct (Hrows _ _ Hrow) as [Haz [_ Hr]].
  destruct (fromkeys_spec String.eqb String.eqb_eq T (None : option quote))
    as (Hnd & Hk & Hv).
  destruct (record_results_spec _ _ _ Hr Hnd) as (_ & _ & H3 & _).
  destruct (H3 _ _ Hq) as [[Hno H0]|(o & c & _ & _ & _ & ->)]; [|discriminate].
  exfalso. apply Hv in H0 as [Ht _].
  destruct (fully_priced_spec _ _ _ Hf az t Haz Ht) as (o & Ho & E).
  now apply (Hno o).
Qed.

(** A fully priced request of known sizes gets a plan: no step of
    [get_cheap_cores] raises. *)
Lemma get_cheap_cores_total (ec2 : ec2_api) (R : Z) (T azs : list string)
    (m : Z) :
  fully_priced ec2 T azs = true -> sizes_known ec2 T azs = true ->
  T <> [] -> m <> 0 ->
  exists chosen, get_cheap_cores ec2 R T azs m = Ok chosen.
Proof.
  intros Hf Hs HT Hm. destruct (sizes_known_spec _ _ _ Hs) as [Hs1 Hs2].
  assert (Hne : forall az, In az azs -> ec2 T az <> []).
  { intros az Haz E. destruct T as [|t T]; [contradiction|].
    destruct (fully_priced_spec _ _ _ Hf az t Haz (or_introl eq_refl))
      as (o & Ho & _).
    rewrite E in Ho. destruct Ho. }
  destruct (fetch_zones_total ec2 T azs (Dict.fromkeys String.eqb azs [])
              Hne Hs2) as [p Hp].
  fold (get_pricing ec2 T azs) in Hp.
  assert (Hkeys : Forall (fun k => k <> None)
                    (Dict.keys (sort_by_price p))).
  { apply Forall_forall. intros k Hk. unfold sort_by_price in Hk.
    apply keys_sort_zones in Hk as [[]|(az & row & t & q & H1 & H2 & ->)].
    pose proof (priced_rows _ _ _ _ _ _ _ _ Hf Hp H1 H2) as Hq.
    destruct q; [discriminate | contradiction]. }
  destruct (sorted_total _ Hkeys) as [ks Hks].
  assert (Hr : ranking (sort_by_price p)
               = Ok (concat (map (group_of (sort_by_price p)) ks))).
  { unfold ranking. now rewrite Hks. }
  destruct (plan_shares_total R T m HT Hs1 Hm) as [sh Hsh].
  destruct (walk_total m (cores_per_az sh)
              (concat (map (group_of (sort_by_price p)) ks))
              {| result := []; left_cores := 0;
                 spare_cores := spare_cores0 sh |}) as [st Hst].
  { intros x Hx. apply (sizes_in_table _ _ _ _ _ Hs Hp).
    now apply (ranking_in _ _ _ Hr). }
  exists (result st). unfold get_cheap_cores.
  rewrite Hp. cbn [bind]. rewrite Hr. cbn [bind]. rewrite Hsh. cbn [bind].
  rewrite Hst. reflexivity.
Qed.

(** *** How many zones, and which *)

Lemma walk_distinct (m cpz : Z) (l : list choice) (st st' : walk_state) :
  NoDup (map zone_of (result st)) ->
  (forall e, In e (result st) -> In (fst e) l) ->
  walk m cpz l st = Ok st' ->
  NoDup (map zone_of (result st')) /\
  (forall e, In e (result st') -> In (fst e) l).
Proof.
  intros H1 H2.
  apply (walk_invariant
           (fun s => NoDup (map zone_of (result s)) /\
                     forall e, In e (result s) -> In (fst e) l));
    [|now split].
  intros s ch s1 Hch [Hnd Hin] Hz _ [c n b _ _ _ _ _ _ Hres _ _ _].
  rewrite Hres. split.
  - rewrite map_app. cbn [map]. apply NoDup_app; [exact Hnd | | ].
    + repeat constructor. intros [].
    + intros z Hz' [<-|[]]. apply az_in_keys_chosen in Hz'.
      unfold zone_of in Hz'. cbn [fst] in Hz'. congruence.
  - intros e He. apply in_app_iff in He as [He|[<-|[]]]; auto.
Qed.

Lemma length_le_zone_count (chosen : plan) (azs : list string) :
  NoDup (map zone_of chosen) -> incl (map zone_of chosen) azs ->
  Z.of_nat (length chosen) <= zone_count azs.
Proof.
  intros Hnd Hincl. unfold zone_count.
  rewrite <- (length_map zone_of chosen). apply inj_le.
  apply NoDup_incl_length; [exact Hnd|].
  intros z Hz. apply nodup_In. now apply Hincl.
Qed.

(** Whatever the zone names, a returned plan has one entry per chosen
    zone, every entry a pair of the table, and no more than [m] of them. *)
Lemma plan_zones (ec2 : ec2_api) (R : Z) (T azs : list string) (m : Z)
    (chosen : plan) :
  get_cheap_cores ec2 R T azs m = Ok chosen -> 0 < m ->
  exists p,
    get_pricing ec2 T azs = Ok p /\
    NoDup (map zone_of chosen) /\
    (forall e, In e chosen -> in_table p (fst e)) /\
    incl (map zone_of chosen) azs /\
    Z.of_nat (length chosen) <= Z.min m (zone_count azs).
Proof.
  intros H Hm.
  destruct (get_cheap_cores_inv _ _ _ _ _ _ H)
    as (p & l & sh & st & Hp & Hr & _ & Hw & ->).
  destruct (walk_distinct m (cores_per_az sh) l
              {| result := []; left_cores := 0;
                 spare_cores := spare_cores0 sh |} st) as [Hnd Hin];
    [constructor | intros e [] | exact Hw |].
  assert (Htab : forall e, In e (result st) -> in_table p (fst e)).
  { intros e He. apply (ranking_in _ _ _ Hr). now apply Hin. }
  assert (Hincl : incl (map zone_of (result st)) azs).
  { intros z Hz. apply in_map_iff in Hz as (e & <- & He).
    now destruct (in_table_spec _ _ _ _ _ Hp (Htab e He)). }
  exists p. repeat split; auto.
  apply Z.min_glb.
  - apply (walk_length_le m (cores_per_az sh) l
             {| result := []; left_cores := 0;
                spare_cores := spare_cores0 sh |} st); [cbn; lia | exact Hw].
  - now apply length_le_zone_count.
Qed.

(** With names that cannot be mistaken for one another the walk takes
    [min(m, zones)] zones, going for the cheapest pair of each before any
    pair of a zone it leaves out. *)
Lemma plan_selection (ec2 : ec2_api) (R : Z) (T azs : list string) (m : Z)
    (chosen : plan) (p : pricing) :
  get_cheap_cores ec2 R T azs m = Ok chosen -> 0 < m ->
  no_clash ec2 T azs = true ->
  get_pricing ec2 T azs = Ok p ->
  Z.of_nat (length chosen) = Z.min m (zone_count azs) /\
  forall e y, In e chosen -> in_table p y ->
    fst y = zone_of e \/ ~ In (fst y) (map zone_of chosen) ->
    no_dearer p (fst e) y.
Proof.
  intros H Hm Hn Hp.
  destruct (plan_zones _ _ _ _ _ _ H Hm)
    as (p' & Hp' & Hnd & _ & Hincl & Hlen).
  destruct (get_cheap_cores_inv _ _ _ _ _ _ H)
    as (p'' & l & sh & st & Hp'' & Hr & _ & Hw & ->).
  assert (p'' = p) by congruence. subst p''. clear Hp' p'.
  pose proof (get_pricing_wf _ _ _ _ Hp) as Hwf.
  assert (Hcf : clash_free ([] ++ l)).
  { apply (clash_free_table _ _ _ _ _ Hn Hp). intros x Hx.
    now apply (ranking_in _ _ _ Hr). }
  destruct (walk_selection (no_dearer p) m (cores_per_az sh)
              (fun a => Qle_refl _) l []
              {| result := []; left_cores := 0;
                 spare_cores := spare_cores0 sh |} st Hcf
              (fun a b (F : In a []) => match F with end)
              (ranking_sorted _ _ Hwf Hr))
    as (done & rest & E & Hinv & Hend & Hle); [|exact Hw|].
  { repeat split; cbn; auto using NoDup_nil; intros; contradiction. }
  cbn [app] in E. destruct Hinv as (H1 & _ & H3 & H4). split.
  - destruct Hend as [->|Hfull]; [|lia].
    rewrite app_nil_r in E. subst done.
    assert (zone_count azs <= Z.of_nat (length (result st))); [|lia].
    unfold zone_count. rewrite <- (length_map zone_of (result st)).
    apply inj_le. apply NoDup_incl_length; [apply NoDup_nodup|].
    intros az Haz. apply nodup_In in Haz.
    destruct (zone_in_table _ _ _ _ _ Hp Haz) as [t Ht].
    apply (ranking_in _ _ _ Hr) in Ht. now apply (H3 (az, t)).
  - intros e y He Hy Hzone.
    apply (ranking_in _ _ _ Hr) in Hy. rewrite E in Hy.
    apply in_app_iff in Hy as [Hy|Hy].
    + destruct Hzone as [Ez|Hout]; [now apply H4|].
      exfalso. apply Hout. now apply H3.
    + apply Hle; [now apply H1 | exact Hy].
Qed.

Lemma walk_zero (m : Z) (l : list choice) (st' : walk_state) :
  walk m 0 l {| result := []; left_cores := 0; spare_cores := 0 |} = Ok st' ->
  forall e, In e (result st') -> units_of e = 0.
Proof.
  intros Hw.
  assert (H : left_cores st' = 0 /\ spare_cores st' = 0 /\
              forall e, In e (result st') -> units_of e = 0).
  { revert Hw.
    apply (walk_invariant
             (fun s => left_cores s = 0 /\ spare_cores s = 0 /\
                       forall e, In e (result s) -> units_of e = 0)).
    - intros s ch s1 _ (Hl & Hsp & Hu) _ _
             [c n b Hc Hn Hb Hsum Hlt Hpos Hres Hspare Hone _].
      pose proof (cores_of_pos _ _ Hc) as Hcpos.
      assert (n = 0) by nia. subst n.
      assert (Hl1 : left_cores s1 = 0) by lia.
      assert (b = 0) by (destruct Hb as [->| ->]; [reflexivity | lia]).
      subst b. repeat split; try lia.
      intros e He. rewrite Hres in He.
      apply in_app_iff in He as [He|[<-|[]]]; [now apply Hu | reflexivity].
    - cbn. repeat split; auto. intros e []. }
  apply H.
Qed.

Lemma zero_units_no_cores (chosen : plan) :
  (forall e, In e chosen -> units_of e = 0) -> plan_cores chosen = 0.
Proof.
  induction chosen as [|e chosen IH]; intros H; cbn [plan_cores fold_right];
    [reflexivity|].
  fold (plan_cores chosen). rewrite IH, (H e); [lia | now left |].
  intros e' He'. apply H. now right.
Qed.

(** C2, as the code has it: for a fully priced request of known sizes
    and [m > 0], [get_cheap_cores] returns a plan whatever the number of
    zones, with no error when there are fewer than [m]; its entries are
    for distinct zones of the request, at most [min(m, zones)] of them,
    and exactly that many when no zone name occurs inside a key of
    another zone. *)
Theorem plan_spans_zones (ec2 : ec2_api) (R : Z) (T azs : list string)
    (m : Z) :
  fully_priced ec2 T azs = true -> sizes_known ec2 T azs = true ->
  T <> [] -> 0 < m ->
  exists chosen,
    get_cheap_cores ec2 R T azs m = Ok chosen /\
    NoDup (map zone_of chosen) /\
    incl (map zone_of chosen) azs /\
    Z.of_nat (length chosen) <= Z.min m (zone_count azs) /\
    (no_clash ec2 T azs = true ->
     Z.of_nat (length chosen) = Z.min m (zone_count azs)).
Proof.
  intros Hf Hs HT Hm.
  destruct (get_cheap_cores_total ec2 R T azs m Hf Hs HT) as [chosen H];
    [lia|].
  destruct (plan_zones _ _ _ _ _ _ H Hm) as (p & Hp & Hnd & _ & Hincl & Hlen).
  exists chosen. repeat split; auto.
  intros Hn. now destruct (plan_selection _ _ _ _ _ _ _ H Hm Hn Hp).
Qed.

Lemma plan_spans_zones_witness :
  no_clash flat_ec2 ["m5.xlarge"] ["us-east-1a"; "us-east-1b"] = true /\
  exists chosen,
    get_cheap_cores flat_ec2 100 ["m5.xlarge"] ["us-east-1a"; "us-east-1b"] 3
    = Ok chosen /\
    NoDup (map zone_of chosen) /\
    incl (map zone_of chosen) ["us-east-1a"; "us-east-1b"] /\
    Z.of_nat (length chosen)
    <= Z.min 3 (zone_count ["us-east-1a"; "us-east-1b"]) /\
    (no_clash flat_ec2 ["m5.xlarge"] ["us-east-1a"; "us-east-1b"] = true ->
     Z.of_nat (length chosen)
     = Z.min 3 (zone_count ["us-east-1a"; "us-east-1b"])).
Proof.
  split; [reflexivity|].
  apply (plan_spans_zones flat_ec2 100 ["m5.xlarge"]
           ["us-east-1a"; "us-east-1b"] 3).
  - reflexivity.
  - reflexivity.
  - discriminate.
  - lia.
Defined.

(** C2 as stated fails: with two zones, both priced, and three asked for,
    a plan over the two zones comes back instead of an error. *)
Lemma fewer_zones_no_error :
  exists chosen,
    zone_count ["us-east-1a"; "us-east-1b"] < 3 /\
    get_cheap_cores flat_ec2 100 ["m5.xlarge"] ["us-east-1a"; "us-east-1b"] 3
    = Ok chosen /\
    map zone_of chosen = ["us-east-1a"; "us-east-1b"].
Proof.
  eexists. split; [vm_compute; reflexivity|].
  split; [vm_compute; reflexivity | reflexivity].
Qed.

Lemma zero_shares (T : list string) (m : Z) (sh : shares) :
  plan_shares 0 T m = Ok sh -> cores_per_az sh = 0 /\ spare_cores0 sh = 0.
Proof.
  intros H. destruct (plan_shares_spec _ _ _ _ H) as (_ & _ & Hnz & -> & ->).
  now rewrite Z.div_0_l, Z.mod_0_l by exact Hnz.
Qed.

(** X23: a request for no cores, fully priced, of known sizes and with
    [m > 0], raises nothing and returns a plan whose
    entries all have zero units, so no cores at all; when no zone name
    occurs inside a key of another zone the plan has [min(m, zones)]
    entries, each no dearer per core than any pair of its own zone or of a
    zone left out. *)
Theorem zero_request_plan (ec2 : ec2_api) (T azs : list string) (m : Z) :
  fully_priced ec2 T azs = true -> sizes_known ec2 T azs = true ->
  T <> [] -> 0 < m ->
  exists chosen p,
    get_cheap_cores ec2 0 T azs m = Ok chosen /\
    get_pricing ec2 T azs = Ok p /\
    (forall e, In e chosen -> units_of e = 0) /\
    plan_cores chosen = 0 /\
    (no_clash ec2 T azs = true ->
     Z.of_nat (length chosen) = Z.min m (zone_count azs) /\
     forall e y, In e chosen -> in_table p y ->
       fst y = zone_of e \/ ~ In (fst y) (map zone_of chosen) ->
       no_dearer p (fst e) y).
Proof.
  intros Hf Hs HT Hm.
  destruct (get_cheap_cores_total ec2 0 T azs m Hf Hs HT) as [chosen H];
    [lia|].
  destruct (get_cheap_cores_inv _ _ _ _ _ _ H)
    as (p & l & sh & st & Hp & _ & Hsh & Hw & E).
  destruct (zero_shares _ _ _ Hsh) as [E1 E2]. rewrite E1, E2 in Hw.
  pose proof (walk_zero _ _ _ Hw) as Hzero. rewrite <- E in Hzero.
  exists chosen, p.
  split; [exact H|]. split; [exact Hp|]. split; [exact Hzero|].
  split; [now apply zero_units_no_cores|].
  intros Hn. exact (plan_selection _ _ _ _ _ _ _ H Hm Hn Hp).
Qed.

Lemma zero_request_plan_witness :
  no_clash flat_ec2 ["m5.large"; "m5.xlarge"]
    ["us-east-1a"; "us-east-1b"; "us-east-1c"] = true /\
  exists chosen p,
    get_cheap_cores flat_ec2 0 ["m5.large"; "m5.xlarge"]
      ["us-east-1a"; "us-east-1b"; "us-east-1c"] 3 = Ok chosen /\
    get_pricing flat_ec2 ["m5.large"; "m5.xlarge"]
      ["us-east-1a"; "us-east-1b"; "us-east-1c"] = Ok p /\
    (forall e, In e chosen -> units_of e = 0) /\
    plan_cores chosen = 0 /\
    (no_clash flat_ec2 ["m5.large"; "m5.xlarge"]
       ["us-east-1a"; "us-east-1b"; "us-east-1c"] = true ->
     Z.of_nat (length chosen)
     = Z.min 3 (zone_count ["us-east-1a"; "us-east-1b"; "us-east-1c"]) /\
     forall e y, In e chosen -> in_table p y ->
       fst y = zone_of e \/ ~ In (fst y) (map zone_of chosen) ->
       no_dearer p (fst e) y).
Proof.
  split; [reflexivity|].
  apply (zero_request_plan flat_ec2 ["m5.large"; "m5.xlarge"]
           ["us-east-1a"; "us-east-1b"; "us-east-1c"] 3).
  - reflexivity.
  - reflexivity.
  - discriminate.
  - lia.
Defined.

(** C9, at the failing input: zones "us-east-1" and "us-east-1a" are both
    priced and two zones are asked for, with no cores.  "us-east-1a" is
    the cheaper and is chosen first; "us-east-1" is then skipped, because
    its name occurs inside the key "us-east-1a|m5.large".  The plan has
    that one entry, not an entry of zero units for each of the two
    zones. *)
Theorem zero_request_one_zone :
  fully_priced prefix_ec2 ["m5.large"] ["us-east-1"; "us-east-1a"] = true /\
  zone_count ["us-east-1"; "us-east-1a"] = 2 /\
  az_in_keys "us-east-1" [(("us-east-1a", "m5.large"), 0)] = true /\
  get_cheap_cores prefix_ec2 0 ["m5.large"] ["us-east-1"; "us-east-1a"] 2
  = Ok [(("us-east-1a", "m5.large"), 0)].
Proof.
  split; [reflexivity|]. split; [reflexivity|].
  split; [reflexivity|]. vm_compute. reflexivity.
Qed.

End SpotProps.

(** * Further properties *)

(** ** The planner's helpers *)

Module SpotMore.
Import Spot SpotProps.

Local Open Scope list_scope.

(** *** Instance type names *)

Lemma split_dot_nonempty (s : string) : split_dot s <> [].
Proof.
  destruct s as [|c s]; cbn [split_dot]; [discriminate|].
  destruct (Ascii.eqb c "."); [discriminate|].
  destruct (split_dot s); discriminate.
Qed.

(** Splitting what was joined with a dot gives the pieces of both sides. *)
Lemma split_dot_join (a b : string) :
  split_dot (a ++ "." ++ b)%string = split_dot a ++ split_dot b.
Proof.
  induction a as [|c a IH].
  - reflexivity.
  - change (String c a ++ "." ++ b)%string with (String c (a ++ "." ++ b)%string).
    cbn [split_dot]. rewrite IH.
    destruct (Ascii.eqb c "."); [reflexivity|].
    pose proof (split_dot_nonempty a) as Hne.
    destruct (split_dot a) as [|piece pieces]; [contradiction | reflexivity].
Qed.

Lemma split_dot_no_dot (s : string) :
  str_in "." s = false -> split_dot s = [s].
Proof.
  induction s as [|c s IH]; [reflexivity|].
  cbn [str_in String.prefix]. intros H. apply orb_false_iff in H as [H1 H2].
  cbn [split_dot]. destruct (Ascii.eqb_spec c ".") as [->|Hc].
  - exfalso. destruct (ascii_dec "." "."); [|congruence].
    destruct s; discriminate.
  - now rewrite (IH H2).
Qed.

Lemma pop_app (l : list string) (x : string) : pop (l ++ [x]) = x.
Proof. unfold pop. apply last_last. Qed.

(** X1: the core count of [family.size] is the [_CORES] entry of [size],
    whatever the family and however many dots it has, and a [KeyError]
    when [size] is not listed. *)
Theorem cores_of_reads_last_piece (family size : string) :
  str_in "." size = false ->
  cores_of (family ++ "." ++ size)%string
  = match Dict.get String.eqb size _CORES with
    | Some c => Ok c
    | None => Raise KeyError
    end.
Proof.
  intros H. unfold cores_of.
  rewrite split_dot_join, (split_dot_no_dot _ H), pop_app. reflexivity.
Qed.

Lemma cores_of_reads_last_piece_witness :
  cores_of "c5d.metal.2xlarge" = Ok 8.
Proof.
  exact (cores_of_reads_last_piece "c5d.metal" "2xlarge" eq_refl).
Defined.

(** *** The price table *)

Lemma record_results_get (results : list observation) (row0 row : price_row)
    (t : string) :
  record_results results row0 = Ok row ->
  match last_obs t results with
  | Some o =>
      exists c, cores_of t = Ok c /\
                Dict.get String.eqb t row = Some (Some (quote_from o c))
  | None => Dict.get String.eqb t row = Dict.get String.eqb t row0
  end.
Proof.
  revert row0; induction results as [|o rest IH]; intros row0 H;
    cbn [record_results last_obs] in *.
  - now inversion H.
  - destruct (cores_of (InstanceType o)) as [c|] eqn:Ec; cbn [bind] in H;
      [|discriminate].
    destruct (c =? 0); [discriminate|].
    specialize (IH _ H). destruct (last_obs t rest) as [o'|]; [exact IH|].
    rewrite IH, (get_set String.eqb String.eqb_eq).
    destruct (String.eqb_spec t (InstanceType o)) as [->|Hne].
    + now exists c.
    + reflexivity.
Qed.




(** X3: [get_pricing] keeps one row per distinct zone asked for, and in
    each row one entry per type requested or observed in that zone. *)
Theorem price_table_keys (ec2 : ec2_api) (T azs : list string) (p : pricing) :
  get_pricing ec2 T azs = Ok p ->
  NoDup (Dict.keys p) /\
  (forall az, In az (Dict.keys p) <-> In az azs) /\
  forall az row, In (az, row) p ->
    NoDup (Dict.keys row) /\
    forall t, In t (Dict.keys row) <->
              In t T \/ exists o, In o (ec2 T az) /\ InstanceType o = t.
Proof.
  intros Hp. destruct (get_pricing_spec _ _ _ _ Hp) as (Hnd & Hk & Hrows).
  split; [exact Hnd|]. split; [exact Hk|]. intros az row Hrow.
  destruct (Hrows _ _ Hrow) as [_ [_ Hr]].
  destruct (fromkeys_spec String.eqb String.eqb_eq T (None : option quote))
    as (Hnd0 & Hk0 & _).
  destruct (record_results_spec _ _ _ Hr Hnd0) as (H1 & H2 & _).
  split; [exact H1|]. intros t. rewrite H2, Hk0. reflexivity.
Qed.

Lemma price_table_keys_witness :
  exists p,
    get_pricing repeat_ec2 ["m5.large"; "c5.large"]
      ["us-east-1a"; "us-east-1b"; "us-east-1a"] = Ok p /\
    Dict.keys p = ["us-east-1a"; "us-east-1b"] /\
    NoDup (Dict.keys p) /\
    (forall az, In az (Dict.keys p) <->
                In az ["us-east-1a"; "us-east-1b"; "us-east-1a"]) /\
    forall az row, In (az, row) p ->
      NoDup (Dict.keys row) /\
      forall t, In t (Dict.keys row) <->
        In t ["m5.large"; "c5.large"] \/
        exists o, In o (repeat_ec2 ["m5.large"; "c5.large"] az) /\
                  InstanceType o = t.
Proof.
  eexists. split; [vm_compute; reflexivity|]. split; [reflexivity|].
  apply (price_table_keys repeat_ec2 ["m5.large"; "c5.large"]
           ["us-east-1a"; "us-east-1b"; "us-east-1a"]).
  vm_compute. reflexivity.
Defined.

Lemma record_results_raise (results : list observation) (row0 : price_row)
    (e : exn) :
  record_results results row0 = Raise e ->
  exists o, In o results /\ is_ok (cores_of (InstanceType o)) = false.
Proof.
  revert row0; induction results as [|o rest IH]; intros row0;
    cbn [record_results]; [discriminate|].
  destruct (cores_of (InstanceType o)) as [c|e'] eqn:Ec; cbn [bind].
  - apply cores_of_pos in Ec. destruct (Z.eqb_spec c 0); [lia|].
    intros H. destruct (IH _ H) as (o' & Ho' & Hb).
    exists o'. split; [now right | exact Hb].
  - intros _. exists o. split; [now left | now rewrite Ec].
Qed.

Lemma fetch_zones_empty (ec2 : ec2_api) (T azs : list string) (p0 : pricing)
    (az : string) :
  In az azs -> ec2 T az = [] ->
  exists e, fetch_zones ec2 T azs p0 = Raise e /\
    (e = TypeError \/
     (e = KeyError /\ exists az' o, In az' azs /\ In o (ec2 T az') /\
        is_ok (cores_of (InstanceType o)) = false)).
Proof.
  revert p0; induction azs as [|az1 azs IH]; intros p0 Hin Hempty; [easy|].
  cbn [fetch_zones].
  destruct (get_latest_price_spec ec2 T az1) as [[_ E]|[Hne E]]; rewrite E.
  - exists TypeError. split; [reflexivity | now left].
  - destruct (record_results _ _) as [row|e'] eqn:Er; cbn [bind].
    + destruct Hin as [->|Hin]; [contradiction|].
      destruct (IH (Dict.set String.eqb az1 row p0) Hin Hempty)
        as (e & He & [->|[-> (az' & o & H1 & H2 & H3)]]).
      * exists TypeError. split; [exact He | now left].
      * exists KeyError. split; [exact He|]. right. split; [reflexivity|].
        exists az', o. split; [now right | now split].
    + exists e'. split; [reflexivity|]. right.
      rewrite (record_results_error _ _ _ Er). split; [reflexivity|].
      destruct (record_results_raise _ _ _ Er) as (o & Ho & Hb).
      exists az1, o. split; [now left | now split].
Qed.

(** X4: a zone without any observation makes [get_pricing], and with it
    [get_cheap_cores], raise: a [TypeError] (the loop runs over [None]),
    unless an observation of an unlisted size raised [KeyError] first. *)
Theorem empty_history_raises (ec2 : ec2_api) (T azs : list string)
    (az : string) :
  In az azs -> ec2 T az = [] ->
  (exists e, get_pricing ec2 T azs = Raise e /\
     (forall R m, get_cheap_cores ec2 R T azs m = Raise e) /\
     (e = TypeError \/ e = KeyError)) /\
  ((forall az' o, In az' azs -> In o (ec2 T az') ->
                  is_ok (cores_of (InstanceType o)) = true) ->
   get_pricing ec2 T azs = Raise TypeError).
Proof.
  intros Hin Hempty.
  destruct (fetch_zones_empty ec2 T azs (Dict.fromkeys String.eqb azs [])
              az Hin Hempty) as (e & He & Hkind).
  fold (get_pricing ec2 T azs) in He. split.
  - exists e. split; [exact He|]. split.
    + intros R m. unfold get_cheap_cores. now rewrite He.
    + destruct Hkind as [->|[-> _]]; auto.
  - intros Hok. destruct Hkind as [->|[-> (az' & o & H1 & H2 & H3)]];
      [exact He|].
    rewrite (Hok az' o H1 H2) in H3. discriminate.
Qed.

Lemma empty_history_raises_witness :
  get_pricing gap_ec2 ["m5.xlarge"] ["us-east-1a"; "us-east-1b"]
  = Raise TypeError.
Proof.
  apply (empty_history_raises gap_ec2 ["m5.xlarge"]
           ["us-east-1a"; "us-east-1b"] "us-east-1b").
  - right. left. reflexivity.
  - reflexivity.
  - intros az' o [<-|[<-|[]]] Ho; vm_compute in Ho.
    + destruct Ho as [<-|[]]. reflexivity.
    + destruct Ho.
Defined.

(** *** The table of choices and the ranking *)

Lemma keys_apart_set (k : price_key) (v : list choice) (tbl : choices_table) :
  keys_apart (Dict.keys tbl) ->
  keys_apart (Dict.keys (Dict.set price_key_eqb k v tbl)).
Proof.
  intros [Hnd Heq]. rewrite keys_set. unfold Dict.mem.
  destruct (Dict.get price_key_eqb k tbl) eqn:E; [now split|].
  pose proof (proj1 (get_none_equiv price_key_eqb k tbl) E) as Hfresh.
  split.
  - apply NoDup_app; [exact Hnd | repeat constructor; intros [] | ].
    intros x Hx [<-|[]]. pose proof (Hfresh _ Hx) as F.
    rewrite pk_refl in F. discriminate.
  - intros a b Ha Hb Hab.
    apply in_app_iff in Ha as [Ha|[<-|[]]];
      apply in_app_iff in Hb as [Hb|[<-|[]]]; auto.
    + rewrite pk_sym, (Hfresh _ Ha) in Hab. discriminate.
    + rewrite (Hfresh _ Hb) in Hab. discriminate.
Qed.

Lemma keys_apart_sort_row (az : string) (row : price_row)
    (tbl : choices_table) :
  keys_apart (Dict.keys tbl) -> keys_apart (Dict.keys (sort_row az row tbl)).
Proof.
  revert tbl; induction row as [|[t q] row IH]; intros tbl H;
    cbn [sort_row]; [exact H|].
  apply IH. destruct (Dict.get price_key_eqb (get_core_price q) tbl);
    now apply keys_apart_set.
Qed.

Lemma keys_apart_sort_zones (p : pricing) (tbl : choices_table) :
  keys_apart (Dict.keys tbl) -> keys_apart (Dict.keys (sort_zones p tbl)).
Proof.
  revert tbl; induction p as [|[az row] p IH]; intros tbl H;
    cbn [sort_zones]; [exact H|].
  now apply IH, keys_apart_sort_row.
Qed.

Lemma groups_keys_apart (p : pricing) :
  keys_apart (Dict.keys (sort_by_price p)).
Proof.
  apply keys_apart_sort_zones. split; [constructor | intros a b []].
Qed.

Lemma group_key (tbl : choices_table) (k : price_key) (x : choice) :
  In x (group_of tbl k) ->
  exists k', In k' (Dict.keys tbl) /\ price_key_eqb k k' = true.
Proof.
  unfold group_of.
  destruct (Dict.get price_key_eqb k tbl) eqn:E; [|intros []]. intros _.
  destruct (existsb (price_key_eqb k) (Dict.keys tbl)) eqn:Ex.
  - apply existsb_exists in Ex as (k' & ? & ?). now exists k'.
  - assert (Dict.get price_key_eqb k tbl = None); [|congruence].
    apply get_none_equiv. intros k' Hk'.
    destruct (price_key_eqb k k') eqn:Ek; [|reflexivity].
    assert (existsb (price_key_eqb k) (Dict.keys tbl) = true); [|congruence].
    apply existsb_exists. now exists k'.
Qed.

Lemma groups_by_price_in (p : pricing) (az : string) (row : price_row)
    (t : string) (q : option quote) :
  In (az, row) p -> In (t, q) row ->
  exists k, In k (Dict.keys (sort_by_price p)) /\
            price_key_eqb (get_core_price q) k = true.
Proof.
  intros H1 H2. apply (group_key _ _ (az, t)).
  rewrite group_sort_by_price. apply in_pairs_at.
  exists row, q. repeat split; auto. apply pk_refl.
Qed.

(** X5: [sort_by_price] files every pair of the table under its core
    price and nowhere else: the keys are the prices met, each once; the
    group of a key lists the pairs of exactly that price, zone by zone and
    type by type in table order. *)
Theorem groups_by_price (p : pricing) :
  keys_apart (Dict.keys (sort_by_price p)) /\
  (forall k, In k (Dict.keys (sort_by_price p)) ->
     exists az row t q,
       In (az, row) p /\ In (t, q) row /\ k = get_core_price q) /\
  (forall k, group_of (sort_by_price p) k = pairs_at k p) /\
  (forall az row t q,
     In (az, row) p -> In (t, q) row ->
     In (az, t) (group_of (sort_by_price p) (get_core_price q))).
Proof.
  split; [|split; [|split]].
  - apply groups_keys_apart.
  - intros k Hk. unfold sort_by_price in Hk.
    now apply keys_sort_zones in Hk as [[]|H].
  - apply group_sort_by_price.
  - intros az row t q H1 H2. rewrite group_sort_by_price.
    apply in_pairs_at. exists row, q. repeat split; auto. apply pk_refl.
Qed.

Lemma NoDup_concat_map {A B : Type} (g : B -> list A) (ks : list B) :
  NoDup ks ->
  (forall k, In k ks -> NoDup (g k)) ->
  (forall k k' x, In k ks -> In k' ks -> k <> k' ->
                  In x (g k) -> In x (g k') -> False) ->
  NoDup (concat (map g ks)).
Proof.
  induction 1 as [|k ks Hk Hnd IH]; intros Hg Hd; cbn [map concat];
    [constructor|].
  apply NoDup_app.
  - apply Hg. now left.
  - apply IH.
    + intros k0 H0. apply Hg. now right.
    + intros k0 k' x H0 H'. apply Hd; now right.
  - intros x Hx Hx'. apply in_concat in Hx' as (l & Hl & Hx').
    apply in_map_iff in Hl as (k' & <- & Hk').
    apply (Hd k k' x); auto; [now left | now right |].
    intros ->. contradiction.
Qed.

Lemma NoDup_pairs_at (k : price_key) (p : pricing) :
  table_wf p -> NoDup (pairs_at k p).
Proof.
  intros [Hnd Hrows]. unfold pairs_at, Dict.keys in *.
  induction p as [|[az row] p IH]; cbn [flat_map fst snd]; [constructor|].
  cbn [map fst] in Hnd. inversion Hnd as [|? ? Hout Hnd']; subst.
  apply NoDup_app.
  - specialize (Hrows az row (or_introl eq_refl)).
    clear - Hrows. unfold Dict.keys in Hrows.
    induction row as [|[t q] row IHr]; cbn [filter]; [constructor|].
    cbn [map fst] in Hrows. inversion Hrows as [|? ? Ht Hrow']; subst.
    destruct (price_key_eqb k (get_core_price (snd (t, q)))); [|auto].
    cbn [map fst]. constructor; [|auto].
    intros Hin. apply in_map_iff in Hin as ([t' q'] & E & Hin).
    cbn [fst] in E. inversion E; subst t'.
    apply filter_In in Hin as [Hin _]. apply Ht.
    apply in_map_iff. now exists (t, q').
  - apply IH; [exact Hnd'|]. intros az' row' H'. apply (Hrows az' row').
    now right.
  - intros [az' t] Hx Hx'.
    apply in_map_iff in Hx as ([t1 q1] & E & _). cbn [fst] in E.
    inversion E; subst az' t1.
    apply in_flat_map in Hx' as ([az2 row2] & Hin2 & Hx'). cbn [fst snd] in Hx'.
    apply in_map_iff in Hx' as ([t2 q2] & E2 & _). cbn [fst] in E2.
    inversion E2; subst az2 t2. apply Hout. apply in_map_iff.
    now exists (az, row2).
Qed.

(** X6: the ranking [get_cheap_cores] walks lists every pair of the price
    table exactly once, from the cheapest core price up. *)
Theorem ranking_enumerates_table (ec2 : ec2_api) (T azs : list string)
    (p : pricing) (l : list choice) :
  get_pricing ec2 T azs = Ok p ->
  ranking (sort_by_price p) = Ok l ->
  NoDup l /\
  (forall x, In x l <-> in_table p x) /\
  StronglySorted (no_dearer p) l.
Proof.
  intros Hp Hr. pose proof (get_pricing_wf _ _ _ _ Hp) as Hwf.
  split; [|split; [intros x; now apply ranking_in | now apply ranking_sorted]].
  destruct (ranking_unfold _ _ Hr) as (ks & Hks & ->).
  destruct (sorted_spec _ _ Hks) as [Hperm _].
  destruct (groups_keys_apart p) as [Hnd Heq].
  apply NoDup_concat_map.
  - now apply (Permutation_NoDup Hperm).
  - intros k _. rewrite group_sort_by_price. now apply NoDup_pairs_at.
  - intros k k' x Hk Hk' Hne Hx Hx'. apply Hne.
    apply Heq; try (now apply (Permutation_in _ (Permutation_sym Hperm))).
    apply (group_price _ _ _ Hwf) in Hx, Hx'.
    rewrite pk_sym in Hx'. eapply pk_trans; eassumption.
Qed.

Lemma ranking_enumerates_table_witness :
  exists p l,
    get_pricing prefix_ec2 ["m5.large"] ["us-east-1"; "us-east-1a"] = Ok p /\
    ranking (sort_by_price p) = Ok l /\
    l = [("us-east-1a", "m5.large"); ("us-east-1", "m5.large")] /\
    NoDup l /\
    (forall x, In x l <-> in_table p x) /\
    StronglySorted (no_dearer p) l.
Proof.
  eexists _, _. split; [vm_compute; reflexivity|].
  split; [vm_compute; reflexivity|]. split; [reflexivity|].
  refine (ranking_enumerates_table prefix_ec2 ["m5.large"]
            ["us-east-1"; "us-east-1a"] _ _ _ _); vm_compute; reflexivity.
Defined.

(** *** When the planner raises *)

Lemma sorted_error (l : list price_key) (e : exn) :
  sorted l = Raise e -> e = TypeError.
Proof.
  revert e; induction l as [|x l IH]; intros e; cbn [sorted]; [discriminate|].
  destruct (sorted l) as [s|e'] eqn:Es; cbn [bind].
  - clear IH Es. revert e. induction s as [|y s IHs]; intros e;
      cbn [insert_key]; [discriminate|].
    destruct (key_lt y x) as [b|e'] eqn:Ek; cbn [bind].
    + destruct b; [|discriminate].
      destruct (insert_key x s) as [r|e''] eqn:Ei; cbn [bind]; [discriminate|].
      intros H; inversion H; subst. now apply IHs.
    + intros H; inversion H; subst.
      destruct y, x; cbn in Ek; congruence.
  - intros H; inversion H; subst. now apply IH.
Qed.

(** Keys can only be sorted when they are all numbers, or at most one. *)
Lemma sorted_ok_keys (l s : list price_key) :
  sorted l = Ok s ->
  (length l <= 1)%nat \/ Forall (fun k => k <> None) l.
Proof.
  revert s; induction l as [|x l IH]; intros s; cbn [sorted].
  - intros _. left. cbn. lia.
  - destruct (sorted l) as [s'|] eqn:Es; cbn [bind]; [|discriminate].
    intros Hi. destruct l as [|y l']; [left; cbn; lia|]. right.
    destruct (sorted_spec _ _ Es) as [Hperm _].
    destruct s' as [|z s''].
    { apply Permutation_sym, Permutation_nil in Hperm. discriminate. }
    cbn [insert_key] in Hi.
    destruct (key_lt z x) as [b|] eqn:Ek; cbn [bind] in Hi; [|discriminate].
    apply key_lt_spec in Ek as (c & a & -> & -> & _).
    constructor; [discriminate|].
    destruct (IH _ eq_refl) as [Hlen|Hall]; [|exact Hall].
    destruct l' as [|? ?]; [|cbn in Hlen; lia].
    apply Permutation_length_1_inv in Hperm. inversion Hperm; subst.
    repeat constructor. discriminate.
Qed.

Lemma priced_entry (ec2 : ec2_api) (T : list string) (az : string)
    (row : price_row) :
  row_of ec2 T az row -> exists t q, In (t, Some q) row.
Proof.
  intros [Hne Hr].
  destruct (fromkeys_spec String.eqb String.eqb_eq T (None : option quote))
    as (Hnd & _ & _).
  destruct (record_results_spec _ _ _ Hr Hnd) as (_ & H2 & H3 & _).
  destruct (ec2 T az) as [|o rest] eqn:E; [contradiction|].
  assert (Hin : In (InstanceType o) (Dict.keys row)).
  { apply H2. right. exists o. split; [now left | reflexivity]. }
  apply keys_in in Hin as [v Hv].
  destruct (H3 _ _ Hv) as [[Hno _]|(o' & c & _ & _ & _ & ->)].
  - exfalso. apply (Hno o); [now left | reflexivity].
  - eexists _, _. exact Hv.
Qed.

Lemma unpriced_pair_raises (ec2 : ec2_api) (T azs : list string) (p : pricing)
    (az t : string) :
  get_pricing ec2 T azs = Ok p ->
  In az azs -> In t T ->
  (forall o, In o (ec2 T az) -> InstanceType o <> t) ->
  ranking (sort_by_price p) = Raise TypeError.
Proof.
  intros Hp Haz Ht Hno.
  destruct (get_pricing_spec _ _ _ _ Hp) as (_ & Hk & Hrows).
  assert (Hin : In az (Dict.keys p)) by now apply Hk.
  apply keys_in in Hin as [row Hrow].
  destruct (Hrows _ _ Hrow) as [_ Hr].
  destruct (placeholder_kept _ _ _ _ _ Hr Ht Hno) as [_ Hnone].
  destruct (priced_entry _ _ _ _ Hr) as (t' & q' & Hsome).
  destruct (groups_by_price_in p az row t None Hrow Hnone) as (k1 & Hk1 & E1).
  destruct (groups_by_price_in p az row t' (Some q') Hrow Hsome)
    as (k2 & Hk2 & E2).
  cbn [get_core_price option_map] in E1, E2.
  destruct k1 as [?|]; [discriminate|]. destruct k2 as [c2|]; [|discriminate].
  unfold ranking.
  destruct (sorted (Dict.keys (sort_by_price p))) as [s|e] eqn:Es; cbn [bind].
  - exfalso. destruct (sorted_ok_keys _ _ Es) as [Hlen|Hall].
    + destruct (Dict.keys (sort_by_price p)) as [|a [|b l]];
        [destruct Hk1 | | cbn in Hlen; lia].
      destruct Hk1 as [->|[]]. destruct Hk2 as [|[]]. discriminate.
    + rewrite Forall_forall in Hall. now apply (Hall None).
  - now rewrite (sorted_error _ _ Es).
Qed.

(** X7: when [get_pricing] returns a table in which a requested pair has
    no observation, the keys of the choices, [None] among numbers, cannot
    be sorted: [get_cheap_cores] raises [TypeError] for every request. *)
Theorem partial_pricing_is_type_error (ec2 : ec2_api) (T azs : list string)
    (p : pricing) (az t : string) :
  get_pricing ec2 T azs = Ok p ->
  In az azs -> In t T ->
  (forall o, In o (ec2 T az) -> InstanceType o <> t) ->
  forall R m, get_cheap_cores ec2 R T azs m = Raise TypeError.
Proof.
  intros Hp Haz Ht Hno R m. unfold get_cheap_cores. rewrite Hp. cbn [bind].
  now rewrite (unpriced_pair_raises _ _ _ _ _ _ Hp Haz Ht Hno).
Qed.

Lemma partial_pricing_is_type_error_witness :
  get_cheap_cores partial_ec2 100 ["m5.large"; "m5.xlarge"]
    ["us-east-1a"; "us-east-1b"] 3 = Raise TypeError.
Proof.
  refine (partial_pricing_is_type_error partial_ec2 ["m5.large"; "m5.xlarge"]
            ["us-east-1a"; "us-east-1b"] _ "us-east-1a" "m5.xlarge" _ _ _ _
            100 3).
  - vm_compute. reflexivity.
  - left. reflexivity.
  - right. left. reflexivity.
  - intros o [<-|[]]. discriminate.
Defined.

Lemma plan_needs_well_formed (ec2 : ec2_api) (R : Z) (T azs : list string)
    (m : Z) (chosen : plan) :
  get_cheap_cores ec2 R T azs m = Ok chosen ->
  fully_priced ec2 T azs = true /\ sizes_known ec2 T azs = true /\
  T <> [] /\ m <> 0.
Proof.
  intros H.
  destruct (get_cheap_cores_inv _ _ _ _ _ _ H)
    as (p & l & sh & st & Hp & Hr & Hsh & _ & _).
  destruct (plan_shares_spec _ _ _ _ Hsh) as ((t0 & Ht0 & _) & Hknown & Hnz & _).
  destruct (get_pricing_spec _ _ _ _ Hp) as (_ & Hk & Hrows).
  split; [|split; [|split]].
  - unfold fully_priced. apply forallb_forall. intros az Haz.
    apply forallb_forall. intros t Ht.
    destruct (existsb (fun o => String.eqb (InstanceType o) t) (ec2 T az))
      eqn:E; [reflexivity|].
    exfalso.
    assert (Hno : forall o, In o (ec2 T az) -> InstanceType o <> t).
    { intros o Ho Eo.
      assert (existsb (fun o => String.eqb (InstanceType o) t) (ec2 T az)
              = true); [|congruence].
      apply existsb_exists. exists o. split; [exact Ho|].
      now apply String.eqb_eq. }
    rewrite (unpriced_pair_raises _ _ _ _ _ _ Hp Haz Ht Hno) in Hr.
    discriminate.
  - unfold sizes_known. apply andb_true_iff. split.
    + apply forallb_forall. intros t Ht.
      destruct (Hknown t Ht) as (c & -> & _). reflexivity.
    + apply forallb_forall. intros az Haz. apply forallb_forall. intros o Ho.
      apply Hk, keys_in in Haz as [row Hrow].
      destruct (Hrows _ _ Hrow) as [_ [_ Hrec]].
      now apply (record_results_known _ _ _ Hrec).
  - intros ->. destruct Ht0.
  - intros ->. apply Hnz. lia.
Qed.

(** X8: [get_cheap_cores] returns a plan exactly when every requested
    pair has an observation, every type requested or observed has a listed
    size, some type is requested and [min_azs] is not 0; the cores asked
    for play no part in it. *)
Theorem plan_iff_well_formed (ec2 : ec2_api) (R : Z) (T azs : list string)
    (m : Z) :
  is_ok (get_cheap_cores ec2 R T azs m) = true <->
  fully_priced ec2 T azs = true /\ sizes_known ec2 T azs = true /\
  T <> [] /\ m <> 0.
Proof.
  split.
  - destruct (get_cheap_cores ec2 R T azs m) as [chosen|] eqn:E;
      [|discriminate].
    intros _. eapply plan_needs_well_formed; eassumption.
  - intros (Hf & Hs & HT & Hm).
    destruct (get_cheap_cores_total ec2 R T azs m Hf Hs HT Hm) as [chosen ->].
    reflexivity.
Qed.

Lemma plan_iff_well_formed_witness :
  is_ok (get_cheap_cores flat_ec2 (-7) ["m5.large"; "m5.xlarge"]
           ["us-east-1a"; "us-east-1b"] (-2)) = true.
Proof.
  apply (proj2 (plan_iff_well_formed flat_ec2 (-7) ["m5.large"; "m5.xlarge"]
                  ["us-east-1a"; "us-east-1b"] (-2))).
  split; [reflexivity|]. split; [reflexivity|]. split; [discriminate | lia].
Defined.

Lemma prices_ranked (ec2 : ec2_api) (T azs : list string) :
  (forall az, In az azs -> ec2 T az <> []) ->
  fully_priced ec2 T azs = true -> sizes_known ec2 T azs = true ->
  exists p l, get_pricing ec2 T azs = Ok p /\
              ranking (sort_by_price p) = Ok l.
Proof.
  intros Hne Hf Hs. destruct (sizes_known_spec _ _ _ Hs) as [_ Hs2].
  destruct (fetch_zones_total ec2 T azs (Dict.fromkeys String.eqb azs [])
              Hne Hs2) as [p Hp].
  fold (get_pricing ec2 T azs) in Hp.
  assert (Hkeys : Forall (fun k => k <> None)
                    (Dict.keys (sort_by_price p))).
  { apply Forall_forall. intros k Hk. unfold sort_by_price in Hk.
    apply keys_sort_zones in Hk as [[]|(az & row & t & q & H1 & H2 & ->)].
    pose proof (priced_rows _ _ _ _ _ _ _ _ Hf Hp H1 H2) as Hq.
    destruct q; [discriminate | contradiction]. }
  destruct (sorted_total _ Hkeys) as [ks Hks].
  exists p, (concat (map (group_of (sort_by_price p)) ks)).
  split; [exact Hp|]. unfold ranking. now rewrite Hks.
Qed.

(** X9: which error the request itself causes once the prices are in and
    ranked: [ValueError] for an empty list of types ([min] of nothing),
    and [ZeroDivisionError] for [min_azs = 0]. *)
Theorem request_errors (ec2 : ec2_api) (R : Z) (T azs : list string) (m : Z) :
  (forall az, In az azs -> ec2 T az <> []) ->
  fully_priced ec2 T azs = true -> sizes_known ec2 T azs = true ->
  (T = [] -> get_cheap_cores ec2 R T azs m = Raise ValueError) /\
  (T <> [] -> m = 0 ->
   get_cheap_cores ec2 R T azs m = Raise ZeroDivisionError).
Proof.
  intros Hne Hf Hs.
  destruct (prices_ranked _ _ _ Hne Hf Hs) as (p & l & Hp & Hr).
  unfold get_cheap_cores. rewrite Hp. cbn [bind]. rewrite Hr. cbn [bind].
  split.
  - intros ->. reflexivity.
  - intros HT ->. destruct (sizes_known_spec _ _ _ Hs) as [Hs1 _].
    unfold plan_shares. destruct (cores_list_total T Hs1) as [cs Ecs].
    rewrite Ecs. cbn [bind]. destruct cs as [|x cs].
    + apply cores_list_spec in Ecs. inversion Ecs; subst. contradiction.
    + cbn [py_min bind]. unfold py_divmod. rewrite Z.mul_0_r. reflexivity.
Qed.

Lemma request_errors_witness :
  get_cheap_cores repeat_ec2 5 [] ["us-east-1a"] 3 = Raise ValueError /\
  get_cheap_cores flat_ec2 5 ["m5.large"] ["us-east-1a"] 0
  = Raise ZeroDivisionError.
Proof.
  split.
  - apply (proj1 (request_errors repeat_ec2 5 [] ["us-east-1a"] 3
                    ltac:(intros az _; discriminate) eq_refl eq_refl)).
    reflexivity.
  - apply (proj2 (request_errors flat_ec2 5 ["m5.large"] ["us-east-1a"] 0
                    ltac:(intros az _; discriminate) eq_refl eq_refl)).
    + discriminate.
    + reflexivity.
Defined.

(** X10: with no zone to look at there is nothing to fetch or rank, and
    a well-formed request gets the empty plan, whatever the cores asked
    for. *)
Theorem no_zones_empty_plan (ec2 : ec2_api) (R : Z) (T : list string) (m : Z) :
  T <> [] -> (forall t, In t T -> is_ok (cores_of t) = true) -> m <> 0 ->
  get_cheap_cores ec2 R T [] m = Ok [].
Proof.
  intros HT Hs Hm. unfold get_cheap_cores.
  change (get_pricing ec2 T []) with (@Ok pricing []). cbn [bind].
  change (ranking (sort_by_price [])) with (@Ok (list choice) []).
  cbn [bind]. destruct (plan_shares_total R T m HT Hs Hm) as [sh ->].
  reflexivity.
Qed.

Lemma no_zones_empty_plan_witness :
  get_cheap_cores flat_ec2 100 ["m5.large"; "m5.xlarge"] [] 3 = Ok [].
Proof.
  apply (no_zones_empty_plan flat_ec2 100 ["m5.large"; "m5.xlarge"] 3).
  - discriminate.
  - intros t [<-|[<-|[]]]; reflexivity.
  - lia.
Defined.

(** *** The plan *)

Lemma fresh_key_string (ch : choice) (r : plan) :
  Dict.get same_key ch r = None ->
  ~ In (choice_key ch) (map (fun e => choice_key (fst e)) r).
Proof.
  induction r as [|[k n] r IH]; cbn [Dict.get map In fst]; [tauto|].
  destruct (same_key ch k) eqn:E; [discriminate|].
  intros H [Hk|Hin]; [|now apply IH].
  unfold same_key in E. rewrite Hk, String.eqb_refl in E. discriminate.
Qed.

Lemma walk_keys (m cpz : Z) (l : list choice) (st st' : walk_state) :
  NoDup (map (fun e => choice_key (fst e)) (result st)) ->
  (forall e, In e (result st) -> 0 <= units_of e) ->
  walk m cpz l st = Ok st' ->
  NoDup (map (fun e => choice_key (fst e)) (result st')) /\
  (forall e, In e (result st') -> 0 <= units_of e).
Proof.
  intros H1 H2.
  apply (walk_invariant
           (fun s => NoDup (map (fun e => choice_key (fst e)) (result s)) /\
                     forall e, In e (result s) -> 0 <= units_of e));
    [|now split].
  intros s [az it] s1 _ [Hnd Hu] Hz _ [c n b _ Hn Hb _ _ _ Hres _ _ _].
  cbn [fst] in Hz. rewrite Hres. split.
  - rewrite map_app. cbn [map fst]. apply NoDup_app; [exact Hnd | | ].
    + repeat constructor. intros [].
    + intros x Hx [<-|[]]. revert Hx. apply fresh_key_string.
      now apply fresh_key.
  - intros e He. apply in_app_iff in He as [He|[<-|[]]]; [auto|].
    unfold units_of. cbn [snd]. destruct Hb as [->| ->]; lia.
Qed.

(** X11: a returned plan is a proper [dict]: its keys are pairwise
    different, no two entries are for the same zone, every unit count is 0
    or more, and every entry is for a zone asked for and a type requested
    or observed in that zone. *)
Theorem plan_is_well_formed (ec2 : ec2_api) (R : Z) (T azs : list string)
    (m : Z) (chosen : plan) :
  get_cheap_cores ec2 R T azs m = Ok chosen ->
  NoDup (Dict.keys (plan_dict chosen)) /\
  NoDup (map zone_of chosen) /\
  forall e, In e chosen ->
    0 <= units_of e /\ In (zone_of e) azs /\
    In (type_of e) (row_types ec2 T (zone_of e)).
Proof.
  intros H.
  destruct (get_cheap_cores_inv _ _ _ _ _ _ H)
    as (p & l & sh & st & Hp & Hr & _ & Hw & ->).
  destruct (walk_keys m (cores_per_az sh) l
              {| result := []; left_cores := 0;
                 spare_cores := spare_cores0 sh |} st) as [Hk Hu];
    [constructor | intros e [] | exact Hw |].
  destruct (walk_distinct m (cores_per_az sh) l
              {| result := []; left_cores := 0;
                 spare_cores := spare_cores0 sh |} st) as [Hnd Hin];
    [constructor | intros e [] | exact Hw |].
  split; [|split; [exact Hnd|]].
  - unfold plan_dict, Dict.keys. rewrite map_map. exact Hk.
  - intros e He. split; [now apply Hu|].
    apply (in_table_spec _ _ _ _ (fst e) Hp).
    apply (ranking_in _ _ _ Hr). now apply Hin.
Qed.

Lemma plan_is_well_formed_witness :
  NoDup (Dict.keys (plan_dict hundred_cores_plan)) /\
  NoDup (map zone_of hundred_cores_plan) /\
  forall e, In e hundred_cores_plan ->
    0 <= units_of e /\
    In (zone_of e) ["us-east-1a"; "us-east-1b"; "us-east-1c"] /\
    In (type_of e) (row_types flat_ec2 ["m5.xlarge"] (zone_of e)).
Proof.
  apply (plan_is_well_formed flat_ec2 100 ["m5.xlarge"]
           ["us-east-1a"; "us-east-1b"; "us-east-1c"] 3).
  vm_compute. reflexivity.
Defined.

Lemma walk_share (m cpz : Z) (l : list choice) (st st' : walk_state) :
  0 <= cpz ->
  0 <= left_cores st ->
  (forall e, In e (result st) -> cpz / unit_cores (type_of e) <= units_of e) ->
  walk m cpz l st = Ok st' ->
  forall e, In e (result st') -> cpz / unit_cores (type_of e) <= units_of e.
Proof.
  intros Hcpz H1 H2 Hw.
  assert (H : 0 <= left_cores st' /\
              forall e, In e (result st') ->
                        cpz / unit_cores (type_of e) <= units_of e);
    [|apply H].
  revert Hw.
  apply (walk_invariant
           (fun s => 0 <= left_cores s /\
                     forall e, In e (result s) ->
                               cpz / unit_cores (type_of e) <= units_of e));
    [|now split].
  intros s ch s1 _ [Hl Hu] _ _ [c n b Hc Hn Hb Hsum Hlt Hpos Hres _ _ _].
  pose proof (cores_of_pos _ _ Hc) as Hcpos.
  assert (Hl1 : 0 <= left_cores s1).
  { destruct (Z.eq_dec n 0) as [->|]; [lia | apply Hpos; lia]. }
  split; [exact Hl1|]. intros e He. rewrite Hres in He.
  apply in_app_iff in He as [He|[<-|[]]]; [auto|].
  unfold units_of, type_of. cbn [fst snd]. rewrite (unit_cores_ok _ _ Hc).
  assert (cpz / c < n + 1); [|destruct Hb as [->| ->]; lia].
  apply Z.div_lt_upper_bound; [exact Hcpos | nia].
Qed.

(** X12: for a request of [R >= 0] cores over [m > 0] zones, every entry
    of a returned plan has at least the whole units that the per-zone
    share [cores_per_az] pays for. *)
Theorem zone_gets_its_share (ec2 : ec2_api) (R : Z) (T azs : list string)
    (m : Z) (chosen : plan) :
  get_cheap_cores ec2 R T azs m = Ok chosen ->
  0 <= R -> 0 < m ->
  exists sh,
    plan_shares R T m = Ok sh /\
    forall e, In e chosen ->
      cores_per_az sh / unit_cores (type_of e) <= units_of e.
Proof.
  intros H HR Hm.
  destruct (get_cheap_cores_inv _ _ _ _ _ _ H)
    as (p & l & sh & st & _ & _ & Hsh & Hw & ->).
  destruct (plan_shares_spec _ _ _ _ Hsh) as ((t & _ & Ht) & _ & Hnz & Hcpz & _).
  apply cores_of_pos in Ht.
  assert (Hd : 0 < smallest sh * m) by nia.
  pose proof (Z.div_pos R _ HR Hd) as Hbase.
  assert (H0 : 0 <= cores_per_az sh) by nia.
  exists sh. split; [exact Hsh|].
  apply (walk_share m (cores_per_az sh) l
           {| result := []; left_cores := 0;
              spare_cores := spare_cores0 sh |} st H0);
    [cbn; lia | intros e [] | exact Hw].
Qed.

Lemma zone_gets_its_share_witness :
  exists sh,
    plan_shares 100 ["m5.xlarge"] 3 = Ok sh /\
    forall e, In e hundred_cores_plan ->
      cores_per_az sh / unit_cores (type_of e) <= units_of e.
Proof.
  apply (zone_gets_its_share flat_ec2 100 ["m5.xlarge"]
           ["us-east-1a"; "us-east-1b"; "us-east-1c"] 3).
  - vm_compute. reflexivity.
  - lia.
  - lia.
Defined.

Lemma has_cores_spec (c : Z) (t : string) :
  has_cores c t = true -> cores_of t = Ok c.
Proof.
  unfold has_cores. destruct (cores_of t) as [c'|]; [|discriminate].
  intros H. apply Z.eqb_eq in H. now subst.
Qed.

Lemma uniform_sizes_known (ec2 : ec2_api) (T azs : list string) (c : Z) :
  uniform_cores ec2 T azs c = true -> sizes_known ec2 T azs = true.
Proof.
  unfold uniform_cores, sizes_known. intros H.
  apply andb_true_iff in H as [H1 H2]. apply andb_true_iff. split.
  - apply forallb_forall. intros t Ht.
    rewrite forallb_forall in H1.
    now rewrite (has_cores_spec _ _ (H1 t Ht)).
  - apply forallb_forall. intros az Haz. apply forallb_forall. intros o Ho.
    rewrite forallb_forall in H2. specialize (H2 az Haz).
    rewrite forallb_forall in H2.
    now rewrite (has_cores_spec _ _ (H2 o Ho)).
Qed.

Lemma uniform_in_table (ec2 : ec2_api) (T azs : list string) (c : Z)
    (p : pricing) (x : choice) :
  uniform_cores ec2 T azs c = true ->
  get_pricing ec2 T azs = Ok p -> in_table p x ->
  cores_of (snd x) = Ok c.
Proof.
  unfold uniform_cores. intros H Hp Hx.
  apply andb_true_iff in H as [H1 H2]. rewrite forallb_forall in H1, H2.
  destruct (in_table_spec _ _ _ _ _ Hp Hx) as [Haz Ht].
  unfold row_types in Ht. apply in_app_iff in Ht as [Ht|Ht].
  - now apply has_cores_spec, H1.
  - apply in_map_iff in Ht as (o & <- & Ho). specialize (H2 _ Haz).
    rewrite forallb_forall in H2. now apply has_cores_spec, H2.
Qed.

Lemma walk_uniform (c base rem m : Z) (l : list choice) (st st' : walk_state) :
  0 <= base ->
  (forall x, In x l -> cores_of (snd x) = Ok c) ->
  uniform_inv c (base * c) rem st ->
  walk m (base * c) l st = Ok st' ->
  uniform_inv c (base * c) rem st'.
Proof.
  intros Hbase Hc. apply walk_invariant.
  intros s ch s1 Hch (Hl & Hsp & Hsum & Hcase & (q & Hq)) _ _
         [c' n b Hc' Hn Hb Hpool Hlt Hpos Hres Hspare Hone Hzero].
  rewrite (Hc ch Hch) in Hc'. inversion Hc'; subst c'. clear Hc'.
  pose proof (cores_of_pos _ _ (Hc ch Hch)) as Hcpos.
  assert (Hl0 : 0 <= left_cores s1).
  { destruct (Z.eq_dec n 0) as [->|]; [nia | apply Hpos; lia]. }
  assert (Hd : left_cores s1 = (base - n) * c) by lia.
  assert (En : n = base).
  { destruct (Z.lt_trichotomy (base - n) 0) as [G|[G|G]]; [nia | lia | nia]. }
  assert (Hl1 : left_cores s1 = 0) by (rewrite Hd, En; lia).
  unfold uniform_inv. rewrite Hres, length_app, plan_cores_app, Nat2Z.inj_add.
  unfold units_of, type_of. cbn [length fst snd Z.of_nat Pos.of_succ_nat].
  rewrite (unit_cores_ok _ _ (Hc ch Hch)), Hl1, Hspare, Hl1.
  rewrite Hl1 in Hone, Hzero.
  subst n. clear Hd Hpool Hpos.
  destruct Hb as [->| ->].
  - specialize (Hzero eq_refl).
    split; [reflexivity|]. split; [lia|]. split; [lia|]. split; [lia|].
    exists (q + base). lia.
  - specialize (Hone eq_refl).
    assert (spare_cores s = rem - Z.of_nat (length (result s)) * c) by lia.
    split; [reflexivity|]. split; [lia|]. split; [lia|]. split; [right; lia|].
    exists (q + base + 1). lia.
Qed.

(** X22: when every type requested or observed has the same core count
    [c], the zones are fully priced and cannot be mistaken for one another,
    and there are at least [m] of them, a request for [R >= 0] cores gets
    a plan over [m] zones that holds the largest whole number of units
    within [R]: [c * (R / c)] cores. *)
Theorem uniform_plan_total (ec2 : ec2_api) (R : Z) (T azs : list string)
    (m c : Z) :
  fully_priced ec2 T azs = true -> uniform_cores ec2 T azs c = true ->
  no_clash ec2 T azs = true ->
  T <> [] -> 0 <= R -> 0 < m -> m <= zone_count azs ->
  exists chosen,
    get_cheap_cores ec2 R T azs m = Ok chosen /\
    Z.of_nat (length chosen) = m /\
    plan_cores chosen = c * (R / c).
Proof.
  intros Hf Hu Hn HT HR Hm Hzc.
  pose proof (uniform_sizes_known _ _ _ _ Hu) as Hs.
  destruct (get_cheap_cores_total ec2 R T azs m Hf Hs HT) as [chosen H];
    [lia|].
  exists chosen. split; [exact H|].
  destruct (get_cheap_cores_inv _ _ _ _ _ _ H)
    as (p & l & sh & st & Hp & Hr & Hsh & Hw & E).
  destruct (plan_selection _ _ _ _ _ _ _ H Hm Hn Hp) as [Hlen _].
  rewrite Z.min_l in Hlen by exact Hzc. split; [exact Hlen|].
  destruct (plan_shares_spec _ _ _ _ Hsh)
    as ((t & Ht & Hct) & _ & Hnz & Hcpz & Hsp).
  assert (Esm : smallest sh = c).
  { unfold uniform_cores in Hu. apply andb_true_iff in Hu as [Hu _].
    rewrite forallb_forall in Hu.
    pose proof (has_cores_spec _ _ (Hu t Ht)). congruence. }
  pose proof (cores_of_pos _ _ Hct) as Hcpos. rewrite Esm in *.
  assert (Hd : 0 < c * m) by nia.
  pose proof (Z.div_pos R _ HR Hd) as Hbase.
  pose proof (Z.div_mod R _ Hnz) as Hdm.
  pose proof (Z.mod_pos_bound R _ Hd) as Hrem.
  rewrite Hcpz in Hw.
  assert (Hinv : uniform_inv c (R / (c * m) * c) (R mod (c * m)) st).
  { eapply walk_uniform; [exact Hbase | | | exact Hw].
    - intros x Hx. apply (uniform_in_table _ _ _ _ _ _ Hu Hp).
      now apply (ranking_in _ _ _ Hr).
    - unfold uniform_inv. rewrite Hsp. cbn.
      repeat split; try lia. now exists 0. }
  destruct Hinv as (_ & Hsp0 & Hsum & Hcase & (q & Hq)).
  rewrite <- E in Hsum, Hcase, Hq. rewrite Hlen in Hsum, Hcase.
  assert (Hlt : spare_cores st < c) by (destruct Hcase; nia).
  rewrite Hq. rewrite (Z.mul_comm q c). f_equal.
  apply (Z.div_unique_pos R c q (spare_cores st)); [lia | nia].
Qed.

Lemma uniform_plan_total_witness :
  exists chosen,
    get_cheap_cores flat_ec2 103 ["m5.xlarge"]
      ["us-east-1a"; "us-east-1b"; "us-east-1c"] 3 = Ok chosen /\
    Z.of_nat (length chosen) = 3 /\
    plan_cores chosen = 4 * (103 / 4).
Proof.
  apply (uniform_plan_total flat_ec2 103 ["m5.xlarge"]
           ["us-east-1a"; "us-east-1b"; "us-east-1c"] 3 4);
    try reflexivity; try discriminate; try lia.
Defined.

(** *** [sort_by_az] *)

Lemma insert_by_price_perm (x : string * price_key) (l r : az_choices) :
  insert_by_price x l = Ok r -> Permutation (x :: l) r.
Proof.
  revert r; induction l as [|y l IH]; intros r; cbn [insert_by_price].
  - intros H; inversion H; subst. reflexivity.
  - destruct (key_lt (snd y) (snd x)) as [b|]; cbn [bind]; [|discriminate].
    destruct b.
    + destruct (insert_by_price x l) as [r'|]; cbn [bind]; [|discriminate].
      intros H; inversion H; subst.
      rewrite perm_swap. constructor. now apply IH.
    + intros H; inversion H; subst. reflexivity.
Qed.

Lemma insert_by_price_sorted (x : string * price_key) (l r : az_choices) :
  StronglySorted tuple_le l -> insert_by_price x l = Ok r ->
  StronglySorted tuple_le r.
Proof.
  revert r; induction l as [|y l IH]; intros r Hs; cbn [insert_by_price].
  - intros H; inversion H; subst. repeat constructor.
  - destruct (key_lt (snd y) (snd x)) as [b|] eqn:Eb; cbn [bind];
      [|discriminate].
    apply key_lt_spec in Eb as (c & a & Ey & Ex & Hb).
    inversion Hs as [|? ? Hs' Hall]; subst.
    destruct b.
    + destruct (insert_by_price x l) as [r'|] eqn:Er; cbn [bind];
        [|discriminate].
      intros H; inversion H; subst. constructor; [now apply IH|].
      rewrite <- (insert_by_price_perm _ _ _ Er). constructor; [|exact Hall].
      unfold tuple_le. rewrite Ey, Ex. cbn [key_le]. now apply Qlt_le_weak.
    + intros H; inversion H; subst. constructor; [exact Hs|].
      assert (Hxy : tuple_le x y).
      { unfold tuple_le. rewrite Ey, Ex. exact Hb. }
      constructor; [exact Hxy|].
      eapply Forall_impl; [|exact Hall]. intros z Hz.
      unfold tuple_le in *. eapply key_le_trans; eassumption.
Qed.

Lemma sort_by_key_spec (l s : az_choices) :
  sort_by_key l = Ok s -> Permutation l s /\ StronglySorted tuple_le s.
Proof.
  revert s; induction l as [|x l IH]; intros s; cbn [sort_by_key].
  - intros H; inversion H; subst. split; constructor.
  - destruct (sort_by_key l) as [s'|]; cbn [bind]; [|discriminate].
    intros H. destruct (IH s' eq_refl) as [Hp Hs]. split.
    + rewrite <- (insert_by_price_perm _ _ _ H). now constructor.
    + eapply insert_by_price_sorted; eassumption.
Qed.

Lemma sort_by_key_error (l : az_choices) (e : exn) :
  sort_by_key l = Raise e -> e = TypeError.
Proof.
  revert e; induction l as [|x l IH]; intros e; cbn [sort_by_key];
    [discriminate|].
  destruct (sort_by_key l) as [s|e'] eqn:Es; cbn [bind].
  - clear IH Es. revert e. induction s as [|y s IHs]; intros e;
      cbn [insert_by_price]; [discriminate|].
    destruct (key_lt (snd y) (snd x)) as [b|e'] eqn:Ek; cbn [bind].
    + destruct b; [|discriminate].
      destruct (insert_by_price x s) as [r|e''] eqn:Ei; cbn [bind];
        [discriminate|].
      intros H; inversion H; subst. now apply IHs.
    + intros H; inversion H; subst.
      destruct (snd y), (snd x); cbn in Ek; congruence.
  - intros H; inversion H; subst. now apply IH.
Qed.

Lemma sort_by_key_ok (l s : az_choices) :
  sort_by_key l = Ok s ->
  (length l <= 1)%nat \/ Forall (fun x => snd x <> None) l.
Proof.
  revert s; induction l as [|x l IH]; intros s; cbn [sort_by_key].
  - intros _. left. cbn. lia.
  - destruct (sort_by_key l) as [s'|] eqn:Es; cbn [bind]; [|discriminate].
    intros Hi. destruct l as [|y l']; [left; cbn; lia|]. right.
    destruct (sort_by_key_spec _ _ Es) as [Hperm _].
    destruct s' as [|z s''].
    { apply Permutation_sym, Permutation_nil in Hperm. discriminate. }
    cbn [insert_by_price] in Hi.
    destruct (key_lt (snd z) (snd x)) as [b|] eqn:Ek; cbn [bind] in Hi;
      [|discriminate].
    apply key_lt_spec in Ek as (c & a & Ez & Ex & _).
    constructor.
    { intro F. assert (G : @None Q = Some a) by exact (eq_trans (eq_sym F) Ex).
      discriminate G. }
    destruct (IH _ eq_refl) as [Hlen|Hall]; [|exact Hall].
    destruct l' as [|? ?]; [|cbn in Hlen; lia].
    apply Permutation_length_1_inv in Hperm. inversion Hperm; subst.
    repeat constructor. intro F.
    assert (G : @None Q = Some c) by exact (eq_trans (eq_sym F) Ez).
    discriminate G.
Qed.

Lemma append_row_spec (row : price_row) (l : az_choices) :
  append_row row l = l ++ row_tuples row.
Proof.
  revert l; induction row as [|[t q] row IH]; intros l;
    cbn [append_row row_tuples map fst snd].
  - now rewrite app_nil_r.
  - rewrite IH, <- app_assoc. reflexivity.
Qed.

Lemma sort_az_zones_spec (p : pricing) (c0 c : list (string * az_choices)) :
  sort_az_zones p c0 = Ok c ->
  NoDup (Dict.keys p) ->
  (forall az, In az (Dict.keys p) -> Dict.get String.eqb az c0 = None) ->
  Dict.keys c = Dict.keys c0 ++ Dict.keys p /\
  (forall az, ~ In az (Dict.keys p) ->
              Dict.get String.eqb az c = Dict.get String.eqb az c0) /\
  forall az row, In (az, row) p ->
    exists l, Dict.get String.eqb az c = Some l /\
              sort_by_key (row_tuples row) = Ok l.
Proof.
  revert c0; induction p as [|[az row] p IH]; intros c0 H Hnd Hfresh;
    cbn [sort_az_zones] in H.
  - inversion H; subst. cbn. rewrite app_nil_r. repeat split; auto.
    intros az row [].
  - unfold Dict.keys in Hnd. cbn [map fst] in Hnd.
    inversion Hnd as [|? ? Hout Hnd']; subst.
    assert (E0 : Dict.get String.eqb az c0 = None).
    { apply Hfresh. now left. }
    unfold Dict.mem in H. rewrite E0 in H.
    rewrite (get_set String.eqb String.eqb_eq), String.eqb_refl,
      append_row_spec in H.
    cbn [app] in H.
    destruct (sort_by_key (row_tuples row)) as [l|] eqn:El; cbn [bind] in H;
      [|discriminate].
    destruct (IH _ H Hnd') as (Hk & Hold & Hrows).
    { intros az' Haz'. rewrite !(get_set String.eqb String.eqb_eq).
      destruct (String.eqb_spec az' az) as [->|Hne]; [contradiction|].
      apply Hfresh. now right. }
    split; [|split].
    + rewrite Hk, !keys_set. unfold Dict.mem.
      rewrite (get_set String.eqb String.eqb_eq), String.eqb_refl, E0.
      unfold Dict.keys. cbn [map fst]. now rewrite <- app_assoc.
    + intros az' Hno. rewrite Hold.
      * rewrite !(get_set String.eqb String.eqb_eq).
        destruct (String.eqb_spec az' az) as [->|Hne]; [|reflexivity].
        exfalso. apply Hno. now left.
      * intros Hin. apply Hno. now right.
    + intros az' row' [E|Hin].
      * inversion E; subst az' row'. exists l. split; [|exact El].
        rewrite Hold by exact Hout.
        now rewrite (get_set String.eqb String.eqb_eq), String.eqb_refl.
      * now apply Hrows.
Qed.

(** X13: for a table with one row per zone, [sort_by_az] returns for
    every zone, in table order, the [(type, core price)] tuples of its row
    rearranged from the cheapest core price up. *)
Theorem sort_by_az_sorts_rows (p : pricing) (c : list (string * az_choices)) :
  NoDup (Dict.keys p) ->
  sort_by_az p = Ok c ->
  Dict.keys c = Dict.keys p /\
  forall az row, In (az, row) p ->
    exists l, Dict.get String.eqb az c = Some l /\
              Permutation (row_tuples row) l /\
              StronglySorted tuple_le l.
Proof.
  intros Hnd H. unfold sort_by_az in H.
  destruct (sort_az_zones_spec _ _ _ H Hnd (fun az _ => eq_refl))
    as (Hk & _ & Hrows).
  split; [exact Hk|]. intros az row Hrow.
  destruct (Hrows _ _ Hrow) as (l & Hl & Hs).
  exists l. split; [exact Hl|]. now apply sort_by_key_spec.
Qed.

Lemma sort_by_az_sorts_rows_witness :
  exists c,
    sort_by_az flat_table = Ok c /\
    Dict.get String.eqb "us-east-1a" c
    = Some [("m5.xlarge", Some (1 # 40)); ("m5.large", Some (1 # 20))] /\
    Dict.keys c = Dict.keys flat_table /\
    forall az row, In (az, row) flat_table ->
      exists l, Dict.get String.eqb az c = Some l /\
                Permutation (row_tuples row) l /\
                StronglySorted tuple_le l.
Proof.
  eexists. split; [vm_compute; reflexivity|]. split; [reflexivity|].
  refine (sort_by_az_sorts_rows flat_table _ _ _).
  - repeat constructor. intros [].
  - vm_compute. reflexivity.
Defined.

Lemma sort_az_zones_error (p : pricing) (c0 : list (string * az_choices))
    (e : exn) :
  sort_az_zones p c0 = Raise e -> e = TypeError.
Proof.
  revert c0; induction p as [|[az row] p IH]; intros c0;
    cbn [sort_az_zones]; [discriminate|].
  destruct (sort_by_key _) as [l|e'] eqn:El; cbn [bind].
  - apply IH.
  - intros H; inversion H; subst. eapply sort_by_key_error; eassumption.
Qed.

(** X14: [sort_by_az] raises [TypeError] when a zone's row of two or more
    types holds an empty placeholder: its [None] cannot be ordered against
    the other prices. *)
Theorem sort_by_az_partial_row (p : pricing) (az t : string)
    (row : price_row) :
  NoDup (Dict.keys p) ->
  In (az, row) p -> In (t, None) row -> (2 <= length row)%nat ->
  sort_by_az p = Raise TypeError.
Proof.
  intros Hnd Hrow Hnone Hlen.
  destruct (sort_by_az p) as [c|e] eqn:E.
  - exfalso. unfold sort_by_az in E.
    destruct (sort_az_zones_spec _ _ _ E Hnd (fun az _ => eq_refl))
      as (_ & _ & Hrows).
    destruct (Hrows _ _ Hrow) as (l & _ & Hs).
    destruct (sort_by_key_ok _ _ Hs) as [Hl|Hall].
    + unfold row_tuples in Hl. rewrite length_map in Hl. lia.
    + rewrite Forall_forall in Hall.
      apply (Hall (t, None)); [|reflexivity].
      unfold row_tuples. apply in_map_iff. now exists (t, None).
  - now rewrite (sort_az_zones_error _ _ _ E).
Qed.

Lemma sort_by_az_partial_row_witness :
  sort_by_az partial_table = Raise TypeError.
Proof.
  refine (sort_by_az_partial_row partial_table "us-east-1a" "m5.xlarge"
            _ _ _ _ _).
  - repeat constructor; cbn; intuition discriminate.
  - left. reflexivity.
  - right. left. reflexivity.
  - cbn. lia.
Defined.

End SpotMore.

(** ** The float division *)

Module SpotFloatProps.
Import Spot SpotProps.

Local Open Scope list_scope.

Section Rounding.
Variable rnd : Q -> Q.

(** The loops of [SpotFloat] do what those of [Spot] do, with each core
    price rounded. *)
Lemma record_results_round (results : list observation) (row0 : price_row) :
  SpotFloat.record_results rnd results (SpotFloat.round_row rnd row0)
  = match record_results results row0 with
    | Ok row => Ok (SpotFloat.round_row rnd row)
    | Raise e => Raise e
    end.
Proof.
  revert row0; induction results as [|o rest IH]; intros row0;
    cbn [SpotFloat.record_results record_results]; [reflexivity|].
  destruct (cores_of (InstanceType o)) as [c|e]; cbn [bind]; [|reflexivity].
  destruct (c =? 0); [reflexivity|].
  rewrite <- IH. f_equal. unfold SpotFloat.round_row.
  now rewrite <- (set_map_values String.eqb
                    (option_map (SpotFloat.round_quote rnd))).
Qed.

Lemma fetch_zones_round (ec2 : ec2_api) (T azs : list string) (p0 : pricing) :
  SpotFloat.fetch_zones rnd ec2 T azs (SpotFloat.round_table rnd p0)
  = match fetch_zones ec2 T azs p0 with
    | Ok p => Ok (SpotFloat.round_table rnd p)
    | Raise e => Raise e
    end.
Proof.
  revert p0; induction azs as [|az azs IH]; intros p0;
    cbn [SpotFloat.fetch_zones fetch_zones]; [reflexivity|].
  destruct (get_latest_price ec2 T az) as [results|]; [|reflexivity].
  change (Dict.fromkeys String.eqb T (@None quote))
    with (Dict.fromkeys String.eqb T
            (option_map (SpotFloat.round_quote rnd) None)) at 1.
  rewrite (fromkeys_map_values String.eqb
             (option_map (SpotFloat.round_quote rnd))).
  fold (SpotFloat.round_row rnd (Dict.fromkeys String.eqb T None)).
  rewrite record_results_round.
  destruct (record_results results (Dict.fromkeys String.eqb T None))
    as [row|e]; cbn [bind]; [|reflexivity].
  rewrite <- IH. f_equal. unfold SpotFloat.round_table.
  now rewrite <- (set_map_values String.eqb (SpotFloat.round_row rnd)).
Qed.

(** [SpotFloat.get_pricing] raises what [Spot.get_pricing] raises, and
    returns its table with each core price rounded. *)
Lemma get_pricing_round (ec2 : ec2_api) (T azs : list string) :
  SpotFloat.get_pricing rnd ec2 T azs
  = match get_pricing ec2 T azs with
    | Ok p => Ok (SpotFloat.round_table rnd p)
    | Raise e => Raise e
    end.
Proof.
  unfold SpotFloat.get_pricing, get_pricing. rewrite <- fetch_zones_round.
  f_equal. unfold SpotFloat.round_table.
  now rewrite <- (fromkeys_map_values String.eqb (SpotFloat.round_row rnd)).
Qed.

Lemma get_pricing_rounded (ec2 : ec2_api) (T azs : list string) (p : pricing) :
  SpotFloat.get_pricing rnd ec2 T azs = Ok p ->
  exists p0, get_pricing ec2 T azs = Ok p0 /\ p = SpotFloat.round_table rnd p0.
Proof.
  rewrite get_pricing_round.
  destruct (get_pricing ec2 T azs) as [p0|]; [|discriminate].
  intros H; inversion H. now exists p0.
Qed.

End Rounding.

Lemma last_obs_in (o : observation) (results : list observation) :
  In o results -> exists o', last_obs (InstanceType o) results = Some o'.
Proof.
  induction results as [|o1 rest IH]; [easy|]. cbn [last_obs].
  intros [->|Hin].
  - destruct (last_obs (InstanceType o) rest); [now eexists|].
    rewrite String.eqb_refl. now eexists.
  - destruct (IH Hin) as [o' ->]. now eexists.
Qed.

(** C6: [cores_of] is the [_CORES] entry of the size suffix, which is
    positive, and a [KeyError] when the suffix is not listed.  In the table
    [get_pricing] returns, every observation of a zone's history has given
    its type a quote: the price is that of the last observation of the
    type, [cores] is the [_CORES] entry, and [core_price] is the float
    division [price / cores], the rounding [rnd] of the exact quotient,
    whatever the rounding is; and every quote of the table is such a one.
    The table is returned whenever every zone has a history and every
    observed size is listed; an observation of an unlisted size makes
    [get_pricing] raise instead of returning a table, [KeyError] when every
    zone has a history. *)
Theorem core_price_is_price_per_core (rnd : Q -> Q) (ec2 : ec2_api)
    (T azs : list string) :
  (forall t,
     match Dict.get String.eqb (pop (split_dot t)) _CORES with
     | Some c => cores_of t = Ok c /\ 0 < c
     | None => cores_of t = Raise KeyError
     end) /\
  (forall p az o,
     SpotFloat.get_pricing rnd ec2 T azs = Ok p ->
     In az azs -> In o (ec2 T az) ->
     exists row o' c q,
       Dict.get String.eqb az p = Some row /\
       Dict.get String.eqb (InstanceType o) row = Some (Some q) /\
       last_obs (InstanceType o) (ec2 T az) = Some o' /\
       cores_of (InstanceType o) = Ok c /\ 0 < c /\
       price q = SpotPrice o' /\ cores q = c /\
       core_price q = rnd (price q / inject_Z (cores q))%Q) /\
  (forall p az row t q,
     SpotFloat.get_pricing rnd ec2 T azs = Ok p ->
     In (az, row) p -> In (t, Some q) row ->
     exists o c,
       In o (ec2 T az) /\ InstanceType o = t /\
       cores_of t = Ok c /\ 0 < c /\
       price q = SpotPrice o /\ cores q = c /\
       core_price q = rnd (price q / inject_Z (cores q))%Q) /\
  ((forall az, In az azs -> ec2 T az <> []) ->
   (forall az o, In az azs -> In o (ec2 T az) ->
                 is_ok (cores_of (InstanceType o)) = true) ->
   exists p, SpotFloat.get_pricing rnd ec2 T azs = Ok p) /\
  (forall az o,
     In az azs -> In o (ec2 T az) ->
     cores_of (InstanceType o) = Raise KeyError ->
     (exists e, SpotFloat.get_pricing rnd ec2 T azs = Raise e) /\
     ((forall az', In az' azs -> ec2 T az' <> []) ->
      SpotFloat.get_pricing rnd ec2 T azs = Raise KeyError)).
Proof.
  split; [|split; [|split; [|split]]].
  - intros t. unfold cores_of.
    destruct (Dict.get String.eqb (pop (split_dot t)) _CORES) eqn:E;
      [|reflexivity].
    split; [reflexivity|]. eapply table_positive; eassumption.
  - intros p az o Hp Haz Ho.
    destruct (get_pricing_rounded _ _ _ _ _ Hp) as (p0 & Hp0 & ->).
    destruct (get_pricing_spec _ _ _ _ Hp0) as (Hnd & Hk & Hrows).
    assert (Hin : In az (Dict.keys p0)) by now apply Hk.
    apply keys_in in Hin as [row0 Hrow0].
    destruct (Hrows _ _ Hrow0) as [_ [_ Hr]].
    pose proof (SpotMore.record_results_get _ _ _ (InstanceType o) Hr) as Hg.
    destruct (last_obs_in _ _ Ho) as [o' Hl]. rewrite Hl in Hg.
    destruct Hg as (c & Hc & Hq).
    exists (SpotFloat.round_row rnd row0), o', c,
           (SpotFloat.round_quote rnd (quote_from o' c)).
    split.
    { unfold SpotFloat.round_table. rewrite get_map_values.
      now rewrite (in_get String.eqb String.eqb_eq _ _ _ Hnd Hrow0). }
    split.
    { unfold SpotFloat.round_row. rewrite get_map_values. now rewrite Hq. }
    split; [exact Hl|]. split; [exact Hc|].
    split; [eapply cores_of_pos; eassumption|].
    repeat split.
  - intros p az row t q Hp Hrow Hq.
    destruct (get_pricing_rounded _ _ _ _ _ Hp) as (p0 & Hp0 & ->).
    destruct (get_pricing_spec _ _ _ _ Hp0) as (_ & _ & Hrows).
    apply in_map_values in Hrow as (row0 & Hrow0 & ->).
    apply in_map_values in Hq as (q0 & Hq0 & Eq).
    destruct q0 as [q0|]; [|discriminate]. cbn [option_map] in Eq.
    inversion Eq; subst q.
    destruct (Hrows _ _ Hrow0) as [_ Hr].
    destruct (quote_in_row _ _ _ _ _ _ Hr Hq0) as (o & c & Ho & Et & Ec & ->).
    exists o, c. cbn. repeat split; auto. eapply cores_of_pos; eassumption.
  - intros Hne Hok. rewrite get_pricing_round. unfold get_pricing.
    destruct (fetch_zones_total ec2 T azs (Dict.fromkeys String.eqb azs [])
                Hne Hok) as [p0 ->].
    now eexists.
  - intros az o Haz Ho Hbad. rewrite get_pricing_round.
    assert (Hb : is_ok (cores_of (InstanceType o)) = false) by now rewrite Hbad.
    destruct (fetch_zones_unknown ec2 T azs (Dict.fromkeys String.eqb azs [])
                az o Haz Ho Hb) as [e He].
    unfold get_pricing. rewrite He.
    split; [now exists e|]. intros Hne.
    destruct (fetch_zones_error _ _ _ _ _ He) as [->|[_ (az' & Hz & E)]];
      [reflexivity|].
    exfalso. now apply (Hne az').
Qed.

Lemma core_price_is_price_per_core_witness :
  (exists row o' c q,
     Dict.get String.eqb "us-east-1a"
       [("us-east-1a",
         [("m5.12xlarge",
           Some {| price := SpotFloat.tenth;
                   core_price := 4803839602528529 # 2305843009213693952;
                   cores := 48 |})])] = Some row /\
     Dict.get String.eqb "m5.12xlarge" row = Some (Some q) /\
     last_obs "m5.12xlarge" (SpotFloat.tenth_ec2 ["m5.12xlarge"] "us-east-1a")
     = Some o' /\
     cores_of "m5.12xlarge" = Ok c /\ 0 < c /\
     price q = SpotPrice o' /\ cores q = c /\
     core_price q
     = SpotFloat.nearest_double (price q / inject_Z (cores q))%Q) /\
  SpotFloat.get_pricing SpotFloat.nearest_double metal_ec2 ["m5.xlarge"]
    ["us-east-1a"; "us-east-1b"]
  = Raise KeyError.
Proof.
  split.
  - apply (proj1 (proj2 (core_price_is_price_per_core
                           SpotFloat.nearest_double SpotFloat.tenth_ec2
                           ["m5.12xlarge"] ["us-east-1a"]))
             _ "us-east-1a" (obs "m5.12xlarge" SpotFloat.tenth)).
    + vm_compute. reflexivity.
    + left. reflexivity.
    + left. reflexivity.
  - apply (proj2 (proj2 (proj2 (proj2 (core_price_is_price_per_core
                           SpotFloat.nearest_double metal_ec2 ["m5.xlarge"]
                           ["us-east-1a"; "us-east-1b"]))))
             "us-east-1b" (obs "m5.metal" (4 # 1))).
    + right; left; reflexivity.
    + left; reflexivity.
    + reflexivity.
    + intros az' [<-|[<-|[]]]; discriminate.
Defined.

End SpotFloatProps.

(** ** The directory client *)

Module IPAMore.
Import IPAClient IPAProps.

Local Open Scope list_scope.

(** *** [check_response] *)

Lemma raise_for_raises (err : json) : exists e, raise_for err = Raise e.
Proof.
  unfold raise_for.
  destruct (getitem err "code") as [code|e]; cbn [bind];
    [|now exists e].
  destruct code as [|b|n|s|l|d]; cbn [between bind equals];
    try (now eexists).
  - repeat match goal with
           | |- exists e, (if ?c then _ else _) = Raise e =>
               destruct c; cbn [bind]
           | |- exists e, bind ?m _ = Raise e =>
               destruct m; cbn [bind]
           | |- exists e, Raise _ = Raise e => eexists; reflexivity
           end.
  - repeat match goal with
           | |- exists e, (if ?c then _ else _) = Raise e =>
               destruct c; cbn [bind]
           | |- exists e, bind ?m _ = Raise e =>
               destruct m; cbn [bind]
           | |- exists e, Raise _ = Raise e => eexists; reflexivity
           end.
Qed.

(** X15: [check_response] returns normally exactly when the text has no
    credential marker, the body is a JSON object with a [result] that is
    false or not truncated, and with a false [error]; it never lets a true
    [error] through. *)
Theorem check_passes_iff (r : response) :
  check_response r = Ok tt <->
  str_in kerberos_marker (text r) = false /\
  exists response_obj result err,
    body r = Some response_obj /\
    getitem response_obj "result" = Ok result /\
    (truthy result = false \/
     exists t, get result "truncated" (JBool false) = Ok t /\
               truthy t = false) /\
    getitem response_obj "error" = Ok err /\
    truthy err = false.
Proof.
  unfold check_response, check_truncated. split.
  - destruct (str_in kerberos_marker (text r)); [discriminate|].
    destruct (body r) as [obj|]; [|discriminate].
    destruct (getitem obj "result") as [result|] eqn:Er; cbn [bind];
      [|discriminate].
    intros H. split; [reflexivity|]. exists obj, result.
    destruct (truthy result) eqn:Et.
    + destruct (get result "truncated" (JBool false)) as [t|] eqn:Eg;
        cbn [bind] in H; [|discriminate].
      destruct (truthy t) eqn:Ett; cbn [bind] in H; [discriminate|].
      destruct (getitem obj "error") as [err|]; cbn [bind] in H;
        [|discriminate].
      destruct (truthy err) eqn:Ee; cbn [negb] in H.
      * destruct (raise_for_raises err) as [e He]. congruence.
      * exists err. repeat split; auto. right. now exists t.
    + cbn [bind] in H.
      destruct (getitem obj "error") as [err|]; cbn [bind] in H;
        [|discriminate].
      destruct (truthy err) eqn:Ee; cbn [negb] in H.
      * destruct (raise_for_raises err) as [e He]. congruence.
      * exists err. repeat split; auto.
  - intros (Hm & obj & result & err & Hb & Hr & Ht & He & Hy).
    rewrite Hm, Hb, Hr. cbn [bind].
    destruct Ht as [->|(t & Hg & Htt)].
    + cbn [bind]. rewrite He. cbn [bind]. now rewrite Hy.
    + destruct (truthy result); [rewrite Hg; cbn [bind]; rewrite Htt|];
        cbn [bind]; rewrite He; cbn [bind]; now rewrite Hy.
Qed.

Lemma check_passes_iff_witness : check_response hosts_reply = Ok tt.
Proof.
  apply (proj2 (check_passes_iff hosts_reply)).
  split; [reflexivity|]. eexists _, _, _.
  split; [reflexivity|]. split; [reflexivity|].
  split; [right; eexists; split; reflexivity|].
  split; reflexivity.
Defined.

Lemma check_response_has_error (r : response) (err : json) :
  has_error r err -> check_response r = raise_for err.
Proof.
  intros (Hm & obj & Hb & Ht & He & Hy).
  unfold check_response. rewrite Hm, Hb, Ht. cbn [bind].
  rewrite He. cbn [bind]. rewrite Hy. reflexivity.
Qed.

Ltac split_bands :=
  repeat match goal with
         | |- context [?a <=? ?b] => destruct (Z.leb_spec a b)
         | |- context [?a =? ?b] => destruct (Z.eqb_spec a b)
         end;
  cbn [andb].

(** X16: the exception raised for a reported code is always an
    [IPAError]; it is an [ExecutionError], so caught by
    [except ExecutionError], exactly for the codes 4000 to 4999, a
    [NotFoundError] exactly for 4001 and an [AlreadyExistsError] exactly
    for 4002. *)
Theorem raised_class (r : response) (err m : json) (code : Z) :
  reports r err code ->
  getitem err "message" = Ok m ->
  exists e,
    check_response r = Raise e /\
    isinstance e CIPAError = true /\
    (isinstance e CExecution = true <-> 4000 <= code <= 4999) /\
    (isinstance e CNotFound = true <-> code = 4001) /\
    (isinstance e CAlreadyExists = true <-> code = 4002).
Proof.
  intros Hr Hmsg. rewrite (check_response_reports _ _ _ Hr).
  destruct Hr as (_ & obj & _ & _ & _ & _ & Hc).
  unfold raise_for. rewrite Hc. cbn [bind]. rewrite !between_num.
  cbn [bind equals]. rewrite Hmsg. cbn [bind].
  split_bands; eexists; (split; [reflexivity|]);
    (split; [reflexivity|]); cbn;
    repeat split; intros; try reflexivity; try discriminate; try lia.
Qed.

Lemma raised_class_witness :
  exists e,
    check_response (error_response 4002 (JStr "exists")) = Raise e /\
    isinstance e CIPAError = true /\
    (isinstance e CExecution = true <-> 4000 <= 4002 <= 4999) /\
    (isinstance e CNotFound = true <-> 4002 = 4001) /\
    (isinstance e CAlreadyExists = true <-> 4002 = 4002).
Proof.
  apply (raised_class (error_response 4002 (JStr "exists"))
           (JDict [("code", JNum 4002); ("message", JStr "exists")])
           (JStr "exists") 4002).
  - split; [reflexivity|]. eexists. repeat split; reflexivity.
  - reflexivity.
Defined.

(** X17: what a malformed [error] object gives: [KeyError] without a
    [code], [TypeError] for a [code] that is a string or [null], and, when
    the [message] is missing, [KeyError] for a code from 1000 to 5999 but
    the plain "Unknown error." for a code outside: the message is only
    read for a code of a known band. *)
Theorem malformed_error (r : response) (err : json) :
  has_error r err ->
  (getitem err "code" = Raise KeyError -> check_response r = Raise KeyError) /\
  (forall s, getitem err "code" = Ok (JStr s) ->
             check_response r = Raise TypeError) /\
  (getitem err "code" = Ok JNull -> check_response r = Raise TypeError) /\
  (forall n, getitem err "code" = Ok (JNum n) ->
             getitem err "message" = Raise KeyError ->
             check_response r
             = Raise (if (1000 <=? n) && (n <=? 5999) then KeyError
                      else IPAError (JStr "Unknown error."))).
Proof.
  intros Hr. rewrite (check_response_has_error _ _ Hr). unfold raise_for.
  split; [|split; [|split]].
  - now intros ->.
  - now intros s ->.
  - now intros ->.
  - intros n -> ->. cbn [bind]. rewrite !between_num. cbn [bind equals].
    split_bands; try reflexivity; lia.
Qed.

Lemma malformed_error_witness :
  check_response
    {| text := "{...}";
       body := Some (JDict [("result", JNull);
                            ("error", JDict [("code", JNum 4001)])]) |}
  = Raise KeyError /\
  check_response
    {| text := "{...}";
       body := Some (JDict [("result", JNull);
                            ("error", JDict [("code", JNum 903)])]) |}
  = Raise (IPAError (JStr "Unknown error.")).
Proof.
  split.
  - refine (proj2 (proj2 (proj2 (malformed_error _
              (JDict [("code", JNum 4001)]) _))) 4001 eq_refl eq_refl).
    split; [reflexivity|]. eexists. repeat split; reflexivity.
  - refine (proj2 (proj2 (proj2 (malformed_error _
              (JDict [("code", JNum 903)]) _))) 903 eq_refl eq_refl).
    split; [reflexivity|]. eexists. repeat split; reflexivity.
Defined.

(** *** The client *)

Lemma flat_fqdn_lists (hosts : list json) (names : list (list json)) :
  Forall2 (fun h ns => getitem h "fqdn" = Ok (JList ns)) hosts names ->
  flat_fqdn hosts = Ok (concat names).
Proof.
  induction 1 as [|h ns hosts names Hh _ IH]; cbn [flat_fqdn concat];
    [reflexivity|].
  rewrite Hh. cbn [bind iter]. rewrite IH. reflexivity.
Qed.

(** X18: [get_hosts] raises what [check_response] raises on the reply to
    its [host_find] request; on a reply that passes and lists host objects
    with [fqdn] lists, it returns all the names, host after host, in one
    flat list. *)
Theorem get_hosts_flattens (post : transport) (pattern : json)
    (kwargs : list (string * json)) :
  (forall e,
     check_response (post (get_hosts_payload pattern kwargs)) = Raise e ->
     get_hosts post pattern kwargs = Raise e) /\
  (forall resp outer hosts names,
     check_response (post (get_hosts_payload pattern kwargs)) = Ok tt ->
     body (post (get_hosts_payload pattern kwargs)) = Some resp ->
     getitem resp "result" = Ok outer ->
     getitem outer "result" = Ok (JList hosts) ->
     Forall2 (fun h ns => getitem h "fqdn" = Ok (JList ns)) hosts names ->
     get_hosts post pattern kwargs = Ok (concat names)).
Proof.
  unfold get_hosts, _post. split.
  - now intros e ->.
  - intros resp outer hosts names Hc Hb Ho Hh Hf.
    rewrite Hc. cbn [bind]. unfold json_of. rewrite Hb. cbn [bind].
    rewrite Ho. cbn [bind]. rewrite Hh. cbn [bind iter].
    now apply flat_fqdn_lists.
Qed.

Lemma get_hosts_flattens_witness :
  get_hosts (fun _ => hosts_reply) (JStr "x.com") [("sizelimit", JNum 10)]
  = Ok [JStr "a.x.com"; JStr "b.x.com"; JStr "b"] /\
  get_hosts (fun _ => error_response 2100 (JStr "denied")) JNull []
  = Raise (AuthorizationError (JStr "denied")).
Proof.
  split.
  - refine (proj2 (get_hosts_flattens (fun _ => hosts_reply) (JStr "x.com")
                     [("sizelimit", JNum 10)])
              _ _ _ [[JStr "a.x.com"]; [JStr "b.x.com"; JStr "b"]]
              eq_refl eq_refl eq_refl eq_refl _).
    repeat constructor.
  - apply (proj1 (get_hosts_flattens
                    (fun _ => error_response 2100 (JStr "denied")) JNull [])).
    reflexivity.
Defined.

(** *** [filter_raw_records] *)

Lemma filter_unfold (cell_name record_type : string) (raw_records : json)
    (records : list json) :
  is_dump raw_records records ->
  filter_raw_records cell_name raw_records record_type
  = (sel <~ select cell_name record_type records ;;
     collect record_type sel []).
Proof.
  intros (outer & H1 & H2). unfold filter_raw_records.
  rewrite H1. cbn [lift and_then]. rewrite H2. reflexivity.
Qed.

Lemma selected_export (cell_name record_type : string) (x : export) :
  selected cell_name record_type (export_record x)
  = Return (str_in cell_name (ex_name x) &&
            Dict.mem String.eqb record_type (export_fields x)).
Proof.
  unfold selected, export_record, export_fields.
  cbn [getitem Dict.get String.eqb Ascii.eqb Bool.eqb lift and_then first
       contained].
  now destruct (str_in cell_name (ex_name x)).
Qed.

Lemma dns_record_export (record_type : string) (x : export) (entry : json) :
  dns_record record_type (export_record x) entry
  = Return (entry_of record_type x entry).
Proof. reflexivity. Qed.

Lemma dns_records_of_export (record_type : string) (x : export)
    (entries : list json) :
  dns_records_of record_type (export_record x) entries
  = Return (map (entry_of record_type x) entries).
Proof.
  induction entries as [|entry entries IH]; cbn [dns_records_of map];
    [reflexivity|].
  rewrite dns_record_export. cbn [and_then]. rewrite IH. reflexivity.
Qed.

Lemma appended_export (cell_name record_type : string) (x : export) :
  str_in cell_name (ex_name x) &&
  Dict.mem String.eqb record_type (export_fields x) = true ->
  appended record_type (export_record x)
  = Return (expected_of cell_name record_type x).
Proof.
  intros H. apply andb_true_iff in H as [Hc Hm].
  unfold appended, expected_of, export_record, getitem. rewrite Hc.
  unfold Dict.mem in Hm.
  destruct (Dict.get String.eqb record_type (export_fields x)) as [v|];
    [|discriminate].
  cbn [lift and_then].
  destruct v; try apply (dns_records_of_export record_type x [_]).
  apply dns_records_of_export.
Qed.

Lemma expected_of_unselected (cell_name record_type : string) (x : export) :
  str_in cell_name (ex_name x) &&
  Dict.mem String.eqb record_type (export_fields x) = false ->
  expected_of cell_name record_type x = [].
Proof.
  unfold expected_of, Dict.mem.
  destruct (str_in cell_name (ex_name x)); [|reflexivity].
  now destruct (Dict.get String.eqb record_type (export_fields x)).
Qed.

Lemma filter_exports (cell_name record_type : string) (xs : list export) :
  exists sel,
    select cell_name record_type (map export_record xs) = Return sel /\
    forall acc,
      collect record_type sel acc
      = Return (acc ++ flat_map (expected_of cell_name record_type) xs).
Proof.
  induction xs as [|x xs (sel & Hs & Hc)]; cbn [map select flat_map].
  - exists []. split; [reflexivity|]. intros acc. cbn [collect].
    now rewrite app_nil_r.
  - rewrite selected_export. cbn [and_then]. rewrite Hs. cbn [and_then].
    destruct (str_in cell_name (ex_name x) &&
              Dict.mem String.eqb record_type (export_fields x)) eqn:E.
    + exists (export_record x :: sel). split; [reflexivity|]. intros acc.
      cbn [collect]. rewrite (appended_export cell_name _ _ E).
      cbn [and_then]. now rewrite Hc, <- app_assoc.
    + exists sel. split; [reflexivity|]. intros acc.
      now rewrite Hc, (expected_of_unselected _ _ _ E).
Qed.

(** X19: on a dump of well-formed records [filter_raw_records] raises
    nothing and returns, record after record, one entry for each value
    that a record whose name contains [cell_name] has under [record_type]:
    one per element when the value is a list, a single one otherwise, and
    none for a record of another cell or without the type. *)
Theorem filter_exported (cell_name record_type : string) (raw_records : json)
    (xs : list export) :
  is_dump raw_records (map export_record xs) ->
  filter_raw_records cell_name raw_records record_type
  = Return (flat_map (expected_of cell_name record_type) xs).
Proof.
  intros H. rewrite (filter_unfold _ _ _ _ H).
  destruct (filter_exports cell_name record_type xs) as (sel & -> & Hc).
  cbn [and_then]. now rewrite Hc.
Qed.

Lemma filter_exported_witness :
  filter_raw_records "cell1" sample_dump "srvrecord"
  = Return [JDict [("type", JStr "srvrecord");
                   ("dn", JStr "idnsname=_ssh._tcp.cell1,cn=dns");
                   ("idnsname", JStr "_ssh._tcp.cell1");
                   ("record", JStr "0 0 22 h1.")];
            JDict [("type", JStr "srvrecord");
                   ("dn", JStr "idnsname=_ssh._tcp.cell1,cn=dns");
                   ("idnsname", JStr "_ssh._tcp.cell1");
                   ("record", JStr "0 0 22 h2.")]].
Proof.
  apply (filter_exported "cell1" "srvrecord" sample_dump sample_exports).
  eexists. split; reflexivity.
Defined.

Lemma select_throws (cell_name record_type : string) (xs : list export)
    (bad : json) (rest : list json) (e : error) :
  selected cell_name record_type bad = Throw e ->
  select cell_name record_type (map export_record xs ++ bad :: rest)
  = Throw e.
Proof.
  intros Hbad. induction xs as [|x xs IH]; cbn [map app select].
  - now rewrite Hbad.
  - rewrite selected_export. cbn [and_then]. now rewrite IH.
Qed.

(** X20: the condition of the comprehension is evaluated on every record
    of the dump, so one malformed record makes the whole call raise,
    whatever cell and type are asked for: [KeyError] for an object without
    [idnsname], [IndexError] for an empty [idnsname] list, [TypeError] for
    a record that is a string. *)
Theorem malformed_record_raises (cell_name record_type : string)
    (raw_records : json) (xs : list export) (bad : json) (rest : list json) :
  is_dump raw_records (map export_record xs ++ bad :: rest) ->
  (forall d, bad = JDict d -> Dict.get String.eqb "idnsname" d = None ->
     filter_raw_records cell_name raw_records record_type
     = Throw (Builtin KeyError)) /\
  (forall d, bad = JDict d ->
     Dict.get String.eqb "idnsname" d = Some (JList []) ->
     filter_raw_records cell_name raw_records record_type
     = Throw IndexError) /\
  (forall s, bad = JStr s ->
     filter_raw_records cell_name raw_records record_type
     = Throw (Builtin TypeError)).
Proof.
  intros H. rewrite (filter_unfold _ _ _ _ H).
  split; [|split].
  - intros d -> Hd. rewrite (select_throws _ _ _ _ _ (Builtin KeyError));
      [reflexivity|].
    unfold selected, getitem. now rewrite Hd.
  - intros d -> Hd. rewrite (select_throws _ _ _ _ _ IndexError);
      [reflexivity|].
    unfold selected, getitem. now rewrite Hd.
  - intros s ->. now rewrite (select_throws _ _ _ _ _ (Builtin TypeError)).
Qed.

Lemma malformed_record_raises_witness :
  filter_raw_records "cell9"
    (JDict [("result",
             JDict [("result",
                     JList (map export_record sample_exports ++
                            [JDict [("dn", JStr "cn=dns")]]))])])
    "arecord"
  = Throw (Builtin KeyError).
Proof.
  refine (proj1 (malformed_record_raises "cell9" "arecord" _ sample_exports
                   (JDict [("dn", JStr "cn=dns")]) [] _) _ eq_refl eq_refl).
  eexists. split; reflexivity.
Defined.

Lemma select_related (cell_name record_type : string) (l1 l2 : list json) :
  Forall2 (fun a b =>
             selected cell_name record_type a
             = selected cell_name record_type b /\
             appended record_type a = appended record_type b) l1 l2 ->
  (exists e, select cell_name record_type l1 = Throw e /\
             select cell_name record_type l2 = Throw e) \/
  (exists s1 s2,
     select cell_name record_type l1 = Return s1 /\
     select cell_name record_type l2 = Return s2 /\
     Forall2 (fun a b => appended record_type a = appended record_type b)
       s1 s2).
Proof.
  induction 1 as [|a b l1 l2 [Hsel Happ] _ IH]; cbn [select].
  - right. exists [], []. repeat split; constructor.
  - rewrite <- Hsel.
    destruct (selected cell_name record_type a) as [c|e]; cbn [and_then];
      [|left; now exists e].
    destruct IH as [(e & -> & ->)|(s1 & s2 & -> & -> & Hs)]; cbn [and_then].
    + left. now exists e.
    + right. destruct c.
      * exists (a :: s1), (b :: s2). repeat split; auto.
      * exists s1, s2. repeat split; auto.
Qed.

Lemma collect_related (record_type : string) (s1 s2 : list json) :
  Forall2 (fun a b => appended record_type a = appended record_type b)
    s1 s2 ->
  forall acc, collect record_type s1 acc = collect record_type s2 acc.
Proof.
  induction 1 as [|a b s1 s2 Hab _ IH]; intros acc; cbn [collect];
    [reflexivity|].
  rewrite <- Hab. destruct (appended record_type a); cbn [and_then];
    [apply IH | reflexivity].
Qed.

Lemma Forall2_same {A : Type} (R : A -> A -> Prop) (l : list A) :
  (forall a, R a a) -> Forall2 R l l.
Proof. intros H. induction l; constructor; auto. Qed.

Lemma single_or_list (cell_name record_type : string)
    (d : list (string * json)) (v : json) :
  (forall entries, v <> JList entries) ->
  record_type <> "dn" -> record_type <> "idnsname" ->
  selected cell_name record_type (JDict (Dict.set String.eqb record_type v d))
  = selected cell_name record_type
      (JDict (Dict.set String.eqb record_type (JList [v]) d)) /\
  appended record_type (JDict (Dict.set String.eqb record_type v d))
  = appended record_type
      (JDict (Dict.set String.eqb record_type (JList [v]) d)).
Proof.
  intros Hv Hdn Hname.
  assert (Eg : forall key w, key <> record_type ->
            Dict.get String.eqb key (Dict.set String.eqb record_type w d)
            = Dict.get String.eqb key d).
  { intros key w Hk. rewrite (get_set String.eqb String.eqb_eq).
    destruct (String.eqb_spec key record_type); [contradiction | reflexivity]. }
  assert (Er : forall w,
            Dict.get String.eqb record_type
              (Dict.set String.eqb record_type w d) = Some w).
  { intros w. now rewrite (get_set String.eqb String.eqb_eq), String.eqb_refl. }
  split.
  - unfold selected, getitem, has_key, Dict.mem.
    rewrite (Eg "idnsname" v), (Eg "idnsname" (JList [v])) by congruence.
    now rewrite (Er v), (Er (JList [v])).
  - unfold appended, getitem. rewrite (Er v), (Er (JList [v])).
    cbn [lift and_then].
    assert (Ed : dns_records_of record_type
                   (JDict (Dict.set String.eqb record_type v d)) [v]
                 = dns_records_of record_type
                     (JDict (Dict.set String.eqb record_type (JList [v]) d))
                     [v]).
    { cbn [dns_records_of]. unfold dns_record, getitem.
      rewrite (Eg "dn" v), (Eg "dn" (JList [v])) by congruence.
      rewrite (Eg "idnsname" v), (Eg "idnsname" (JList [v])) by congruence.
      reflexivity. }
    destruct v; try exact Ed. exfalso. now apply (Hv l).
Qed.

(** X21: a value stored alone and the same value stored as a list of one
    give the same result: replacing, in any record of any dump, the value
    under [record_type] (not itself a list) by the list holding just that
    value changes nothing in what [filter_raw_records] returns or
    raises. *)
Theorem single_value_as_list (cell_name record_type : string)
    (raw1 raw2 : json) (before after : list json)
    (d : list (string * json)) (v : json) :
  (forall entries, v <> JList entries) ->
  record_type <> "dn" -> record_type <> "idnsname" ->
  is_dump raw1
    (before ++ JDict (Dict.set String.eqb record_type v d) :: after) ->
  is_dump raw2
    (before ++ JDict (Dict.set String.eqb record_type (JList [v]) d)
            :: after) ->
  filter_raw_records cell_name raw1 record_type
  = filter_raw_records cell_name raw2 record_type.
Proof.
  intros Hv Hdn Hname H1 H2.
  rewrite (filter_unfold _ _ _ _ H1), (filter_unfold _ _ _ _ H2).
  destruct (select_related cell_name record_type
              (before ++ JDict (Dict.set String.eqb record_type v d) :: after)
              (before ++ JDict (Dict.set String.eqb record_type (JList [v]) d)
                      :: after))
    as [(e & -> & ->)|(s1 & s2 & -> & -> & Hs)].
  - apply Forall2_app.
    + apply Forall2_same. now split.
    + constructor; [now apply single_or_list|].
      apply Forall2_same. now split.
  - reflexivity.
  - cbn [and_then]. now apply collect_related.
Qed.

Lemma single_value_as_list_witness :
  filter_raw_records "cell"
    (JDict [("result", JDict [("result",
        JList [JDict [("idnsname", JList [JStr "cell1"]); ("dn", JStr "x");
                      ("txtrecord", JStr "v=1")]])])])
    "txtrecord"
  = filter_raw_records "cell"
      (JDict [("result", JDict [("result",
          JList [JDict [("idnsname", JList [JStr "cell1"]); ("dn", JStr "x");
                        ("txtrecord", JList [JStr "v=1"])]])])])
      "txtrecord".
Proof.
  refine (single_value_as_list "cell" "txtrecord" _ _ [] []
            [("idnsname", JList [JStr "cell1"]); ("dn", JStr "x");
             ("txtrecord", JNull)]
            (JStr "v=1") _ _ _ _ _).
  - discriminate.
  - discriminate.
  - discriminate.
  - eexists. split; reflexivity.
  - eexists. split; reflexivity.
Defined.

End IPAMore.
